(** * loopback-connector-ml: filter translation and CRUD orchestration

    A shallow embedding of [src/lib/ml.js].  The file holds two listings of
    the connector: the document-API connector (lines 1-447, module [Ml]) and
    the collection-command connector (lines 448-1329, module [MlOrig]).

    JavaScript objects are shared and mutable, so they live in a heap of
    objects addressed by locations; every connector function is a
    computation over a [world] (the heap and the log of store requests and
    completions), which returns, raises, or gives no answer ([Abort]: the
    fuel of a recursion is spent, a location is not allocated, or the step
    leaves the data the model covers).  The store is a collaborator: how
    each of its calls settles is an argument of the operation, and the
    handlers run in the order the calls are issued.

    The data covered: [undefined], [null], booleans, integral numbers,
    strings of code units below 256, and references to ordinary objects,
    arrays, dates and regular expressions.  A property read sees the own
    properties; of what prototypes add, the [constructor] is modelled where
    the code inspects it, and the [keys] of an array where the index
    declarations are read.  Where the code reads a name that comes with the
    data (the identity name of a model), the properties are stated for
    objects that do not answer to that name through their prototype
    ([inherited]). *)

From Stdlib Require Import ZArith NArith String Ascii List Bool Lia.
From Stdlib Require Import DecimalString.
From stdpp Require Import base list.
Import ListNotations.

Local Open Scope string_scope.
Local Open Scope list_scope.

(** ** Values and objects *)

Definition loc := nat.

(** Numbers are the integral ones; functions are not data and are left out. *)
Inductive value :=
| VUndefined
| VNull
| VBool (b : bool)
| VNum (n : Z)
| VStr (s : string)
| VRef (l : loc).

(** [OObj ctor props]: an ordinary object; [ctor] names the constructor
    reached through its prototype ([Some "Object"] for a literal, [None] for
    a prototype-less object) and [props] lists the own enumerable properties
    in enumeration order.  [ORegExp] keeps the arguments the constructor was
    given. *)
Inductive object :=
| OObj (ctor : option string) (props : list (string * value))
| OArr (elems : list value)
| ODate (t : Z)
| ORegExp (pattern flags : value).

Inductive event :=
| Request (command : string) (args : list value)
| Complete (args : list value).

Record world := World { heap : list object; events : list event }.

Inductive error :=
| TypeError
| SyntaxError
| ReferenceError (name : string)
| ConnectionError.

Inductive outcome (A : Type) :=
| Ret (a : A)
| Raise (e : error)
| Abort.
Arguments Ret {A} a.
Arguments Raise {A} e.
Arguments Abort {A}.

(** ** The computation monad *)

Definition M (A : Type) := world -> outcome A * world.

#[global] Instance M_ret : MRet M := fun A a w => (Ret a, w).
#[global] Instance M_bind : MBind M := fun A B f m w =>
  match m w with
  | (Ret a, w') => f a w'
  | (Raise e, w') => (Raise e, w')
  | (Abort, w') => (Abort, w')
  end.

Definition raise {A} (e : error) : M A := fun w => (Raise e, w).
Definition abort {A} : M A := fun w => (Abort, w).

Definition alloc (o : object) : M value := fun w =>
  (Ret (VRef (length (heap w))), World (heap w ++ [o]) (events w)).

Definition deref (l : loc) : M object := fun w =>
  match heap w !! l with
  | Some o => (Ret o, w)
  | None => (Abort, w)
  end.

Definition store (l : loc) (o : object) : M unit := fun w =>
  (Ret tt, World (<[l := o]> (heap w)) (events w)).

Definition emit (e : event) : M unit := fun w =>
  (Ret tt, World (heap w) (events w ++ [e])).

Fixpoint for_each {A} (xs : list A) (f : A -> M unit) : M unit :=
  match xs with
  | [] => mret tt
  | x :: xs' => f x ;; for_each xs' f
  end.

Fixpoint map_m {A B} (f : A -> M B) (xs : list A) : M (list B) :=
  match xs with
  | [] => mret []
  | x :: xs' => y ← f x; ys ← map_m f xs'; mret (y :: ys)
  end.

(** ** Strings *)

(** White space of [\s] and of [trim], among the code units below 256. *)
Definition is_ws (c : ascii) : bool :=
  let n := nat_of_ascii c in
  ((9 <=? n)%nat && (n <=? 13)%nat) || (n =? 32)%nat || (n =? 160)%nat.

Fixpoint trim_left (s : string) : string :=
  match s with
  | String c r => if is_ws c then trim_left r else s
  | EmptyString => EmptyString
  end.

Fixpoint trim_right (s : string) : string :=
  match s with
  | String c r =>
      let r' := trim_right r in
      if is_ws c && (r' =? "")%string then "" else String c r'
  | EmptyString => EmptyString
  end.

Definition trim (s : string) : string := trim_right (trim_left s).

(** [s.split(',')]. *)
Fixpoint split_comma (cur : string) (s : string) : list string :=
  match s with
  | EmptyString => [cur]
  | String c r =>
      if (c =? ",")%char then cur :: split_comma "" r
      else split_comma (cur ++ String c "") r
  end.

(** [/\s+(A|DE)SC$/] tried at the start of [s]: the captured group. *)
Fixpoint match_here (s : string) : option string :=
  match s with
  | String c r =>
      if is_ws c then
        match match_here r with
        | Some g => Some g
        | None => if (r =? "ASC")%string then Some "A"
                  else if (r =? "DESC")%string then Some "DE" else None
        end
      else None
  | EmptyString => None
  end.

(** The leftmost match: the text before it and the captured group. *)
Fixpoint match_direction (s : string) : option (string * string) :=
  match match_here s with
  | Some g => Some ("", g)
  | None =>
      match s with
      | String c r =>
          match match_direction r with
          | Some (pre, g) => Some (String c pre, g)
          | None => None
          end
      | EmptyString => None
      end
  end.

Definition string_of_N (n : N) : string := NilZero.string_of_uint (N.to_uint n).

(** A property name that is an array index: a canonical decimal numeral
    below 2^32 - 1. *)
Definition array_index (k : string) : option N :=
  match NilZero.uint_of_string k with
  | Some d =>
      let n := N.of_uint d in
      if (string_of_N n =? k)%string && (n <? 4294967295)%N then Some n else None
  | None => None
  end.

(** ** Own properties *)

Fixpoint lookup_prop (k : string) (ps : list (string * value)) : option value :=
  match ps with
  | [] => None
  | (k', v) :: t => if (k' =? k)%string then Some v else lookup_prop k t
  end.

Fixpoint replace_prop (k : string) (v : value) (ps : list (string * value)) :=
  match ps with
  | [] => []
  | (k', v') :: t =>
      if (k' =? k)%string then (k', v) :: t else (k', v') :: replace_prop k v t
  end.

Fixpoint insert_index (n : N) (k : string) (v : value) (ps : list (string * value)) :=
  match ps with
  | [] => [(k, v)]
  | (k', v') :: t =>
      match array_index k' with
      | Some n' => if (n <? n')%N then (k, v) :: ps
                   else (k', v') :: insert_index n k v t
      | None => (k, v) :: ps
      end
  end.

(** [o[k] = v] on the own properties: an existing property keeps its place;
    a new array index goes among the indices in ascending order, any other
    new name goes last. *)
Definition set_own (k : string) (v : value) (ps : list (string * value)) :=
  match lookup_prop k ps with
  | Some _ => replace_prop k v ps
  | None =>
      match array_index k with
      | Some n => insert_index n k v ps
      | None => ps ++ [(k, v)]
      end
  end.

Fixpoint delete_own (k : string) (ps : list (string * value)) :=
  match ps with
  | [] => []
  | (k', v) :: t => if (k' =? k)%string then t else (k', v) :: delete_own k t
  end.

Definition or_undefined (o : option value) : value :=
  match o with Some v => v | None => VUndefined end.

Definition index_value (es : list value) (k : string) : value :=
  if (k =? "length")%string then VNum (Z.of_nat (length es))
  else match array_index k with
       | Some n => or_undefined (es !! N.to_nat n)
       | None => VUndefined
       end.

Fixpoint chars (s : string) : list value :=
  match s with
  | EmptyString => []
  | String c r => VStr (String c "") :: chars r
  end.

(** The data properties an object answers to; what a prototype adds are
    functions, outside the model (the [constructor] is read by
    [constructor_name] below). *)
Definition own_prop (o : object) (k : string) : value :=
  match o with
  | OObj _ ps => or_undefined (lookup_prop k ps)
  | OArr es => index_value es k
  | ODate _ => VUndefined
  | ORegExp _ _ => VUndefined
  end.

Definition own_keys (o : object) : list string :=
  match o with
  | OObj _ ps => map fst ps
  | OArr es => map (fun i => string_of_N (N.of_nat i)) (seq 0 (length es))
  | ODate _ => []
  | ORegExp _ _ => []
  end.

(** [v[k]] *)
Definition get_prop (v : value) (k : string) : M value :=
  match v with
  | VUndefined | VNull => raise TypeError
  | VBool _ | VNum _ => mret VUndefined
  | VStr s => mret (index_value (chars s) k)
  | VRef l => o ← deref l; mret (own_prop o k)
  end.

(** Assigning [__proto__] where it is no own property goes to the accessor of
    the prototype, which replaces the prototype. *)
Definition accessor (k : string) (ps : list (string * value)) : bool :=
  match lookup_prop k ps with
  | Some _ => false
  | None => (k =? "__proto__")%string
  end.

(** [v[k] = x]; on a primitive the assignment is dropped (the file is not in
    strict mode); through the accessor the model gives no answer. *)
Definition put_prop (v : value) (k : string) (x : value) : M unit :=
  match v with
  | VUndefined | VNull => raise TypeError
  | VRef l =>
      o ← deref l;
      match o with
      | OObj c ps =>
          if accessor k ps then abort else store l (OObj c (set_own k x ps))
      | _ => abort
      end
  | _ => mret tt
  end.

(** [delete v[k]] *)
Definition delete_prop (v : value) (k : string) : M unit :=
  match v with
  | VUndefined | VNull => raise TypeError
  | VRef l =>
      o ← deref l;
      match o with
      | OObj c ps => store l (OObj c (delete_own k ps))
      | _ => abort
      end
  | _ => mret tt
  end.

(** [Object.keys(v)] *)
Definition keys (v : value) : M (list string) :=
  match v with
  | VUndefined | VNull => raise TypeError
  | VBool _ | VNum _ => mret []
  | VStr s => mret (own_keys (OArr (chars s)))
  | VRef l => o ← deref l; mret (own_keys o)
  end.

Definition truthy (v : value) : bool :=
  match v with
  | VUndefined | VNull => false
  | VBool b => b
  | VNum n => negb (n =? 0)%Z
  | VStr s => negb (s =? "")%string
  | VRef _ => true
  end.

Definition typeof (v : value) : string :=
  match v with
  | VUndefined => "undefined"
  | VNull => "object"
  | VBool _ => "boolean"
  | VNum _ => "number"
  | VStr _ => "string"
  | VRef _ => "object"
  end.

(** [===] *)
Definition strict_eq (a b : value) : bool :=
  match a, b with
  | VUndefined, VUndefined => true
  | VNull, VNull => true
  | VBool x, VBool y => Bool.eqb x y
  | VNum x, VNum y => (x =? y)%Z
  | VStr x, VStr y => (x =? y)%string
  | VRef x, VRef y => (x =? y)%nat
  | _, _ => false
  end.

Definition is_array (v : value) : M bool :=
  match v with
  | VRef l => o ← deref l; mret (match o with OArr _ => true | _ => false end)
  | _ => mret false
  end.

(** The elements [v.map] walks when [v] is an array; [map] on anything else
    is not callable. *)
Definition array_elems (v : value) : M (list value) :=
  match v with
  | VRef l =>
      o ← deref l;
      match o with OArr es => mret es | _ => raise TypeError end
  | _ => raise TypeError
  end.

(** [v.constructor.name] *)
Definition constructor_name (v : value) : M value :=
  match v with
  | VUndefined | VNull => raise TypeError
  | VBool _ => mret (VStr "Boolean")
  | VNum _ => mret (VStr "Number")
  | VStr _ => mret (VStr "String")
  | VRef l =>
      o ← deref l;
      match o with
      | OObj ctor ps =>
          match lookup_prop "constructor" ps with
          | Some c => get_prop c "name"
          | None =>
              match ctor with
              | Some n => mret (VStr n)
              | None => raise TypeError
              end
          end
      | OArr _ => mret (VStr "Array")
      | ODate _ => mret (VStr "Date")
      | ORegExp _ _ => mret (VStr "RegExp")
      end
  end.

(** The property name a value stands for in [o[v]]. *)
Definition key_of (v : value) : string :=
  match v with
  | VStr s => s
  | _ => "undefined"
  end.

Definition plain (ps : list (string * value)) : object := OObj (Some "Object") ps.

(** ** The filter translator *)

Section Translator.

(** The model metadata provider, the runtime's check of a pattern and its
    flags, and the name the identity field is rewritten to. *)
Variable idNames : string -> list string.
Variable regexp_ok : value -> value -> bool.
Variable locator : string.

Definition idName (model : string) : option string := head (idNames model).

Definition is_combinator (k : string) : bool :=
  (k =? "and")%string || (k =? "or")%string || (k =? "nor")%string.

Definition is_id (model k : string) : bool :=
  match idName model with
  | Some i => (k =? i)%string
  | None => false
  end.

Definition rewrite_key (model k : string) : string :=
  if is_id model k then locator else k.

Definition new_regexp (pattern flags : value) : M value :=
  if regexp_ok pattern flags then alloc (ORegExp pattern flags)
  else raise SyntaxError.

(** Lines 225-231 (881-887): [spec], [options] and [cond] after the
    inspection of the condition. *)
Definition clause (cond : value) : M (value * value * value) :=
  if truthy cond then
    n ← constructor_name cond;
    if strict_eq n (VStr "Object") then
      options ← get_prop cond "options";
      ks ← keys cond;
      let spec := or_undefined (VStr <$> head ks) in
      c ← get_prop cond (key_of spec);
      mret (spec, options, c)
    else mret (VBool false, VNull, cond)
  else mret (VBool false, VNull, cond).

(** Lines 232-257 (888-915). *)
Definition translate_field (query : value) (k : string) (cond : value) : M unit :=
  '(spec, options, cond) ← clause cond;
  if truthy spec then
    let spec := key_of spec in
    if (spec =? "between")%string then
      lo ← get_prop cond "0";
      hi ← get_prop cond "1";
      r ← alloc (plain [("$gte", lo); ("$lte", hi)]);
      put_prop query k r
    else if (spec =? "inq")%string then
      es ← array_elems cond;
      a ← alloc (OArr es);
      r ← alloc (plain [("$in", a)]);
      put_prop query k r
    else if (spec =? "like")%string then
      re ← new_regexp cond options;
      r ← alloc (plain [("$regex", re)]);
      put_prop query k r
    else if (spec =? "nlike")%string then
      re ← new_regexp cond options;
      r ← alloc (plain [("$not", re)]);
      put_prop query k r
    else if (spec =? "neq")%string then
      r ← alloc (plain [("$ne", cond)]);
      put_prop query k r
    else
      r ← alloc (plain []);
      put_prop query k r;;
      r' ← get_prop query k;
      put_prop r' ("$" ++ spec) cond
  else
    if strict_eq cond VNull then
      r ← alloc (plain [("$type", VNum 10)]);
      put_prop query k r
    else put_prop query k cond.

(** Lines 211-257 (867-915): one key of the filter; [translate] is the
    translation applied to the members of a combinator. *)
Definition translate_entry (translate : value -> M value) (model : string)
    (where_ query : value) (k : string) : M unit :=
  cond ← get_prop where_ k;
  let k := rewrite_key model k in
  if is_combinator k then
    arr ← is_array cond;
    cond ← (if arr : bool then
              es ← array_elems cond;
              qs ← map_m translate es;
              alloc (OArr qs)
            else mret cond);
    put_prop query ("$" ++ k) cond;;
    delete_prop query k
  else translate_field query k cond.

Fixpoint buildWhere (fuel : nat) (model : string) (where_ : value) : M value :=
  match fuel with
  | O => abort
  | S fuel' =>
      query ← alloc (plain []);
      if strict_eq where_ VNull || negb (typeof where_ =? "object")%string
      then mret query
      else
        ks ← keys where_;
        for_each ks (translate_entry (buildWhere fuel' model) model where_ query);;
        mret query
  end.

End Translator.

(** ** Completions and store replies *)

(** A completion callback; [None] where the caller passed none. *)
Definition callback := list value -> M unit.

Definition complete : callback := fun args => emit (Complete args).

(** [cb(args)] *)
Definition call (cb : option callback) (args : list value) : M unit :=
  match cb with
  | Some f => f args
  | None => raise TypeError
  end.

(** [cb && cb(args)] *)
Definition call_guarded (cb : option callback) (args : list value) : M unit :=
  match cb with
  | Some f => f args
  | None => mret tt
  end.

(** How the promise of a store call settles. *)
Inductive settled :=
| Resolved (response : value)
| Rejected (reason : value).

(** [promise.then(f)]: [f] runs on fulfilment only; what it throws rejects
    the derived promise, which nobody observes. *)
Definition then_ (p : settled) (f : value -> M unit) : M unit :=
  match p with
  | Resolved r => fun w =>
      match f r w with
      | (Abort, w') => (Abort, w')
      | (_, w') => (Ret tt, w')
      end
  | Rejected _ => mret tt
  end.

(** [arr.push(x)] *)
Definition push (arr : value) (x : value) : M unit :=
  match arr with
  | VRef l =>
      o ← deref l;
      match o with
      | OArr es => store l (OArr (es ++ [x]))
      | _ => raise TypeError
      end
  | _ => raise TypeError
  end.

Definition string_of_Z (n : Z) : string := NilZero.string_of_int (Z.to_int n).

(** String conversion of the primitive values.  A number prints as its
    decimal digits while it is an integer the runtime holds exactly (below
    2^53 in magnitude); beyond that the digits are rounded, and from 10^21
    an exponent is printed, which the model does not follow. *)
Definition to_string (v : value) : M string :=
  match v with
  | VUndefined => mret "undefined"
  | VNull => mret "null"
  | VBool true => mret "true"
  | VBool false => mret "false"
  | VNum n => if (Z.abs n <? 2 ^ 53)%Z then mret (string_of_Z n) else abort
  | VStr s => mret s
  | VRef _ => abort
  end.

(** [receiver[name](args)] on an object the store handed out: the call is
    logged under [name]; anything that is no object has no such method. *)
Definition invoke (receiver : value) (name : string) (args : list value) : M unit :=
  match receiver with
  | VRef _ => emit (Request name args)
  | _ => raise TypeError
  end.

(** ** The connection (lines 14-27, 78-121 and 420-430; in the second
    listing lines 460-473, 524-566 and 1141-1151) *)

(** [a || b]: [b] is evaluated only when [a] is falsy. *)
Definition or_m (a b : M value) : M value :=
  x ← a; if truthy x then mret x else b.

(** [process.nextTick(f)]: the tick is logged; what it queues runs once the
    operation that queued it has returned, and the connector queues as the
    last step of an operation. *)
Definition next_tick (f : M unit) : M unit :=
  emit (Request "process.nextTick" []);; f.

(** The names a [for ... in] visits, taken when the loop starts: none on
    [undefined] and [null]. *)
Definition enumerate (v : value) : M (list string) :=
  match v with
  | VUndefined | VNull => mret []
  | _ => keys v
  end.

(** Lines 14-27 (460-473). *)
Definition generateConnectionObject (options : value) : M value :=
  hostname ← or_m (get_prop options "hostname")
                (or_m (get_prop options "host") (mret (VStr "127.0.0.1")));
  put_prop options "hostname" hostname;;
  port ← or_m (get_prop options "port") (mret (VNum 8000));
  put_prop options "port" port;;
  database ← or_m (get_prop options "database")
                (or_m (get_prop options "db") (mret (VStr "documents")));
  put_prop options "database" database;;
  authType ← or_m (get_prop options "authType") (mret (VStr "DIGEST"));
  put_prop options "authType" authType;;
  _ ← or_m (get_prop options "username") (get_prop options "user");
  host ← get_prop options "hostname";
  port ← get_prop options "port";
  user ← get_prop options "username";
  password ← get_prop options "password";
  authType ← get_prop options "authType";
  alloc (plain [("host", host); ("port", port); ("user", user);
                ("password", password); ("authType", authType)]).

(** Lines 78-91 (524-536) on the connector [self]; [client] is what the
    client library hands back, and [queryBuilder] is the builder the first
    listing keeps on the connector (line 87; the second listing keeps none). *)
Definition connect (queryBuilder : option value) (self : value)
    (callback : option callback) (client : value) : M unit :=
  db ← get_prop self "db";
  if truthy db then
    next_tick (db ← get_prop self "db"; call_guarded callback [VNull; db])
  else
    settings ← get_prop self "settings";
    connInfo ← get_prop settings "connInfo";
    emit (Request "createDatabaseClient" [connInfo]);;
    put_prop self "db" client;;
    match queryBuilder with
    | Some qb => put_prop self "qb" qb
    | None => mret tt
    end;;
    db ← get_prop self "db";
    call_guarded callback [VNull; db].

(** Lines 102-108 (547-553). *)
Definition collectionName (self : value) (model : string) : M value :=
  models ← get_prop self "_models";
  modelClass ← get_prop models model;
  settings ← get_prop modelClass "settings";
  ml ← get_prop settings "ml";
  if truthy ml then
    settings ← get_prop modelClass "settings";
    ml ← get_prop settings "ml";
    or_m (get_prop ml "collection") (mret (VStr model))
  else mret (VStr model).

(** Lines 115-121 (560-566); [handle] is the collection the client hands
    back. *)
Definition collection (self : value) (model : string) (handle : value) : M value :=
  db ← get_prop self "db";
  if truthy db then
    name ← collectionName self model;
    emit (Request "queryCollection" [name]);;
    mret handle
  else raise ConnectionError.

(** Lines 420-430 (1141-1151). *)
Definition disconnect (self : value) (cb : option callback) : M unit :=
  _ ← get_prop self "debug";
  db ← get_prop self "db";
  (if truthy db then emit (Request "db.close" []) else mret tt);;
  match cb with
  | Some f => next_tick (f [])
  | None => mret tt
  end.

(** ** The document-API connector (lines 1-447) *)

Module Ml.
Section Connector.

Variable idNames : string -> list string.
Variable regexp_ok : value -> value -> bool.
(** The runtime's [unescape], and whether [this.db] is set. *)
Variable unescape : value -> value.
Variable connected : bool.

Definition idValue (model : string) : value :=
  or_undefined (VStr <$> idName idNames model).

Definition buildWhere := buildWhere idNames regexp_ok "id".

(** A call on [this.db]. *)
Definition db_call (command : string) (args : list value) : M unit :=
  if connected then emit (Request command args) else raise TypeError.

(** The handler of [create] and of [save]. *)
Definition written (data : value) (callback : option callback) (response : value) : M unit :=
  docs ← get_prop response "documents";
  d ← get_prop docs "0";
  uri ← get_prop d "uri";
  put_prop data "id" uri;;
  id ← get_prop data "id";
  call callback [VNull; id].

Definition create (model : string) (data options : value)
    (callback : option callback) (reply : settled) : M unit :=
  colls ← alloc (OArr [VStr model]);
  doc ← alloc (plain [("extension", VStr "json");
                      ("directory", VStr (model ++ "/"));
                      ("content", data);
                      ("contentType", VStr "application/json");
                      ("collections", colls)]);
  db_call "documents.write" [doc];;
  then_ reply (written data callback).

Definition save (model : string) (data options : value)
    (callback : option callback) (reply : settled) : M unit :=
  id ← get_prop data "id";
  doc ← alloc (plain [("uri", id);
                      ("content", data);
                      ("contentType", VStr "application/json")]);
  db_call "documents.write" [doc];;
  then_ reply (written data callback).

Definition processResponse (callback : option callback) (cursor : value) : M unit :=
  results ← alloc (OArr []);
  entries ← array_elems cursor;
  for_each entries (fun entry =>
    content ← get_prop entry "content";
    uri ← get_prop entry "uri";
    put_prop content "id" uri;;
    content ← get_prop entry "content";
    push results content);;
  call callback [VNull; results].

Definition all (fuel : nat) (model : string) (filter options : value)
    (callback : option callback) (reply : settled) : M unit :=
  filter ← (if truthy filter then mret filter else alloc (plain []));
  let idName := key_of (idValue model) in
  query ← alloc (plain []);
  where_ ← get_prop filter "where";
  query ← (if truthy where_ then
             uri ← get_prop where_ idName;
             (if truthy uri then
                delete_prop where_ idName;;
                put_prop where_ "_uri" (unescape uri)
              else mret tt);;
             buildWhere fuel model where_
           else mret query);
  fields ← get_prop filter "fields";
  uri ← (if truthy where_ then get_prop where_ "_uri" else mret where_);
  if truthy uri then
    db_call "documents.read" [uri];;
    then_ reply (processResponse callback)
  else if truthy fields then
    db_call "queryCollection" [VStr model];;
    then_ reply (processResponse callback)
  else
    db_call "queryCollection" [VStr model; query];;
    then_ reply (processResponse callback).

(** [callback] is taken from [where] only when [where] is a function,
    which no value of the model is. *)
Definition destroyAll (fuel : nat) (model : string) (where_ options : value)
    (callback : option callback) (reply : settled) : M unit :=
  where_ ← buildWhere fuel model where_;
  id ← get_prop where_ "id";
  if truthy id then
    db_call "documents.remove" [unescape id];;
    then_ reply (fun response =>
      uris ← get_prop response "uris";
      n ← get_prop uris "length";
      r ← alloc (plain [("count", n)]);
      call_guarded callback [VNull; r])
  else mret tt.

Definition count (fuel : nat) (model : string) (filter options : value)
    (callback : option callback) (reply : settled) : M unit :=
  query ← buildWhere fuel model filter;
  id ← (if truthy filter then get_prop filter "id" else mret filter);
  if truthy id then
    db_call "documents.read" [unescape id];;
    then_ reply (fun response =>
      n ← get_prop response "length";
      call callback [VNull; n])
  else
    db_call "queryCollection" [VStr model; query];;
    then_ reply (fun response =>
      n ← get_prop response "length";
      call callback [VNull; n]).

Definition updateAttributes (model : string) (uri data options : value)
    (cb : option callback) (reply : settled) : M unit :=
  put_prop data "id" uri;;
  save model data options cb reply.

(** [reply] settles the read of [all], [reply'] the write of [save]. *)
Definition updateAll (fuel : nat) (model : string) (where_ data options : value)
    (cb : option callback) (reply reply' : settled) : M unit :=
  all fuel model where_ options
    (Some (fun args =>
       let response := nth 1 args VUndefined in
       first ← get_prop response "0";
       if truthy first then
         id ← get_prop first "id";
         put_prop data "id" id;;
         save model data options cb reply'
       else mret tt))
    reply.

End Connector.
End Ml.

(** ** The collection-command connector (lines 448-1329) *)

Module MlOrig.
Section Connector.

Variable idNames : string -> list string.
Variable regexp_ok : value -> value -> bool.
(** [this.settings.allowExtendedOperators]; the connector [this], the
    collection the client hands back when asked for one, and the value a
    property definition holds as its [type] when that is the runtime's
    [String]. *)
Variable allowExtendedOperators : value.
Variable self : value.
Variable handle : value.
Variable string_type : value.
(** The collaborators [all] hands its records to: the conversion of a
    stored record, a method the connector is expected to have and this file
    does not define, and the relation resolver. *)
Variable fromDatabase : string -> value -> M value.
Variable include : value -> value -> value -> option callback -> M unit.

Definition idValue (model : string) : value :=
  or_undefined (VStr <$> idName idNames model).

Definition buildWhere := buildWhere idNames regexp_ok "_uri".

(** The base connector's [getIdValue] and [setIdValue]. *)
Definition getIdValue (model : string) (data : value) : M value :=
  if truthy data then get_prop data (key_of (idValue model)) else mret data.

Definition setIdValue (model : string) (data v : value) : M unit :=
  if truthy data then put_prop data (key_of (idValue model)) v else mret tt.

(** Lines 574-600: the collection of the model is asked of the client
    (line 575), the command goes to that collection, and its outcome
    [(err, result)] comes back to [callback]. *)
Definition execute (model command : string) (params : list value)
    (callback : value -> value -> M unit) (reply : value * value) : M unit :=
  coll ← collection self model handle;
  invoke coll command params;;
  callback (fst reply) (snd reply).

Definition acceptedOperators : list string :=
  ["$currentDate"; "$inc"; "$max"; "$min"; "$mul"; "$rename";
   "$setOnInsert"; "$set"; "$unset";
   "$addToSet"; "$pop"; "$pullAll"; "$pull"; "$pushAll"; "$push";
   "$bit"].

Fixpoint scan_operators (ops : list string) (data parsedData : value)
    (usedOperators : nat) : M nat :=
  match ops with
  | [] => mret usedOperators
  | op :: rest =>
      v ← get_prop data op;
      if truthy v then
        v ← get_prop data op;
        put_prop parsedData op v;;
        scan_operators rest data parsedData (S usedOperators)
      else scan_operators rest data parsedData usedOperators
  end.

Definition parseUpdateData (model : string) (data : value) : M value :=
  parsedData ← alloc (plain []);
  (if strict_eq allowExtendedOperators (VBool true) then
     _ ← alloc (OArr (VStr <$> acceptedOperators));
     usedOperators ← scan_operators acceptedOperators data parsedData 0;
     if (usedOperators =? 0)%nat then put_prop parsedData "$set" data
     else mret tt
   else put_prop parsedData "$set" data);;
  mret parsedData.

Definition create (model : string) (data options : value)
    (callback : option callback) (reply : value * value) : M unit :=
  _ ← getIdValue model data;
  let idName := key_of (idValue model) in
  execute model "insert" [data] (fun err result =>
    if truthy err then call callback [err]
    else
      docs ← get_prop result "documents";
      d ← get_prop docs "0";
      uri ← get_prop d "uri";
      models ← get_prop self "_models";
      modelClass ← get_prop models model;
      properties ← get_prop modelClass "properties";
      property ← get_prop properties idName;
      idType ← get_prop property "type";
      idv ← (if strict_eq idType string_type then s ← to_string uri; mret (VStr s)
             else mret uri);
      put_prop data idName idv;;
      call callback [err; if truthy err then VNull else idv]) reply.

Definition save (model : string) (data options : value)
    (callback : option callback) (reply : value * value) : M unit :=
  idv ← getIdValue model data;
  let idName := key_of (idValue model) in
  execute model "save" [data] (fun err result =>
    (if truthy err then mret tt
     else
       setIdValue model data idv;;
       if (idName =? "_uri")%string then mret tt else delete_prop data "_uri");;
    info ← alloc (plain []);
    rr ← (if truthy result then get_prop result "result" else mret result);
    (if truthy rr then
       ok ← get_prop rr "ok";
       n ← get_prop rr "n";
       if strict_eq ok (VNum 1) && strict_eq n (VNum 1) then
         up ← get_prop rr "upserted";
         put_prop info "isNewInstance" (VBool (truthy up))
       else mret tt
     else mret tt);;
    ops ← (if truthy result then get_prop result "ops" else mret result);
    call_guarded callback [err; ops; info]) reply.

(** Lines 838-857; [idName] is turned into the property name it stands
    for. *)
Definition idIncluded (fields idName : value) : M bool :=
  if negb (truthy fields) then mret true
  else
    arr ← is_array fields;
    if arr : bool then
      es ← array_elems fields;
      mret (existsb (strict_eq idName) es)
    else
      name ← to_string idName;
      f ← get_prop fields name;
      if truthy f then mret true
      else
        ks ← (match fields with VRef _ => keys fields | _ => raise TypeError end);
        if existsb (String.eqb name) ks then mret false
        else
          match ks with
          | k :: _ => v ← get_prop fields k; mret (negb (truthy v))
          | [] => mret true
          end.

(** Lines 967-977: the key and the direction of one entry of the ordering. *)
Definition direction (model : string) (s : string) : string * Z :=
  let m := match_direction s in
  let key := trim (match m with Some (pre, _) => pre | None => s end) in
  let key := if is_id idNames model key then "_uri" else key in
  (key, match m with
        | Some (_, "DE") => (-1)%Z
        | _ => 1%Z
        end).

(** An entry that is not a string has no [match]. *)
Definition order_entry (model : string) (entry : value) : M (string * Z) :=
  match entry with
  | VStr s => mret (direction model s)
  | _ => raise TypeError
  end.

(** The elements [keys[0] .. keys[keys.length - 1]] of an ordering. *)
Definition order_keys (keys : value) : M (list value) :=
  match keys with
  | VRef l =>
      o ← deref l;
      match o with
      | OArr es => mret es
      | OObj _ ps => match lookup_prop "length" ps with
                     | None => mret []
                     | Some _ => abort
                     end
      | _ => mret []
      end
  | _ => mret []
  end.

(** Lines 954-982: the sort specification handed to the cursor. *)
Definition sort_order (model : string) (filter : value) : M value :=
  order ← alloc (plain []);
  o ← get_prop filter "order";
  (if truthy o then mret tt
   else
     let names := idNames model in
     ids ← alloc (OArr (VStr <$> names));
     if (0 <? length names)%nat then put_prop filter "order" ids else mret tt);;
  o ← get_prop filter "order";
  if truthy o then
    keys ← (match o with
            | VStr s => alloc (OArr (VStr <$> split_comma "" s))
            | _ => mret o
            end);
    es ← order_keys keys;
    for_each es (fun e =>
      '(key, dir) ← order_entry model e;
      put_prop order key (VNum dir));;
    mret order
  else alloc (plain [("_uri", VNum 1)]).

Definition all (fuel : nat) (model : string) (filter options : value)
    (callback : option callback) (reply reply' : value * value) : M unit :=
  filter ← (if truthy filter then mret filter else alloc (plain []));
  let idName := key_of (idValue model) in
  query ← alloc (plain []);
  where_ ← get_prop filter "where";
  query ← (if truthy where_ then
             uri ← get_prop where_ idName;
             (if truthy uri then
                delete_prop where_ idName;;
                put_prop where_ "_uri" uri
              else mret tt);;
             buildWhere fuel model where_
           else mret query);
  fields ← get_prop filter "fields";
  execute model "find" (if truthy fields then [query; fields] else [query])
    (fun err cursor =>
      if truthy err then call callback [err]
      else
        order ← sort_order model filter;
        invoke cursor "cursor.sort" [order];;
        limit ← get_prop filter "limit";
        (if truthy limit then invoke cursor "cursor.limit" [limit] else mret tt);;
        skip ← get_prop filter "skip";
        (if truthy skip then invoke cursor "cursor.skip" [skip]
         else
           offset ← get_prop filter "offset";
           if truthy offset then invoke cursor "cursor.skip" [offset] else mret tt);;
        invoke cursor "cursor.toArray" [];;
        let '(err, data) := reply' in
        if truthy err then call callback [err]
        else
          os ← array_elems data;
          objs ← map_m (fun o =>
            inc ← idIncluded fields (idValue model);
            (if inc : bool then
               u ← get_prop o "_uri";
               setIdValue model o u
             else mret tt);;
            (if truthy fields || negb (idName =? "_uri")%string
             then delete_prop o "_uri" else mret tt);;
            fromDatabase model o) os;
          objs ← alloc (OArr objs);
          inc ← get_prop filter "include";
          if truthy inc then include objs inc options callback
          else call callback [VNull; objs]) reply.

Definition destroyAll (fuel : nat) (model : string) (where_ options : value)
    (callback : option callback) (reply : value * value) : M unit :=
  where_ ← buildWhere fuel model where_;
  execute model "remove" [where_] (fun err info =>
    if truthy err then call_guarded callback [err]
    else
      r ← get_prop info "result";
      n ← (if truthy r then get_prop r "n" else mret VUndefined);
      c ← alloc (plain [("count", n)]);
      call_guarded callback [err; c]) reply.

Definition count (fuel : nat) (model : string) (where_ options : value)
    (callback : option callback) (reply : value * value) : M unit :=
  where_ ← buildWhere fuel model where_;
  execute model "count" [where_] (fun err n =>
    call_guarded callback [err; n]) reply.

(** ['No ' + model + ' found for uri ' + uri] *)
Definition not_found (model : string) (uri : value) : M value :=
  u ← to_string uri;
  mret (VStr ("No " ++ model ++ " found for uri " ++ u)).

Definition updateAttributes (model : string) (uri data options : value)
    (cb : option callback) (reply : value * value) : M unit :=
  data ← parseUpdateData model data;
  let idName := key_of (idValue model) in
  criteria ← alloc (plain [("_uri", uri)]);
  pair ← alloc (OArr [VStr "_uri"; VStr "asc"]);
  sort ← alloc (OArr [pair]);
  opts ← alloc (plain []);
  execute model "findAndModify" [criteria; sort; data; opts] (fun err result =>
    object ← (if truthy result then get_prop result "value" else mret result);
    err ← (if negb (truthy err) && negb (truthy object)
           then not_found model uri else mret err);
    setIdValue model object uri;;
    (if truthy object && negb (idName =? "_uri")%string
     then delete_prop object "_uri" else mret tt);;
    call_guarded cb [err; object]) reply.

Definition updateAll (fuel : nat) (model : string) (where_ data options : value)
    (cb : option callback) (reply : value * value) : M unit :=
  let idName := key_of (idValue model) in
  where_ ← buildWhere fuel model where_;
  delete_prop data idName;;
  data ← parseUpdateData model data;
  opts ← alloc (plain [("multi", VBool true); ("upsert", VBool false)]);
  execute model "update" [where_; data; opts] (fun err info =>
    if truthy err then call_guarded cb [err]
    else
      r ← get_prop info "result";
      n ← (if truthy r then get_prop r "n" else mret VUndefined);
      c ← alloc (plain [("count", n)]);
      call_guarded cb [err; c]) reply.

(** The names [updateOrCreate] binds, by its parameters and [var]s; the
    module binds none called [uri]. *)
Definition resolve (scope : list (string * value)) (x : string) : M value :=
  match lookup_prop x scope with
  | Some v => mret v
  | None => raise (ReferenceError x)
  end.

Definition updateOrCreate (model : string) (data options : value)
    (callback : option callback) (reply : value * value) : M unit :=
  id ← getIdValue model data;
  let idName := key_of (idValue model) in
  delete_prop data idName;;
  data' ← parseUpdateData model data;
  let scope := [("model", VStr model); ("data", data'); ("options", options);
                ("id", id); ("idName", idValue model)] in
  uri ← resolve scope "uri";
  criteria ← alloc (plain [("_uri", uri)]);
  pair ← alloc (OArr [VStr "_uri"; VStr "asc"]);
  sort ← alloc (OArr [pair]);
  opts ← alloc (plain [("upsert", VBool true); ("new", VBool true)]);
  execute model "findAndModify" [criteria; sort; data'; opts] (fun err result =>
    object ← (if truthy result then get_prop result "value" else mret result);
    err ← (if negb (truthy err) && negb (truthy object)
           then (uri ← resolve scope "uri"; not_found model uri) else mret err);
    (if truthy err then mret tt
     else
       uri ← resolve scope "uri";
       setIdValue model object uri;;
       if truthy object && negb (idName =? "_uri")%string
       then delete_prop object "_uri" else mret tt);;
    lastError ← (if truthy result then get_prop result "lastErrorObject" else mret result);
    info ← (if truthy lastError then
              ue ← get_prop lastError "updatedExisting";
              alloc (plain [("isNewInstance", VBool (negb (truthy ue)))])
            else mret VUndefined);
    call_guarded callback [err; object; info]) reply.

(** Lines 684-695. *)
Definition exists_ (model : string) (uri options : value)
    (callback : option callback) (reply : value * value) : M unit :=
  criteria ← alloc (plain [("_uri", uri)]);
  execute model "findOne" [criteria] (fun err data =>
    call callback [err; VBool (negb (truthy err) && truthy data)]) reply.

(** Lines 703-720. *)
Definition find (model : string) (uri options : value)
    (callback : option callback) (reply : value * value) : M unit :=
  let idName := key_of (idValue model) in
  criteria ← alloc (plain [("_uri", uri)]);
  execute model "findOne" [criteria] (fun err data =>
    data ← fromDatabase model data;
    (if truthy data && negb (idName =? "_uri")%string
     then delete_prop data "_uri" else mret tt);;
    call_guarded callback [err; data]) reply.

(** Lines 819-830. *)
Definition destroy (model : string) (uri options : value)
    (callback : option callback) (reply : value * value) : M unit :=
  criteria ← alloc (plain [("_uri", uri)]);
  execute model "remove" [criteria] (fun err result =>
    ops ← (if truthy result then get_prop result "ops" else mret result);
    call_guarded callback [err; ops]) reply.

(** [properties[p].index] *)
Definition property_index (properties : value) (p : string) : M value :=
  prop ← get_prop properties p;
  get_prop prop "index".

(** Lines 1184-1197: one entry of the model's [indexes] setting.  An array
    answers to [keys] with the method of its prototype, so a declaration
    that is an array counts as one that has keys. *)
Definition named_index (indexes indexList : value) (indexName : string) : M unit :=
  index ← get_prop indexes indexName;
  ks ← get_prop index "keys";
  arr ← is_array index;
  index ← (if truthy ks || arr then
             options ← or_m (get_prop index "options") (alloc (plain []));
             name ← or_m (get_prop options "name") (mret (VStr indexName));
             put_prop options "name" name;;
             put_prop index "options" options;;
             mret index
           else
             options ← alloc (plain [("name", VStr indexName)]);
             alloc (plain [("keys", index); ("options", options)]));
  push indexList index.

(** Lines 1205-1235: one property of the model. *)
Definition property_entry (properties indexList : value) (p : string) : M unit :=
  ix ← property_index properties p;
  if truthy ix then
    index ← alloc (plain []);
    put_prop index p (VNum 1);;
    ix ← property_index properties p;
    options ← (if (typeof ix =? "object")%string then
                 ix ← property_index properties p;
                 m ← get_prop ix "mongodb";
                 options ← (if (typeof m =? "object")%string then
                              ix ← property_index properties p;
                              options ← get_prop ix "mongodb";
                              kind ← or_m (get_prop options "kind") (mret (VNum 1));
                              put_prop index p kind;;
                              ix ← property_index properties p;
                              u ← get_prop ix "unique";
                              (if strict_eq u (VBool true)
                               then put_prop options "unique" (VBool true)
                               else mret tt);;
                              mret options
                            else property_index properties p);
                 b ← get_prop options "background";
                 (if strict_eq b VUndefined
                  then put_prop options "background" (VBool true)
                  else mret tt);;
                 mret options
               else
                 options ← alloc (plain [("background", VBool true)]);
                 prop ← get_prop properties p;
                 u ← get_prop prop "unique";
                 (if truthy u then put_prop options "unique" (VBool true) else mret tt);;
                 mret options);
    entry ← alloc (plain [("keys", index); ("options", options)]);
    push indexList entry
  else mret tt.

(** Lines 1177-1236: the indexes [autoupdate] asks the store to create for
    one model of the connector [self]. *)
Definition indexList (self : value) (model : string) : M value :=
  models ← get_prop self "_models";
  modelClass ← get_prop models model;
  settings ← get_prop modelClass "settings";
  indexes ← or_m (get_prop settings "indexes") (alloc (OArr []));
  indexList ← alloc (OArr []);
  _ ← alloc (plain []);
  _ ← alloc (plain []);
  indexList ← (if (typeof indexes =? "object")%string then
                 names ← enumerate indexes;
                 for_each names (named_index indexes indexList);;
                 mret indexList
               else
                 arr ← is_array indexes;
                 if arr : bool then
                   old ← array_elems indexList;
                   es ← array_elems indexes;
                   alloc (OArr (old ++ es))
                 else mret indexList);
  models ← get_prop self "_models";
  modelClass ← get_prop models model;
  properties ← get_prop modelClass "properties";
  ps ← enumerate properties;
  for_each ps (property_entry properties indexList);;
  mret indexList.

End Connector.
End MlOrig.

(** ** The vocabulary of the properties *)

(** A key that names a field: no combinator, and not the accessor. *)
Definition field_name (k : string) : bool :=
  negb (is_combinator k) && negb (k =? "__proto__")%string.

(** A computation that only reads. *)
Definition readonly {A} (m : M A) : Prop := forall w, (m w).2 = w.

(** What [w'] keeps of [w]: the events, and every object, new ones coming
    after them. *)
Definition grows (w w' : world) : Prop :=
  events w' = events w /\
  length (heap w) <= length (heap w') /\
  forall l, l < length (heap w) -> heap w' !! l = heap w !! l.

(** While a query is under construction at [lq]: the objects below [n] are
    kept, except the query, of which only the properties in [K] may
    change. *)
Definition inv (n lq : nat) (w : world) : Prop :=
  n <= length (heap w) /\ lq < length (heap w).

Definition rel (n lq : nat) (K : string -> Prop) (w w' : world) : Prop :=
  events w' = events w /\
  length (heap w) <= length (heap w') /\
  (forall l, l < n -> l <> lq -> heap w' !! l = heap w !! l) /\
  (forall c ps, heap w !! lq = Some (OObj c ps) ->
     exists ps', heap w' !! lq = Some (OObj c ps') /\
       forall k, ~ K k -> lookup_prop k ps' = lookup_prop k ps).

Definition ok {A} (n lq : nat) (K : string -> Prop) (m : M A) : Prop :=
  forall w, inv n lq w -> rel n lq K w (m w).2.

(** The operators of [ops] that [o] answers with a truthy value. *)
Definition forwarded (o : object) (ops : list string) : list (string * value) :=
  filter (fun p => truthy p.2 = true) (map (fun op => (op, own_prop o op)) ops).

(** Strings free of white space, and strings of white space only. *)
Fixpoint no_ws (s : string) : bool :=
  match s with
  | EmptyString => true
  | String c r => negb (is_ws c) && no_ws r
  end.

Fixpoint all_ws (s : string) : bool :=
  match s with
  | EmptyString => true
  | String c r => is_ws c && all_ws r
  end.

(** The sort specification an ordering list builds, entry after entry. *)
Definition order_props (idNames : string -> list string) (model : string)
    (ss : list string) (acc : list (string * value)) : list (string * value) :=
  fold_left (fun acc s =>
    set_own (MlOrig.direction idNames model s).1
            (VNum (MlOrig.direction idNames model s).2) acc) ss acc.

(** No entry of the ordering is keyed by the accessor. *)
Definition ordinary_keys (idNames : string -> list string) (model : string)
    (ss : list string) : bool :=
  forallb (fun s => negb ((MlOrig.direction idNames model s).1 =? "__proto__")%string) ss.

(** How many times the completion callback was invoked. *)
Fixpoint completions (es : list event) : nat :=
  match es with
  | [] => 0
  | Complete _ :: es' => S (completions es')
  | Request _ _ :: es' => completions es'
  end.

(** The connector [self] keeps a client and gives [name] as the collection
    of [model]: asked for the collection, it asks the client for [name] and
    hands back what the client answers. *)
Definition serves (h : list object) (self : value) (model : string) (name : value) : Prop :=
  forall handle ev,
    collection self model handle (World h ev) =
      (Ret handle, World h (ev ++ [Request "queryCollection" [name]])).

(** A computation whose answer stays when the heap grows. *)
Definition stable {A} (m : M A) : Prop :=
  forall h ev x, m (World h ev) = (Ret x, World h ev) ->
    forall t ev', m (World (h ++ t) ev') = (Ret x, World (h ++ t) ev').

(** The names an object answers to through [Object.prototype]: what a read
    finds there is a method (or the prototype), no data of the model. *)
Definition object_member (k : string) : bool :=
  existsb (String.eqb k)
    ["constructor"; "hasOwnProperty"; "isPrototypeOf"; "propertyIsEnumerable";
     "toLocaleString"; "toString"; "valueOf"; "__proto__";
     "__defineGetter__"; "__defineSetter__"; "__lookupGetter__"; "__lookupSetter__"].

(** Whether an ordinary object may answer to [k] through its prototype
    alone: never where it has an own property [k] or no prototype; a literal
    does for the members of [Object.prototype]; of an instance of another
    constructor the prototype is not known. *)
Definition inherited (ctor : option string) (ps : list (string * value)) (k : string) : bool :=
  match lookup_prop k ps with
  | Some _ => false
  | None =>
      match ctor with
      | None => false
      | Some c => negb (c =? "Object")%string || object_member k
      end
  end.

(** A condition that is compared as it stands: a primitive other than
    [null]. *)
Definition primitive (v : value) : bool :=
  match v with
  | VUndefined | VBool _ | VNum _ | VStr _ => true
  | VNull | VRef _ => false
  end.

(** The query a filter of such conditions is translated to, key after key. *)
Definition flat_query (idNames : string -> list string) (locator model : string)
    (ps : list (string * value)) (ks : list string) (acc : list (string * value)) :=
  fold_left (fun acc k =>
    set_own (rewrite_key idNames locator model k) (or_undefined (lookup_prop k ps)) acc)
    ks acc.

(** The name a clause operator is sent under. *)
Definition operator (spec : string) : string :=
  if (spec =? "neq")%string then "$ne" else "$" ++ spec.

(** The operators with a translation of their own. *)
Definition special (spec : string) : bool :=
  (spec =? "between")%string || (spec =? "inq")%string ||
  (spec =? "like")%string || (spec =? "nlike")%string.

(** [a || b] on values. *)
Definition or_else (a b : value) : value := if truthy a then a else b.

(** The options as [generateConnectionObject] leaves them. *)
Definition connection_options (ps : list (string * value)) : list (string * value) :=
  let get k := or_undefined (lookup_prop k ps) in
  set_own "authType" (or_else (get "authType") (VStr "DIGEST"))
    (set_own "database" (or_else (get "database") (or_else (get "db") (VStr "documents")))
       (set_own "port" (or_else (get "port") (VNum 8000))
          (set_own "hostname"
             (or_else (get "hostname") (or_else (get "host") (VStr "127.0.0.1"))) ps))).

(** The connection object it returns. *)
Definition connection_object (ps : list (string * value)) : object :=
  let get k := or_undefined (lookup_prop k ps) in
  plain [("host", or_else (get "hostname") (or_else (get "host") (VStr "127.0.0.1")));
         ("port", or_else (get "port") (VNum 8000));
         ("user", get "username");
         ("password", get "password");
         ("authType", or_else (get "authType") (VStr "DIGEST"))].

(** A document of a response: where its entry lies, the locator the entry
    carries, and where its content lies. *)
Record document := Document { entry : nat; uri : value; content : nat }.

Definition document_at (h : list object) (d : document) : Prop :=
  (exists c ps, h !! entry d = Some (OObj c ps) /\
     or_undefined (lookup_prop "uri" ps) = uri d /\
     lookup_prop "content" ps = Some (VRef (content d))) /\
  (exists c ps, h !! content d = Some (OObj c ps)).

Definition documents (h : list object) (docs : list document) : Prop :=
  Forall (document_at h) docs.

(** The heap once every content carries the locator of its entry as [id]. *)
Definition identify (d : document) (h : list object) : list object :=
  match h !! content d with
  | Some (OObj c ps) => <[content d := OObj c (set_own "id" (uri d) ps)]> h
  | _ => h
  end.

Definition identified (docs : list document) (h : list object) : list object :=
  fold_left (fun h d => identify d h) docs h.

(** Whether a field selection given as a mapping keeps the identity: by its
    own entry when it has one, and otherwise by its first entry, a selection
    that starts with an exclusion keeping it. *)
Definition id_included (idName : string) (ps : list (string * value)) : bool :=
  match lookup_prop idName ps with
  | Some v => truthy v
  | None =>
      match ps with
      | [] => true
      | (_, v) :: _ => negb (truthy v)
      end
  end.



(** A conversion that hands a stored record back as it is, and what calling
    a method that is not defined does. *)
Definition as_stored : string -> value -> M value := fun _ v => mret v.
Definition not_defined : string -> value -> M value := fun _ _ => raise TypeError.

(** A stored record as a read hands it back: the locator under the
    identity name, and no [_uri] unless that is the identity name. *)
Definition restored_record (idName : string) (ps : list (string * value)) :=
  let ps' := set_own idName (or_undefined (lookup_prop "_uri" ps)) ps in
  if (idName =? "_uri")%string then ps' else delete_own "_uri" ps'.

Definition restore (idName : string) (l : nat) (h : list object) : list object :=
  match h !! l with
  | Some (OObj c ps) => <[l := OObj c (restored_record idName ps)]> h
  | _ => h
  end.

(** The record [updateAttributes] hands back: the locator it was asked for
    under the identity name, and no [_uri] unless that is the identity
    name. *)
Definition located_record (idName : string) (uri : value) (ps : list (string * value)) :=
  let ps' := set_own idName uri ps in
  if (idName =? "_uri")%string then ps' else delete_own "_uri" ps'.

(** ** Sample worlds *)

Definition ids : string -> list string := fun _ => ["id"].
Definition any_regexp : value -> value -> bool := fun _ _ => true.
Definition same : value -> value := fun v => v.

Definition filter_age : list object :=
  [plain [("age", VRef 1)]; plain [("between", VRef 2)]; OArr [VNum 18; VNum 30]].

Definition filter_id : list object :=
  [plain [("id", VRef 1)]; plain [("between", VRef 2)]; OArr [VStr "a"; VStr "m"]].

Definition filter_values : list object :=
  [plain [("tags", VRef 4)]; plain [("since", VRef 5)]; plain [("name", VRef 6)];
   plain [("owner", VNull)];
   OArr [VStr "a"; VStr "b"]; ODate 0; ORegExp (VStr "^a") VUndefined].

Definition filter_unnamed : list object :=
  [plain [("name", VRef 1)]; plain [("constructor", VNull)];
   plain [("owner", VRef 3)]; OObj None [("name", VStr "a")]].

Definition payload_ops : list object :=
  [plain [("name", VStr "b"); ("$set", VRef 1); ("$inc", VRef 2); ("$bit", VNull)];
   plain [("name", VStr "c")]; plain [("n", VNum 1)]].

Definition filter_order_list : list object :=
  [plain [("order", VRef 1)]; OArr [VStr "name DESC"; VStr "age"; VStr "id ASC"]].

Definition widget_created : list object :=
  [plain [("name", VStr "a")];
   plain [("documents", VRef 2)]; OArr [VRef 3]; plain [("uri", VStr "Widget/ab12.json")]].

Definition nobody : list object :=
  [plain [("name", VStr "nobody")]; plain [("name", VStr "b")]; OArr []].

Definition somebody : list object :=
  [plain [("name", VStr "nobody")]; plain [("name", VStr "b")];
   OArr [VRef 3]; plain [("uri", VStr "Widget/1.json"); ("content", VRef 4)];
   plain [("name", VStr "a")];
   plain [("documents", VRef 6)]; OArr [VRef 7]; plain [("uri", VStr "Widget/1.json")]].

Definition nobody_updated : list object :=
  [plain [("name", VStr "nobody")]; plain [("name", VStr "b")];
   plain [("result", VRef 3)]; plain [("ok", VNum 1); ("n", VNum 0)]].

Definition absent : list object :=
  [plain [("name", VStr "b")];
   plain [("documents", VRef 2)]; OArr [VRef 3]; plain [("uri", VStr "Widget/x.json")]].

Definition absent_modify : list object :=
  [plain [("name", VStr "b")]; plain [("value", VNull)]].

Definition widget_record : list object :=
  [plain [("id", VStr "Widget/1.json"); ("name", VStr "a")];
   plain [("value", VRef 2); ("lastErrorObject", VRef 3)];
   plain [("_uri", VStr "Widget/1.json"); ("name", VStr "a")];
   plain [("updatedExisting", VBool true)]].

(** A connector that keeps a client and knows the model [Widget], whose
    identity [id] is declared a string; it lies from location [n] on, the
    collection the client hands back last. *)
Definition widget_connector (n : nat) : list object :=
  [OObj (Some "MarkLogic") [("db", VRef (n + 6)); ("_models", VRef (n + 1))];
   plain [("Widget", VRef (n + 2))];
   plain [("settings", VRef (n + 3)); ("properties", VRef (n + 4))];
   plain [];
   plain [("id", VRef (n + 5))];
   plain [("type", VStr "String")];
   OObj (Some "DatabaseClient") [];
   OObj (Some "Collection") []].

Definition filter_tags : list object :=
  [plain [("tags", VRef 1)]; plain [("inq", VRef 2)]; OArr [VStr "a"; VStr "b"]].

Definition filter_flat : list object :=
  [plain [("id", VStr "Widget/1.json"); ("name", VStr "a"); ("age", VNum 3)]].

Definition filter_name_like : list object :=
  [plain [("name", VRef 1)]; plain [("like", VStr "^a"); ("options", VStr "i")]].

Definition filter_age_gt : list object :=
  [plain [("age", VRef 1)]; plain [("gt", VNum 18); ("lt", VNum 30)]].

Definition filter_or : list object :=
  [plain [("or", VRef 1)]; OArr [VRef 2; VRef 3];
   plain [("name", VStr "a")]; plain [("age", VNum 3)]].

Definition settings_user : list object :=
  [plain [("host", VStr "db.example.org"); ("user", VStr "admin");
          ("password", VStr "secret"); ("db", VStr "widgets")]].

Definition connector_new : list object :=
  [OObj (Some "MarkLogic") [("settings", VRef 1); ("_models", VRef 3)];
   plain [("connInfo", VRef 2)];
   plain [("host", VStr "127.0.0.1"); ("port", VNum 8000)];
   plain [("Widget", VRef 4); ("Gadget", VRef 6)];
   plain [("settings", VRef 5)];
   plain [("ml", VRef 8)];
   plain [("settings", VRef 7)];
   plain [];
   plain [("collection", VStr "widgets")];
   OObj (Some "DatabaseClient") []].

Definition response_two : list object :=
  [OArr [VRef 1; VRef 3];
   plain [("uri", VStr "Widget/1.json"); ("content", VRef 2)];
   plain [("name", VStr "a")];
   plain [("uri", VStr "Widget/2.json"); ("content", VRef 4)];
   plain [("name", VStr "b"); ("id", VStr "stale")]].

(** The same connector once it keeps the client. *)
Definition connector_open : list object :=
  <[0 := OObj (Some "MarkLogic") [("settings", VRef 1); ("_models", VRef 3); ("db", VRef 9)]]>
    connector_new.

(** A filter that names a locator, and what the store answers to its
    removal. *)
Definition filter_removed : list object :=
  [plain [("id", VStr "Widget%2F1.json")]; plain [("uris", VRef 2)];
   OArr [VStr "Widget/1.json"]].

Definition filter_by_id : list object :=
  [plain [("where", VRef 1)]; plain [("id", VStr "Widget%2F1.json"); ("name", VStr "a")]].

Definition filter_by_name : list object :=
  [plain [("where", VRef 1); ("fields", VRef 2)]; plain [("name", VStr "a")];
   plain [("name", VBool true)]; OArr []].

Definition filter_located : list object :=
  [plain [("id", VStr "Widget%2F1.json")]; OArr [VRef 2]; plain [("name", VStr "a")]].

Definition widget_saved : list object :=
  [plain [("id", VStr "Widget/1.json"); ("name", VStr "b")];
   plain [("documents", VRef 2)]; OArr [VRef 3]; plain [("uri", VStr "Widget/1.json")]].



Definition widget_removed : list object :=
  [plain [("ops", VRef 1)]; OArr []].

Definition widget_found : list object :=
  [plain [("_uri", VStr "Widget/1.json"); ("name", VStr "a")]].

Definition fields_selected : list object :=
  [plain [("name", VBool true)]; plain [("name", VBool false)];
   plain [("name", VBool true); ("id", VBool true)]; OArr [VStr "name"; VStr "id"]].

Definition widgets_stored : list object :=
  [OArr [VRef 1; VRef 2];
   plain [("_uri", VStr "Widget/1.json"); ("name", VStr "a")];
   plain [("_uri", VStr "Widget/2.json"); ("name", VStr "b")]].

Definition filter_paged : list object :=
  [plain [("order", VRef 1); ("limit", VNum 10); ("skip", VNum 20); ("offset", VNum 5)];
   OArr [VStr "name DESC"]].

Definition widgets_updated : list object :=
  [plain [("name", VStr "a")]; plain [("id", VStr "Widget/9.json"); ("color", VStr "red")];
   plain [("result", VRef 3)]; plain [("ok", VNum 1); ("n", VNum 2)]].

Definition widget_modified : list object :=
  [plain [("color", VStr "red")]; plain [("value", VRef 2)];
   plain [("_uri", VStr "Widget/1.json"); ("name", VStr "a"); ("color", VStr "red")]].

Definition connector_indexed : list object :=
  [OObj (Some "MarkLogic") [("_models", VRef 1)];
   plain [("Widget", VRef 2)];
   plain [("settings", VRef 3)];
   plain [("indexes", VRef 4)];
   plain [("by_name", VRef 5)];
   plain [("name", VNum 1)];
   plain []].

Definition connector_keyed : list object :=
  [OObj (Some "MarkLogic") [("_models", VRef 1)];
   plain [("Widget", VRef 2)];
   plain [("settings", VRef 3)];
   plain [("indexes", VRef 4)];
   plain [("by_name", VRef 5)];
   plain [("keys", VRef 6)];
   plain [("name", VNum 1)];
   plain []].

Definition connector_property : list object :=
  [OObj (Some "MarkLogic") [("_models", VRef 1)];
   plain [("Widget", VRef 2)];
   plain [("settings", VRef 3); ("properties", VRef 4)];
   plain [];
   plain [("email", VRef 5)];
   plain [("type", VStr "string"); ("index", VRef 6)];
   plain [("unique", VBool true)]].

(** * Properties *)

(** ** Running computations *)

Lemma run_bind {A B} (m : M A) (f : A -> M B) (w : world) :
  (m ≫= f) w = match m w with
               | (Ret a, w') => f a w'
               | (Raise e, w') => (Raise e, w')
               | (Abort, w') => (Abort, w')
               end.
Proof. reflexivity. Qed.

Lemma run_ret {A} (a : A) (w : world) : (mret a : M A) w = (Ret a, w).
Proof. reflexivity. Qed.

Lemma run_alloc (o : object) (w : world) :
  alloc o w = (Ret (VRef (length (heap w))), World (heap w ++ [o]) (events w)).
Proof. reflexivity. Qed.

Lemma run_deref (l : loc) (o : object) (w : world) :
  heap w !! l = Some o -> deref l w = (Ret o, w).
Proof. intros H. unfold deref. now rewrite H. Qed.

Lemma lookup_grown (h t : list object) (l : loc) (o : object) :
  h !! l = Some o -> (h ++ t) !! l = Some o.
Proof. intros H. rewrite lookup_app_l; [done | by eapply lookup_lt_Some]. Qed.

Lemma lookup_fresh (h : list object) (o : object) (t : list object) :
  (h ++ o :: t) !! length h = Some o.
Proof. by rewrite list_lookup_middle. Qed.

Lemma lookup_fresh_next (h : list object) (o o' : object) (t : list object) :
  (h ++ o :: o' :: t) !! S (length h) = Some o'.
Proof.
  change (o :: o' :: t) with ([o] ++ o' :: t). rewrite app_assoc.
  replace (S (length h)) with (length (h ++ [o])) by (rewrite length_app; simpl; lia).
  apply lookup_fresh.
Qed.

Lemma insert_fresh (h : list object) (o o' : object) (t : list object) :
  <[length h := o']> (h ++ o :: t) = h ++ o' :: t.
Proof. by rewrite insert_app_r_alt, Nat.sub_diag by lia. Qed.

Lemma insert_fresh_next (h : list object) (o o' o'' : object) (t : list object) :
  <[S (length h) := o'']> (h ++ o :: o' :: t) = h ++ o :: o'' :: t.
Proof.
  change (h ++ o :: o' :: t) with (h ++ [o] ++ o' :: t).
  change (h ++ o :: o'' :: t) with (h ++ [o] ++ o'' :: t).
  rewrite !app_assoc.
  replace (S (length h)) with (length (h ++ [o])) by (rewrite length_app; simpl; lia).
  apply insert_fresh.
Qed.

Lemma set_own_empty (k : string) (v : value) : set_own k v [] = [(k, v)].
Proof. unfold set_own. simpl. by destruct (array_index k). Qed.

Lemma run_raise {A} (e : error) (w : world) : (raise e : M A) w = (Raise e, w).
Proof. reflexivity. Qed.

Lemma run_emit (e : event) (w : world) :
  emit e w = (Ret tt, World (heap w) (events w ++ [e])).
Proof. reflexivity. Qed.

Lemma run_get_ref l o k w :
  heap w !! l = Some o -> get_prop (VRef l) k w = (Ret (own_prop o k), w).
Proof. intros H. unfold get_prop. now rewrite run_bind, (run_deref _ _ _ H). Qed.

Lemma run_keys_ref l o w :
  heap w !! l = Some o -> keys (VRef l) w = (Ret (own_keys o), w).
Proof. intros H. unfold keys. now rewrite run_bind, (run_deref _ _ _ H). Qed.

Lemma run_put_ref l c ps k x w :
  heap w !! l = Some (OObj c ps) ->
  put_prop (VRef l) k x w =
    if accessor k ps then (Abort, w)
    else (Ret tt, World (<[l := OObj c (set_own k x ps)]> (heap w)) (events w)).
Proof.
  intros H. unfold put_prop. rewrite run_bind, (run_deref _ _ _ H).
  now destruct (accessor k ps).
Qed.

Lemma accessor_ordinary k ps : (k =? "__proto__")%string = false -> accessor k ps = false.
Proof. intros H. unfold accessor. now destruct (lookup_prop k ps). Qed.

Lemma field_name_ordinary k : field_name k = true -> (k =? "__proto__")%string = false.
Proof.
  unfold field_name. intros H. apply andb_prop in H as [_ H].
  now apply negb_true_iff in H.
Qed.

Lemma field_name_combinator k : field_name k = true -> is_combinator k = false.
Proof.
  unfold field_name. intros H. apply andb_prop in H as [H _].
  now apply negb_true_iff in H.
Qed.

Lemma run_delete_ref l c ps k w :
  heap w !! l = Some (OObj c ps) ->
  delete_prop (VRef l) k w =
    (Ret tt, World (<[l := OObj c (delete_own k ps)]> (heap w)) (events w)).
Proof. intros H. unfold delete_prop. now rewrite run_bind, (run_deref _ _ _ H). Qed.

Lemma run_is_array l o w :
  heap w !! l = Some o ->
  is_array (VRef l) w = (Ret (match o with OArr _ => true | _ => false end), w).
Proof. intros H. unfold is_array. now rewrite run_bind, (run_deref _ _ _ H). Qed.

Lemma run_array_elems l es w :
  heap w !! l = Some (OArr es) -> array_elems (VRef l) w = (Ret es, w).
Proof. intros H. unfold array_elems. now rewrite run_bind, (run_deref _ _ _ H). Qed.

Lemma run_push l es x w :
  heap w !! l = Some (OArr es) ->
  push (VRef l) x w = (Ret tt, World (<[l := OArr (es ++ [x])]> (heap w)) (events w)).
Proof. intros H. unfold push. now rewrite run_bind, (run_deref _ _ _ H). Qed.

Lemma run_constructor_plain l ctor ps w :
  heap w !! l = Some (OObj (Some ctor) ps) ->
  lookup_prop "constructor" ps = None ->
  constructor_name (VRef l) w = (Ret (VStr ctor), w).
Proof.
  intros H E. unfold constructor_name. rewrite run_bind, (run_deref _ _ _ H).
  now rewrite E.
Qed.

Lemma buildWhere_S idNames regexp_ok locator fuel model where_ :
  buildWhere idNames regexp_ok locator (S fuel) model where_ =
    (query ← alloc (plain []);
     if strict_eq where_ VNull || negb (typeof where_ =? "object")%string
     then mret query
     else
       ks ← keys where_;
       for_each ks
         (translate_entry idNames regexp_ok locator
            (buildWhere idNames regexp_ok locator fuel model) model where_ query);;
       mret query).
Proof. reflexivity. Qed.

Arguments buildWhere : simpl never.
Arguments translate_field : simpl never.
Arguments translate_entry : simpl never.
Arguments clause : simpl never.
Arguments mbind : simpl never.
Arguments mret : simpl never.
Arguments get_prop : simpl never.
Arguments put_prop : simpl never.
Arguments delete_prop : simpl never.
Arguments keys : simpl never.
Arguments is_array : simpl never.
Arguments array_elems : simpl never.
Arguments constructor_name : simpl never.
Arguments alloc : simpl never.
Arguments emit : simpl never.
Arguments push : simpl never.
Arguments rewrite_key : simpl never.
Arguments is_combinator : simpl never.
Arguments array_index : simpl never.
Arguments set_own : simpl never.
Arguments accessor : simpl never.

(** Symbolic execution over a heap of which some objects are known. *)
Ltac heap_lookup :=
  simpl;
  repeat match goal with
  | |- context [(?h ++ ?t) ++ ?u] => rewrite <- (app_assoc h t u); simpl
  end;
  first [ eassumption
        | apply lookup_fresh
        | apply lookup_fresh_next
        | apply lookup_grown; eassumption ].

Ltac hnorm :=
  repeat first
  [ rewrite <- app_assoc
  | rewrite length_app, Nat.add_1_r
  | rewrite insert_fresh
  | rewrite insert_fresh_next
  | rewrite set_own_empty ];
  simpl.

Ltac accessor_step :=
  match goal with
  | H : (?k =? "__proto__")%string = false |- context [accessor ?k ?ps] =>
      rewrite (accessor_ordinary k ps H)
  | |- context [accessor ?k ?ps] =>
      rewrite (accessor_ordinary k ps eq_refl)
  end.

Ltac mstep :=
  first
  [ rewrite run_bind
  | accessor_step
  | rewrite run_ret
  | rewrite run_alloc
  | rewrite run_raise
  | rewrite run_emit
  | progress hnorm
  | erewrite run_get_ref by heap_lookup
  | erewrite run_keys_ref by heap_lookup
  | erewrite run_put_ref by heap_lookup
  | erewrite run_delete_ref by heap_lookup
  | erewrite run_is_array by heap_lookup
  | erewrite run_array_elems by heap_lookup
  | erewrite run_push by heap_lookup
  | erewrite run_constructor_plain by (heap_lookup || reflexivity) ];
  simpl.

(** ** The filter translator *)

Lemma run_buildWhere_empty idNames regexp_ok locator fuel model where_ w :
  strict_eq where_ VNull || negb (typeof where_ =? "object")%string = true ->
  buildWhere idNames regexp_ok locator (S fuel) model where_ w =
    (Ret (VRef (length (heap w))), World (heap w ++ [plain []]) (events w)).
Proof. intros H. rewrite buildWhere_S, run_bind, run_alloc. now rewrite H. Qed.

Lemma not_mapping_test where_ :
  where_ = VNull \/ typeof where_ <> "object" ->
  strict_eq where_ VNull || negb (typeof where_ =? "object")%string = true.
Proof.
  intros H. destruct where_; try reflexivity.
  destruct H as [H | H]; [discriminate | now elim H].
Qed.

(** C9: a [where] that is [null] or not an object makes [buildWhere] return
    a fresh empty query, without raising. *)
Theorem buildWhere_not_mapping idNames regexp_ok locator fuel model where_ w :
  where_ = VNull \/ typeof where_ <> "object" ->
  buildWhere idNames regexp_ok locator (S fuel) model where_ w =
    (Ret (VRef (length (heap w))), World (heap w ++ [plain []]) (events w)).
Proof. intros H. now apply run_buildWhere_empty, not_mapping_test. Qed.

Lemma buildWhere_not_mapping_witness :
  (VStr "name = 'a'" = VNull \/ typeof (VStr "name = 'a'") <> "object") /\
  Ml.buildWhere (fun _ => ["id"]) (fun _ _ => true) 1 "Widget" (VStr "name = 'a'")
    (World [] []) = (Ret (VRef 0), World [plain []] []) /\
  MlOrig.buildWhere (fun _ => ["id"]) (fun _ _ => true) 1 "Widget" VNull
    (World [] []) = (Ret (VRef 0), World [plain []] []).
Proof.
  split; [right; discriminate |].
  split.
  - apply (buildWhere_not_mapping (fun _ => ["id"]) (fun _ _ => true) "id" 0 "Widget" (VStr "name = 'a'") (World [] [])).
    right; discriminate.
  - apply (buildWhere_not_mapping (fun _ => ["id"]) (fun _ _ => true) "_uri" 0 "Widget" VNull (World [] [])).
    now left.
Defined.

(** C3: a filter entry [k: {between: [lo, hi]}] on a field [k] becomes the
    query entry [k': {$gte: lo, $lte: hi}], where [k'] is the locator field
    when [k] is the identity field and [k] otherwise. *)
Theorem buildWhere_between idNames regexp_ok locator fuel model k lo hi c lw lc la w :
  heap w !! lw = Some (OObj c [(k, VRef lc)]) ->
  heap w !! lc = Some (plain [("between", VRef la)]) ->
  heap w !! la = Some (OArr [lo; hi]) ->
  field_name (rewrite_key idNames locator model k) = true ->
  buildWhere idNames regexp_ok locator (S fuel) model (VRef lw) w =
    (Ret (VRef (length (heap w))),
     World (heap w ++
            [plain [(rewrite_key idNames locator model k, VRef (S (length (heap w))))];
             plain [("$gte", lo); ("$lte", hi)]])
           (events w)).
Proof.
  intros Hw Hc Ha Hf. pose proof (field_name_combinator _ Hf) as Hk.
  pose proof (field_name_ordinary _ Hf) as Hp.
  destruct w as [h ev]. simpl in Hw, Hc, Ha. simpl heap. simpl events.
  rewrite buildWhere_S. repeat mstep. unfold translate_entry. repeat mstep.
  rewrite String.eqb_refl. simpl. rewrite Hk.
  unfold translate_field, clause. simpl. repeat mstep. reflexivity.
Qed.

Lemma buildWhere_between_witness :
  Ml.buildWhere (fun _ => ["id"]) (fun _ _ => true) 1 "Widget" (VRef 0)
    (World filter_age []) =
    (Ret (VRef 3),
     World (filter_age ++ [plain [("age", VRef 4)];
                           plain [("$gte", VNum 18); ("$lte", VNum 30)]]) []) /\
  MlOrig.buildWhere (fun _ => ["id"]) (fun _ _ => true) 1 "Widget" (VRef 0)
    (World filter_id []) =
    (Ret (VRef 3),
     World (filter_id ++ [plain [("_uri", VRef 4)];
                          plain [("$gte", VStr "a"); ("$lte", VStr "m")]]) []).
Proof.
  split.
  - apply (buildWhere_between (fun _ => ["id"]) (fun _ _ => true) "id" 0 "Widget"
             "age" (VNum 18) (VNum 30) (Some "Object") 0 1 2 (World filter_age []));
      reflexivity.
  - apply (buildWhere_between (fun _ => ["id"]) (fun _ _ => true) "_uri" 0 "Widget"
             "id" (VStr "a") (VStr "m") (Some "Object") 0 1 2 (World filter_id []));
      reflexivity.
Defined.

(** ** Computations that only read *)

Lemma readonly_ret {A} (a : A) : readonly (mret a : M A).
Proof. now intros w. Qed.

Lemma readonly_raise {A} (e : error) : readonly (raise e : M A).
Proof. now intros w. Qed.

Lemma readonly_abort {A} : readonly (abort : M A).
Proof. now intros w. Qed.

Lemma readonly_bind {A B} (m : M A) (f : A -> M B) :
  readonly m -> (forall a, readonly (f a)) -> readonly (m ≫= f).
Proof.
  intros Hm Hf w. rewrite run_bind. specialize (Hm w).
  destruct (m w) as [[a | e |] w1]; simpl in Hm; subst; try reflexivity.
  apply Hf.
Qed.

Lemma readonly_deref l : readonly (deref l).
Proof. intros w. unfold deref. now destruct (heap w !! l). Qed.

Lemma readonly_get_prop v k : readonly (get_prop v k).
Proof.
  destruct v; simpl; unfold get_prop;
    auto using readonly_ret, readonly_raise, readonly_bind, readonly_deref.
Qed.

Lemma readonly_keys v : readonly (keys v).
Proof.
  destruct v; unfold keys;
    auto using readonly_ret, readonly_raise, readonly_bind, readonly_deref.
Qed.

Lemma readonly_is_array v : readonly (is_array v).
Proof.
  destruct v; unfold is_array;
    auto using readonly_ret, readonly_raise, readonly_bind, readonly_deref.
Qed.

Lemma readonly_array_elems v : readonly (array_elems v).
Proof.
  destruct v; unfold array_elems; auto using readonly_raise.
  apply readonly_bind; [apply readonly_deref |].
  intros []; auto using readonly_ret, readonly_raise.
Qed.

Lemma readonly_constructor_name v : readonly (constructor_name v).
Proof.
  destruct v; unfold constructor_name; auto using readonly_ret, readonly_raise.
  apply readonly_bind; [apply readonly_deref |].
  intros [ctor ps | | |]; auto using readonly_ret.
  destruct (lookup_prop "constructor" ps); [apply readonly_get_prop |].
  destruct ctor; auto using readonly_ret, readonly_raise.
Qed.

Lemma readonly_clause cond : readonly (clause cond).
Proof.
  unfold clause. destruct (truthy cond); [| apply readonly_ret].
  apply readonly_bind; [apply readonly_constructor_name |].
  intros n. destruct (strict_eq n (VStr "Object")); [| apply readonly_ret].
  apply readonly_bind; [apply readonly_get_prop |]. intros options.
  apply readonly_bind; [apply readonly_keys |]. intros ks.
  apply readonly_bind; [apply readonly_get_prop |]. intros c.
  apply readonly_ret.
Qed.

Lemma strict_eq_true a b : strict_eq a b = true <-> a = b.
Proof.
  destruct a, b; simpl; split; intros H; try discriminate; try reflexivity.
  - apply Bool.eqb_prop in H. now subst.
  - injection H as ->. apply Bool.eqb_reflx.
  - apply Z.eqb_eq in H. now subst.
  - injection H as ->. apply Z.eqb_refl.
  - apply String.eqb_eq in H. now subst.
  - injection H as ->. apply String.eqb_refl.
  - apply Nat.eqb_eq in H. now subst.
  - injection H as ->. apply Nat.eqb_refl.
Qed.

Lemma strict_eq_false a b : a <> b -> strict_eq a b = false.
Proof.
  intros H. destruct (strict_eq a b) eqn:E; [| reflexivity].
  now apply strict_eq_true in E.
Qed.

(** Reads are stable when the heap grows. *)
Lemma deref_grown l o h ev t ev' :
  deref l (World h ev) = (Ret o, World h ev) ->
  deref l (World (h ++ t) ev') = (Ret o, World (h ++ t) ev').
Proof.
  unfold deref. simpl. destruct (h !! l) eqn:E; [| discriminate].
  intros [= ->]. now rewrite (lookup_grown _ _ _ _ E).
Qed.

Lemma get_prop_grown v k x h ev t ev' :
  get_prop v k (World h ev) = (Ret x, World h ev) ->
  get_prop v k (World (h ++ t) ev') = (Ret x, World (h ++ t) ev').
Proof.
  destruct v; unfold get_prop; try (rewrite !run_ret; now intros [= ->]);
    try (rewrite !run_raise; discriminate).
  rewrite !run_bind. unfold deref. simpl.
  destruct (h !! l) eqn:E; [| discriminate].
  rewrite (lookup_grown _ _ _ _ E). rewrite !run_ret. now intros [= ->].
Qed.

Lemma constructor_name_grown v x h ev t ev' :
  constructor_name v (World h ev) = (Ret x, World h ev) ->
  constructor_name v (World (h ++ t) ev') = (Ret x, World (h ++ t) ev').
Proof.
  destruct v; unfold constructor_name; try (rewrite !run_ret; now intros [= ->]);
    try (rewrite !run_raise; discriminate).
  rewrite !run_bind. unfold deref. simpl.
  destruct (h !! l) eqn:E; [| discriminate].
  rewrite (lookup_grown _ _ _ _ E).
  destruct o as [ctor ps | | |]; try (rewrite !run_ret; now intros [= ->]).
  destruct (lookup_prop "constructor" ps); [apply get_prop_grown |].
  destruct ctor; [rewrite !run_ret; now intros [= ->] | rewrite !run_raise; discriminate].
Qed.

(** The inspection of lines 225-231 dispatches on an operator only for a
    reference whose constructor name is ['Object']. *)
Lemma clause_operator cond w spec options c w' :
  clause cond w = (Ret (spec, options, c), w') ->
  truthy spec = true ->
  (exists l, cond = VRef l) /\ constructor_name cond w = (Ret (VStr "Object"), w).
Proof.
  unfold clause. destruct (truthy cond) eqn:T.
  2:{ rewrite run_ret. intros [= <- <- <-]. discriminate. }
  rewrite run_bind. pose proof (readonly_constructor_name cond w) as R.
  destruct (constructor_name cond w) as [[n | e |] w1] eqn:E; simpl in R; subst w1;
    try discriminate.
  destruct (strict_eq n (VStr "Object")) eqn:S.
  2:{ rewrite run_ret. intros [= <- <- <-]. discriminate. }
  apply strict_eq_true in S. subst n. intros _ _. split; [| reflexivity].
  destruct cond; try discriminate; eauto.
Qed.

Lemma clause_literal cond w :
  truthy cond = false \/
    (exists name, constructor_name cond w = (Ret name, w) /\ name <> VStr "Object") ->
  clause cond w = (Ret (VBool false, VNull, cond), w).
Proof.
  intros [T | (name & E & N)]; unfold clause.
  - now rewrite T.
  - destruct (truthy cond); [| reflexivity].
    rewrite run_bind, E. now rewrite (strict_eq_false _ _ N).
Qed.

(** A condition whose constructor name cannot be read: the inspection of
    lines 225-231 raises, and so does the translation, the query still
    empty. *)
Lemma get_prop_raise_grown v k e h ev t ev' :
  get_prop v k (World h ev) = (Raise e, World h ev) ->
  get_prop v k (World (h ++ t) ev') = (Raise e, World (h ++ t) ev').
Proof.
  destruct v; unfold get_prop; try (rewrite !run_ret; discriminate);
    try (rewrite !run_raise; now intros [= ->]).
  rewrite !run_bind. unfold deref. simpl.
  destruct (h !! l) eqn:E; [rewrite run_ret |]; discriminate.
Qed.

Lemma constructor_name_raise_grown v e h ev t ev' :
  constructor_name v (World h ev) = (Raise e, World h ev) ->
  constructor_name v (World (h ++ t) ev') = (Raise e, World (h ++ t) ev').
Proof.
  destruct v; unfold constructor_name; try (rewrite !run_ret; discriminate);
    try (rewrite !run_raise; now intros [= ->]).
  rewrite !run_bind. unfold deref. simpl.
  destruct (h !! l) eqn:E; [| discriminate].
  rewrite (lookup_grown _ _ _ _ E).
  destruct o as [ctor ps | | |]; try (rewrite !run_ret; discriminate).
  destruct (lookup_prop "constructor" ps); [apply get_prop_raise_grown |].
  destruct ctor; [rewrite !run_ret; discriminate | rewrite !run_raise; now intros [= ->]].
Qed.

Lemma clause_raises cond e w :
  truthy cond = true -> constructor_name cond w = (Raise e, w) ->
  clause cond w = (Raise e, w).
Proof. intros T E. unfold clause. now rewrite T, run_bind, E. Qed.

(** C10, as the code has it: a condition is dispatched as an operator clause
    only when it is a reference whose constructor name is ['Object']; a
    condition that is falsy or has another constructor name (an array, a
    date, a regular expression) is emitted unchanged on its field, except
    [null], which becomes the null-type test [{$type: 10}]; and a truthy
    condition whose constructor name cannot be read is not emitted: the
    translation raises. *)
Theorem buildWhere_literal idNames regexp_ok locator fuel model k cond c lw w :
  heap w !! lw = Some (OObj c [(k, cond)]) ->
  field_name (rewrite_key idNames locator model k) = true ->
  (forall spec options operand w',
     clause cond w = (Ret (spec, options, operand), w') -> truthy spec = true ->
     (exists l, cond = VRef l) /\
     constructor_name cond w = (Ret (VStr "Object"), w)) /\
  (truthy cond = false \/
     (exists name, constructor_name cond w = (Ret name, w) /\ name <> VStr "Object") ->
   buildWhere idNames regexp_ok locator (S fuel) model (VRef lw) w =
     (Ret (VRef (length (heap w))),
      if strict_eq cond VNull
      then World (heap w ++
                  [plain [(rewrite_key idNames locator model k, VRef (S (length (heap w))))];
                   plain [("$type", VNum 10)]])
                 (events w)
      else World (heap w ++ [plain [(rewrite_key idNames locator model k, cond)]])
                 (events w))) /\
  (truthy cond = true ->
   forall e, constructor_name cond w = (Raise e, w) ->
     buildWhere idNames regexp_ok locator (S fuel) model (VRef lw) w =
       (Raise e, World (heap w ++ [plain []]) (events w))).
Proof.
  intros Hw Hf. pose proof (field_name_combinator _ Hf) as Hk.
  pose proof (field_name_ordinary _ Hf) as Hp.
  split; [intros *; apply clause_operator |].
  split.
  - intros H. destruct w as [h ev]. simpl in Hw. simpl heap. simpl events.
    assert (clause cond (World (h ++ [plain []]) ev) =
              (Ret (VBool false, VNull, cond), World (h ++ [plain []]) ev)) as C.
    { apply clause_literal. destruct H as [T | (name & E & N)]; [now left | right].
      exists name. split; [| exact N]. exact (constructor_name_grown _ _ _ _ _ _ E). }
    rewrite buildWhere_S. repeat mstep. unfold translate_entry. repeat mstep.
    rewrite String.eqb_refl. simpl. rewrite Hk.
    unfold translate_field. rewrite run_bind, C. simpl.
    destruct (strict_eq cond VNull); repeat mstep; reflexivity.
  - intros T e E. destruct w as [h ev]. simpl in Hw. simpl heap. simpl events.
    assert (clause cond (World (h ++ [plain []]) ev) =
              (Raise e, World (h ++ [plain []]) ev)) as C.
    { apply clause_raises; [exact T |]. exact (constructor_name_raise_grown _ _ _ _ _ _ E). }
    rewrite buildWhere_S. repeat mstep. unfold translate_entry. repeat mstep.
    rewrite String.eqb_refl. simpl. rewrite Hk.
    unfold translate_field. rewrite run_bind, C. reflexivity.
Qed.

Lemma buildWhere_literal_witness :
  MlOrig.buildWhere (fun _ => ["id"]) (fun _ _ => true) 1 "Widget" (VRef 0)
    (World filter_values []) =
    (Ret (VRef 7), World (filter_values ++ [plain [("tags", VRef 4)]]) []) /\
  MlOrig.buildWhere (fun _ => ["id"]) (fun _ _ => true) 1 "Widget" (VRef 1)
    (World filter_values []) =
    (Ret (VRef 7), World (filter_values ++ [plain [("since", VRef 5)]]) []) /\
  Ml.buildWhere (fun _ => ["id"]) (fun _ _ => true) 1 "Widget" (VRef 2)
    (World filter_values []) =
    (Ret (VRef 7), World (filter_values ++ [plain [("name", VRef 6)]]) []) /\
  Ml.buildWhere (fun _ => ["id"]) (fun _ _ => true) 1 "Widget" (VRef 3)
    (World filter_values []) =
    (Ret (VRef 7),
     World (filter_values ++ [plain [("owner", VRef 8)]; plain [("$type", VNum 10)]]) []) /\
  MlOrig.buildWhere (fun _ => ["id"]) (fun _ _ => true) 1 "Widget" (VRef 2)
    (World filter_unnamed []) =
    (Raise TypeError, World (filter_unnamed ++ [plain []]) []).
Proof.
  split; [| split; [| split; [| split]]].
  - apply (proj1 (proj2 (buildWhere_literal (fun _ => ["id"]) (fun _ _ => true) "_uri" 0
                           "Widget" "tags" (VRef 4) (Some "Object") 0
                           (World filter_values []) eq_refl eq_refl))).
    right. exists (VStr "Array"). split; [reflexivity | discriminate].
  - apply (proj1 (proj2 (buildWhere_literal (fun _ => ["id"]) (fun _ _ => true) "_uri" 0
                           "Widget" "since" (VRef 5) (Some "Object") 1
                           (World filter_values []) eq_refl eq_refl))).
    right. exists (VStr "Date"). split; [reflexivity | discriminate].
  - apply (proj1 (proj2 (buildWhere_literal (fun _ => ["id"]) (fun _ _ => true) "id" 0
                           "Widget" "name" (VRef 6) (Some "Object") 2
                           (World filter_values []) eq_refl eq_refl))).
    right. exists (VStr "RegExp"). split; [reflexivity | discriminate].
  - apply (proj1 (proj2 (buildWhere_literal (fun _ => ["id"]) (fun _ _ => true) "id" 0
                           "Widget" "owner" VNull (Some "Object") 3
                           (World filter_values []) eq_refl eq_refl))).
    now left.
  - apply (proj2 (proj2 (buildWhere_literal (fun _ => ["id"]) (fun _ _ => true) "_uri" 0
                           "Widget" "owner" (VRef 3) (Some "Object") 2
                           (World filter_unnamed []) eq_refl eq_refl))
             eq_refl TypeError eq_refl).
Defined.

(** C10 as stated fails: the conditions [{constructor: null}] and an object
    without a prototype are non-null values that are no operator clauses,
    yet they are not emitted on their field: reading the constructor name
    raises a [TypeError], in both listings, and the query stays empty. *)
Lemma buildWhere_constructor_unreadable :
  constructor_name (VRef 1) (World filter_unnamed []) = (Raise TypeError, World filter_unnamed []) /\
  Ml.buildWhere ids any_regexp 1 "Widget" (VRef 0) (World filter_unnamed []) =
    (Raise TypeError, World (filter_unnamed ++ [plain []]) []) /\
  MlOrig.buildWhere ids any_regexp 1 "Widget" (VRef 0) (World filter_unnamed []) =
    (Raise TypeError, World (filter_unnamed ++ [plain []]) []) /\
  Ml.buildWhere ids any_regexp 1 "Widget" (VRef 2) (World filter_unnamed []) =
    (Raise TypeError, World (filter_unnamed ++ [plain []]) []) /\
  Ml.buildWhere ids any_regexp 1 "Widget" (VRef 0) (World filter_unnamed []) <>
    (Ret (VRef 4), World (filter_unnamed ++ [plain [("name", VRef 1)]]) []).
Proof. repeat split; (reflexivity || discriminate). Qed.

(** ** Own properties *)

Lemma lookup_replace_eq k v ps x :
  lookup_prop k ps = Some x -> lookup_prop k (replace_prop k v ps) = Some v.
Proof.
  induction ps as [| [k' v'] t IH]; simpl; [discriminate |].
  destruct (k' =? k)%string eqn:E; simpl; rewrite E; auto.
Qed.

Lemma lookup_replace_ne k k2 v ps :
  k <> k2 -> lookup_prop k2 (replace_prop k v ps) = lookup_prop k2 ps.
Proof.
  intros N. induction ps as [| [k' v'] t IH]; simpl; [reflexivity |].
  destruct (k' =? k)%string eqn:E; simpl.
  - apply String.eqb_eq in E. subst k'.
    now rewrite (proj2 (String.eqb_neq k k2) N).
  - now rewrite IH.
Qed.

Lemma lookup_insert_index_eq n k v ps :
  lookup_prop k ps = None -> lookup_prop k (insert_index n k v ps) = Some v.
Proof.
  induction ps as [| [k' v'] t IH]; simpl; [now rewrite String.eqb_refl |].
  destruct (k' =? k)%string eqn:E; [discriminate |]. intros H.
  destruct (array_index k') as [n' |]; [destruct (n <? n')%N |]; simpl;
    rewrite ?String.eqb_refl, ?E; auto.
Qed.

Lemma lookup_insert_index_ne n k k2 v ps :
  k <> k2 -> lookup_prop k2 (insert_index n k v ps) = lookup_prop k2 ps.
Proof.
  intros N. apply String.eqb_neq in N.
  induction ps as [| [k' v'] t IH]; simpl; [now rewrite N |].
  destruct (array_index k') as [n' |]; [destruct (n <? n')%N |]; simpl;
    rewrite ?N, ?IH; reflexivity.
Qed.

Lemma lookup_snoc k2 k v ps :
  lookup_prop k2 (ps ++ [(k, v)]) =
    match lookup_prop k2 ps with
    | Some x => Some x
    | None => if (k =? k2)%string then Some v else None
    end.
Proof.
  induction ps as [| [k' v'] t IH]; simpl; [reflexivity |].
  now destruct (k' =? k2)%string.
Qed.

Lemma lookup_set_own_eq k v ps : lookup_prop k (set_own k v ps) = Some v.
Proof.
  unfold set_own. destruct (lookup_prop k ps) eqn:E.
  - eapply lookup_replace_eq, E.
  - destruct (array_index k).
    + now apply lookup_insert_index_eq.
    + now rewrite lookup_snoc, E, String.eqb_refl.
Qed.

Lemma lookup_set_own_ne k k2 v ps :
  k <> k2 -> lookup_prop k2 (set_own k v ps) = lookup_prop k2 ps.
Proof.
  intros N. unfold set_own. destruct (lookup_prop k ps).
  - now apply lookup_replace_ne.
  - destruct (array_index k).
    + now apply lookup_insert_index_ne.
    + rewrite lookup_snoc. rewrite (proj2 (String.eqb_neq k k2) N).
      now destruct (lookup_prop k2 ps).
Qed.

Lemma lookup_delete_own_ne k k2 ps :
  k <> k2 -> lookup_prop k2 (delete_own k ps) = lookup_prop k2 ps.
Proof.
  intros N. induction ps as [| [k' v'] t IH]; simpl; [reflexivity |].
  destruct (k' =? k)%string eqn:E; simpl.
  - apply String.eqb_eq in E. subst k'.
    now rewrite (proj2 (String.eqb_neq k k2) N).
  - now rewrite IH.
Qed.

(** ** What a translation may write *)

Section Frame.

Variables (n lq : nat) (K : string -> Prop).

Lemma rel_refl w : rel n lq K w w.
Proof. repeat split; eauto. Qed.

Lemma rel_trans w1 w2 w3 : rel n lq K w1 w2 -> rel n lq K w2 w3 -> rel n lq K w1 w3.
Proof.
  intros (E1 & L1 & F1 & Q1) (E2 & L2 & F2 & Q2). repeat split.
  - congruence.
  - lia.
  - intros l Hl Hq. rewrite F2, F1; auto.
  - intros c ps H. destruct (Q1 _ _ H) as (ps1 & H1 & P1).
    destruct (Q2 _ _ H1) as (ps2 & H2 & P2).
    exists ps2. split; [exact H2 |]. intros k Hk. rewrite P2, P1; auto.
Qed.

Lemma inv_rel w w' : inv n lq w -> rel n lq K w w' -> inv n lq w'.
Proof. intros [? ?] (_ & L & _). split; lia. Qed.

Lemma ok_readonly {A} (m : M A) : readonly m -> ok n lq K m.
Proof. intros R w _. rewrite R. apply rel_refl. Qed.

Lemma ok_ret {A} (a : A) : ok n lq K (mret a : M A).
Proof. apply ok_readonly, readonly_ret. Qed.

Lemma ok_raise {A} (e : error) : ok n lq K (raise e : M A).
Proof. apply ok_readonly, readonly_raise. Qed.

Lemma ok_bind {A B} (m : M A) (f : A -> M B) :
  ok n lq K m -> (forall a, ok n lq K (f a)) -> ok n lq K (m ≫= f).
Proof.
  intros Hm Hf w I. rewrite run_bind. specialize (Hm w I).
  destruct (m w) as [[a | e |] w1]; simpl in Hm; try exact Hm.
  eapply rel_trans; [exact Hm |]. apply Hf. eapply inv_rel; eauto.
Qed.

Lemma rel_alloc w o : inv n lq w -> rel n lq K w (World (heap w ++ [o]) (events w)).
Proof.
  intros [Hn Hq]. repeat split; simpl.
  - rewrite length_app. lia.
  - intros l Hl _. apply lookup_app_l. lia.
  - intros c ps H. exists ps. split; [| reflexivity]. now apply lookup_grown.
Qed.

Lemma ok_alloc o : ok n lq K (alloc o).
Proof. intros w I. rewrite run_alloc. now apply rel_alloc. Qed.

Lemma rel_store_fresh w l o :
  n <= l -> l <> lq -> rel n lq K w (World (<[l := o]> (heap w)) (events w)).
Proof.
  intros Hl Hq. repeat split; simpl.
  - rewrite length_insert. lia.
  - intros l' Hl' _. apply list_lookup_insert_ne. lia.
  - intros c ps H. exists ps. split; [| reflexivity].
    now rewrite list_lookup_insert_ne.
Qed.

Lemma rel_store_query w c ps ps' :
  heap w !! lq = Some (OObj c ps) ->
  (forall k, ~ K k -> lookup_prop k ps' = lookup_prop k ps) ->
  rel n lq K w (World (<[lq := OObj c ps']> (heap w)) (events w)).
Proof.
  intros H P. repeat split; simpl.
  - rewrite length_insert. lia.
  - intros l' _ Hl'. now apply list_lookup_insert_ne.
  - intros c0 ps0 H0. rewrite H in H0. injection H0 as <- <-.
    exists ps'. split; [| exact P].
    apply list_lookup_insert_eq. eapply lookup_lt_Some, H.
Qed.

Lemma ok_put_prop v k x :
  (forall l, v = VRef l -> (l = lq /\ K k) \/ (n <= l /\ l <> lq)) ->
  ok n lq K (put_prop v k x).
Proof.
  intros H w I. destruct v; try apply rel_refl.
  unfold put_prop. rewrite run_bind. unfold deref.
  destruct (heap w !! l) as [[c ps | | |] |] eqn:E; simpl; try apply rel_refl.
  destruct (accessor k ps); [apply rel_refl |].
  destruct (H l eq_refl) as [[-> Hk] | [Hl Hq]].
  - apply rel_store_query with (ps := ps); [exact E |].
    intros k' Hk'. apply lookup_set_own_ne. now intros ->.
  - now apply rel_store_fresh.
Qed.

Lemma ok_delete_prop v k :
  (forall l, v = VRef l -> (l = lq /\ K k) \/ (n <= l /\ l <> lq)) ->
  ok n lq K (delete_prop v k).
Proof.
  intros H w I. destruct v; try apply rel_refl.
  unfold delete_prop. rewrite run_bind. unfold deref.
  destruct (heap w !! l) as [[c ps | | |] |] eqn:E; simpl; try apply rel_refl.
  destruct (H l eq_refl) as [[-> Hk] | [Hl Hq]].
  - apply rel_store_query with (ps := ps); [exact E |].
    intros k' Hk'. apply lookup_delete_own_ne. now intros ->.
  - now apply rel_store_fresh.
Qed.

Lemma ok_for_each {A} (xs : list A) (f : A -> M unit) :
  (forall x, ok n lq K (f x)) -> ok n lq K (for_each xs f).
Proof.
  intros H. induction xs as [| x xs IH]; simpl; [apply ok_ret |].
  apply ok_bind; auto.
Qed.

Lemma ok_map_m {A B} (f : A -> M B) (xs : list A) :
  (forall x, ok n lq K (f x)) -> ok n lq K (map_m f xs).
Proof.
  intros H. induction xs as [| x xs IH]; simpl; [apply ok_ret |].
  apply ok_bind; [apply H |]. intros y.
  apply ok_bind; [apply IH |]. intros ys. apply ok_ret.
Qed.

Lemma ok_grows {A} (m : M A) : (forall w, grows w (m w).2) -> ok n lq K m.
Proof.
  intros G w [Hn Hq]. destruct (G w) as (E & L & F). repeat split; auto.
  - intros l Hl _. apply F. lia.
  - intros c ps H. exists ps. split; [| reflexivity]. now rewrite F.
Qed.

Lemma ok_new_regexp regexp_ok pattern flags : ok n lq K (new_regexp regexp_ok pattern flags).
Proof.
  unfold new_regexp. destruct (regexp_ok pattern flags); [apply ok_alloc | apply ok_raise].
Qed.

(** The fall-through branch: the clause object is read back from the query
    it was just stored in. *)
Lemma ok_generic k key cond :
  K k ->
  ok n lq K (r ← alloc (plain []);
      put_prop (VRef lq) k r;;
      r' ← get_prop (VRef lq) k;
      put_prop r' key cond).
Proof.
  intros Hk w I. pose proof I as [Hn Hq].
  destruct (lookup_lt_is_Some_2 _ _ Hq) as [o Ho].
  rewrite run_bind, run_alloc.
  set (w1 := World (heap w ++ [plain []]) (events w)).
  assert (rel n lq K w w1) as R1 by now apply rel_alloc.
  assert (heap w1 !! lq = Some o) as Ho1 by now apply lookup_grown.
  rewrite run_bind. unfold put_prop at 1. rewrite run_bind, (run_deref _ _ _ Ho1).
  destruct o as [c ps | | |]; try exact R1.
  destruct (accessor k ps); [exact R1 |].
  unfold store at 1.
  set (w2 := World (<[lq := OObj c (set_own k (VRef (length (heap w))) ps)]> (heap w1))
                   (events w1)).
  assert (rel n lq K w1 w2) as R2.
  { apply rel_store_query with (ps := ps); [exact Ho1 |].
    intros k' Hk'. apply lookup_set_own_ne. now intros ->. }
  assert (heap w2 !! lq = Some (OObj c (set_own k (VRef (length (heap w))) ps))) as Ho2.
  { apply list_lookup_insert_eq. eapply lookup_lt_Some, Ho1. }
  simpl. rewrite run_bind, (run_get_ref _ _ _ _ Ho2). simpl.
  rewrite lookup_set_own_eq. simpl.
  eapply rel_trans; [exact R1 |]. eapply rel_trans; [exact R2 |].
  apply ok_put_prop.
  - intros l [= <-]. right. lia.
  - eapply inv_rel; [| exact R2]. eapply inv_rel; eauto.
Qed.

Lemma ok_translate_field regexp_ok k cond :
  K k -> ok n lq K (translate_field regexp_ok (VRef lq) k cond).
Proof.
  intros Hk. unfold translate_field.
  assert (forall x, ok n lq K (put_prop (VRef lq) k x)) as P.
  { intros x. apply ok_put_prop. intros l [= <-]. now left. }
  apply ok_bind; [apply ok_readonly, readonly_clause |].
  intros [[spec options] c].
  destruct (truthy spec).
  - repeat match goal with
      | |- ok n lq K (alloc (plain []) ≫= _) => now apply ok_generic
      | |- ok n lq K (if ?b then _ else _) => destruct b
      | |- ok n lq K (_ ≫= _) => apply ok_bind; [| intros ?]
      | |- ok n lq K (alloc _) => apply ok_alloc
      | |- ok n lq K (get_prop _ _) => apply ok_readonly, readonly_get_prop
      | |- ok n lq K (array_elems _) => apply ok_readonly, readonly_array_elems
      | |- ok n lq K (new_regexp _ _ _) => apply ok_new_regexp
      | |- ok n lq K (put_prop (VRef lq) k _) => apply P
      end.
  - destruct (strict_eq c VNull); [| apply P].
    apply ok_bind; [apply ok_alloc | intros r; apply P].
Qed.

End Frame.

Lemma grows_refl w : grows w w.
Proof. repeat split; auto. Qed.

Lemma ok_entry n lq K idNames regexp_ok locator translate model where_ k :
  (forall c w, grows w (translate c w).2) ->
  K (rewrite_key idNames locator model k) ->
  (is_combinator (rewrite_key idNames locator model k) = true ->
   K ("$" ++ rewrite_key idNames locator model k)%string) ->
  ok n lq K (translate_entry idNames regexp_ok locator translate model where_ (VRef lq) k).
Proof.
  intros IH Hk Hc. unfold translate_entry.
  apply ok_bind; [apply ok_readonly, readonly_get_prop |]. intros cond. simpl.
  destruct (is_combinator (rewrite_key idNames locator model k));
    [| now apply ok_translate_field].
  apply ok_bind; [apply ok_readonly, readonly_is_array |]. intros arr.
  apply ok_bind.
  - destruct arr; [| apply ok_ret].
    apply ok_bind; [apply ok_readonly, readonly_array_elems |]. intros es.
    apply ok_bind; [| intros qs; apply ok_alloc].
    apply ok_map_m. intros c. apply ok_grows. apply IH.
  - intros cond'. apply ok_bind; [| intros _].
    + apply ok_put_prop. intros l [= <-]. left. auto.
    + apply ok_delete_prop. intros l [= <-]. left. auto.
Qed.

(** A translation emits nothing, keeps every object that was there and only
    adds new ones. *)
Lemma buildWhere_grows idNames regexp_ok locator fuel model where_ w :
  grows w (buildWhere idNames regexp_ok locator fuel model where_ w).2.
Proof.
  revert where_ w. induction fuel as [| fuel IH]; intros where_ w; [apply grows_refl |].
  rewrite buildWhere_S, run_bind, run_alloc.
  set (w1 := World (heap w ++ [plain []]) (events w)).
  assert (inv (length (heap w)) (length (heap w)) w1) as I.
  { unfold inv, w1. simpl. rewrite length_app. simpl. lia. }
  assert (forall w', rel (length (heap w)) (length (heap w)) (fun _ => True) w1 w' ->
                     grows w w') as G.
  { intros w' (E & L & F & _). unfold w1 in *. simpl in *.
    rewrite length_app in L. repeat split; [exact E | lia |].
    intros l Hl. rewrite F by lia. apply lookup_app_l. exact Hl. }
  destruct (strict_eq where_ VNull || negb (typeof where_ =? "object")).
  { apply G, rel_refl. }
  apply G.
  refine (ok_bind _ _ _ _ _ _ _ w1 I).
  - apply ok_readonly, readonly_keys.
  - intros ks. apply ok_bind; [| intros _; apply ok_ret].
    apply ok_for_each. intros k. apply ok_entry; auto.
Qed.

Lemma grows_prefix w w' : grows w w' -> heap w' = heap w ++ drop (length (heap w)) (heap w').
Proof.
  intros (_ & L & F). rewrite <- (take_drop (length (heap w)) (heap w')) at 1.
  f_equal. apply list_eq. intros i.
  destruct (decide (i < length (heap w))) as [Hi | Hi].
  - rewrite lookup_take_lt by exact Hi. now apply F.
  - rewrite lookup_take_ge by lia. symmetry. apply lookup_ge_None. lia.
Qed.

Lemma for_each_then {A B} (xs : list A) (f : A -> M unit) (b x : B) w w' :
  (for_each xs f ;; mret b) w = (Ret x, w') -> x = b.
Proof.
  rewrite run_bind. destruct (for_each xs f w) as [[[] | e |] w1]; try discriminate.
  rewrite run_ret. now intros [= <- _].
Qed.

Lemma buildWhere_fresh idNames regexp_ok locator fuel model where_ w q w' :
  buildWhere idNames regexp_ok locator fuel model where_ w = (Ret q, w') ->
  q = VRef (length (heap w)).
Proof.
  destruct fuel as [| fuel]; [discriminate |].
  rewrite buildWhere_S, run_bind, run_alloc.
  destruct (strict_eq where_ VNull || negb (typeof where_ =? "object")).
  { rewrite run_ret. now intros [= <- _]. }
  rewrite run_bind.
  destruct (keys where_ _) as [[ks | e |] w1]; try discriminate.
  apply for_each_then.
Qed.

(** C5: [buildWhere] is pure and leaves its input as it was: it emits no
    event, every object of the heap before the call is the same after it
    (the filter and all it reaches), what is new lies beyond them, and the
    query it returns is one of the new objects. *)
Theorem buildWhere_pure idNames regexp_ok locator fuel model where_ w :
  let r := buildWhere idNames regexp_ok locator fuel model where_ w in
  events r.2 = events w /\
  (exists fresh, heap r.2 = heap w ++ fresh) /\
  (forall l o, heap w !! l = Some o -> heap r.2 !! l = Some o) /\
  (forall q, r.1 = Ret q -> q = VRef (length (heap w))).
Proof.
  intros r. pose proof (buildWhere_grows idNames regexp_ok locator fuel model where_ w) as G.
  fold r in G. split; [apply G |]. split; [| split].
  - eexists. now apply grows_prefix.
  - intros l o H. destruct G as (_ & _ & F). rewrite F; [exact H |].
    eapply lookup_lt_Some, H.
  - intros q Hq. apply (buildWhere_fresh idNames regexp_ok locator fuel model where_ w q r.2).
    rewrite <- Hq. apply surjective_pairing.
Qed.

(** ** A range entry among other entries *)

Lemma for_each_app_ret {A} (xs ys : list A) (f : A -> M unit) w w' :
  for_each (xs ++ ys) f w = (Ret tt, w') ->
  exists w1, for_each xs f w = (Ret tt, w1) /\ for_each ys f w1 = (Ret tt, w').
Proof.
  revert w. induction xs as [| x xs IH]; intros w H.
  - exists w. split; [reflexivity | exact H].
  - change ((x :: xs) ++ ys) with (x :: (xs ++ ys)) in H.
    cbn [for_each] in *. rewrite run_bind in *.
    destruct (f x w) as [[[] | e |] w0]; try discriminate.
    apply IH in H as (w1 & H1 & H2). exists w1. now split.
Qed.

Lemma ok_for_each_in {A} n lq K (xs : list A) (f : A -> M unit) :
  (forall x, x ∈ xs -> ok n lq K (f x)) -> ok n lq K (for_each xs f).
Proof.
  induction xs as [| x xs IH]; intros H; cbn [for_each]; [apply ok_ret |].
  apply ok_bind; [apply H; left |]. intros _. apply IH. intros y Hy. apply H. now right.
Qed.

Lemma run_between_entry idNames regexp_ok locator translate model k lo hi
    c ps cq psq lw lc la lq w :
  heap w !! lw = Some (OObj c ps) ->
  lookup_prop k ps = Some (VRef lc) ->
  heap w !! lc = Some (plain [("between", VRef la)]) ->
  heap w !! la = Some (OArr [lo; hi]) ->
  heap w !! lq = Some (OObj cq psq) ->
  field_name (rewrite_key idNames locator model k) = true ->
  translate_entry idNames regexp_ok locator translate model (VRef lw) (VRef lq) k w =
    (Ret tt,
     World (<[lq := OObj cq (set_own (rewrite_key idNames locator model k)
                               (VRef (length (heap w))) psq)]>
              (heap w ++ [plain [("$gte", lo); ("$lte", hi)]]))
           (events w)).
Proof.
  intros Hw Hk Hc Ha Hq Hf. pose proof (field_name_combinator _ Hf) as Hcomb.
  pose proof (field_name_ordinary _ Hf) as Hp.
  destruct w as [h ev]. simpl in Hw, Hc, Ha, Hq.
  unfold translate_entry. repeat mstep. rewrite Hk. simpl. rewrite Hcomb.
  unfold translate_field, clause. simpl. repeat mstep. reflexivity.
Qed.

(** Whatever else the filter holds: when the translation returns, the query
    carries the range under the rewritten key, provided no later key of the
    filter is translated onto that same name. *)
Lemma buildWhere_between_entry idNames regexp_ok locator fuel model k lo hi
    c ps ks1 ks2 lw lc la w q w' :
  heap w !! lw = Some (OObj c ps) ->
  map fst ps = ks1 ++ k :: ks2 ->
  lookup_prop k ps = Some (VRef lc) ->
  heap w !! lc = Some (plain [("between", VRef la)]) ->
  heap w !! la = Some (OArr [lo; hi]) ->
  field_name (rewrite_key idNames locator model k) = true ->
  (forall k2, k2 ∈ ks2 ->
     rewrite_key idNames locator model k2 <> rewrite_key idNames locator model k /\
     ("$" ++ rewrite_key idNames locator model k2)%string <>
       rewrite_key idNames locator model k) ->
  buildWhere idNames regexp_ok locator (S fuel) model (VRef lw) w = (Ret q, w') ->
  exists psq r,
    q = VRef (length (heap w)) /\
    heap w' !! length (heap w) = Some (plain psq) /\
    lookup_prop (rewrite_key idNames locator model k) psq = Some (VRef r) /\
    heap w' !! r = Some (plain [("$gte", lo); ("$lte", hi)]).
Proof.
  intros Hw Hks Hk Hc Ha Hcomb Hlater Hrun.
  pose proof (buildWhere_fresh _ _ _ _ _ _ _ _ _ Hrun) as ->.
  set (n := length (heap w)) in *.
  set (k' := rewrite_key idNames locator model k) in *.
  set (step := translate_entry idNames regexp_ok locator
                 (buildWhere idNames regexp_ok locator fuel model) model (VRef lw) (VRef n)).
  set (w0 := World (heap w ++ [plain []]) (events w)).
  assert (for_each (ks1 ++ k :: ks2) step w0 = (Ret tt, w')) as Hloop.
  { rewrite buildWhere_S, run_bind, run_alloc in Hrun. simpl in Hrun.
    rewrite run_bind in Hrun. erewrite run_keys_ref in Hrun by (apply lookup_grown, Hw).
    simpl in Hrun. rewrite Hks in Hrun. rewrite run_bind in Hrun. fold n step w0 in Hrun.
    destruct (for_each (ks1 ++ k :: ks2) step w0) as [[[] | e |] w3]; try discriminate.
    rewrite run_ret in Hrun. now injection Hrun as ->. }
  apply for_each_app_ret in Hloop as (w1 & H1 & H2).
  cbn [for_each] in H2. rewrite run_bind in H2.
  assert (inv n n w0) as I0.
  { unfold inv, w0, n. simpl. rewrite length_app. simpl. lia. }
  assert (forall ks, ok n n (fun _ => True) (for_each ks step)) as Hok.
  { intros ks. apply ok_for_each. intros x. apply ok_entry; auto.
    intros c0 w2. apply buildWhere_grows. }
  pose proof (Hok ks1 w0 I0) as R1. rewrite H1 in R1. simpl in R1.
  destruct R1 as (E1 & L1 & F1 & Q1).
  destruct (Q1 (Some "Object") [] (lookup_fresh _ _ _)) as (ps1 & Hq1 & _).
  assert (forall l o, heap w !! l = Some o -> heap w1 !! l = Some o) as Hold.
  { intros l o Hl. pose proof (lookup_lt_Some _ _ _ Hl). fold n in H.
    rewrite F1 by lia. now apply lookup_grown. }
  unfold step at 1 in H2.
  rewrite (run_between_entry idNames regexp_ok locator _ model k lo hi c ps
             (Some "Object") ps1 lw lc la n w1) in H2; auto.
  set (r := length (heap w1)) in *.
  set (w2 := World _ (events w1)) in H2.
  assert (n < r) as Hnr.
  { unfold r. unfold w0 in L1. simpl in L1. rewrite length_app in L1. simpl in L1. lia. }
  assert (heap w2 !! n = Some (plain (set_own k' (VRef r) ps1))) as Hq2.
  { unfold w2. simpl. apply list_lookup_insert_eq. rewrite length_app. lia. }
  assert (heap w2 !! r = Some (plain [("$gte", lo); ("$lte", hi)])) as Hr2.
  { unfold w2. simpl. rewrite list_lookup_insert_ne by lia. apply lookup_fresh. }
  assert (length (heap w2) = S r) as Hlen.
  { unfold w2. simpl. rewrite length_insert, length_app. simpl. lia. }
  set (K := fun x => exists k2, k2 ∈ ks2 /\
              (x = rewrite_key idNames locator model k2 \/
               x = ("$" ++ rewrite_key idNames locator model k2)%string)).
  assert (ok (S r) n K (for_each ks2 step)) as Hok2.
  { apply ok_for_each_in. intros x Hx. apply ok_entry.
    - intros c0 w3. apply buildWhere_grows.
    - exists x. split; [exact Hx | now left].
    - intros _. exists x. split; [exact Hx | now right]. }
  assert (inv (S r) n w2) as I2 by (unfold inv; lia).
  specialize (Hok2 w2 I2). rewrite H2 in Hok2. simpl in Hok2.
  destruct Hok2 as (_ & _ & F3 & Q3).
  destruct (Q3 _ _ Hq2) as (ps3 & Hq3 & P3).
  exists ps3, r. split; [reflexivity |]. split; [exact Hq3 |]. split.
  - rewrite P3; [apply lookup_set_own_eq |].
    intros (k2 & Hin & [E | E]); destruct (Hlater k2 Hin) as [N1 N2]; congruence.
  - rewrite F3 by lia. exact Hr2.
Qed.

(** ** Update-data sanitization *)

Lemma set_own_new k v ps :
  lookup_prop k ps = None -> array_index k = None -> set_own k v ps = ps ++ [(k, v)].
Proof. intros H1 H2. unfold set_own. now rewrite H1, H2. Qed.

Lemma run_scan_operators ops : forall ld lp o acc used w,
  heap w !! ld = Some o ->
  heap w !! lp = Some (plain acc) ->
  ld <> lp ->
  NoDup ops ->
  Forall (fun op => array_index op = None /\ lookup_prop op acc = None /\
                    (op =? "__proto__")%string = false) ops ->
  MlOrig.scan_operators ops (VRef ld) (VRef lp) used w =
    (Ret (used + length (forwarded o ops)),
     World (<[lp := plain (acc ++ forwarded o ops)]> (heap w)) (events w)).
Proof.
  induction ops as [| op ops IH]; intros ld lp o acc used w Hd Hp Hne ND F.
  - simpl. unfold forwarded. simpl. rewrite app_nil_r, Nat.add_0_r.
    rewrite list_insert_id by exact Hp. now destruct w.
  - inversion ND as [| ? ? Hin ND']. subst.
    inversion F as [| ? ? (Hi & Hl & Ho) F']. subst.
    simpl. rewrite run_bind, (run_get_ref _ _ _ _ Hd). simpl.
    unfold forwarded. simpl. rewrite filter_cons. simpl.
    destruct (truthy (own_prop o op)) eqn:T.
    + rewrite decide_True by reflexivity.
      rewrite run_bind, (run_get_ref _ _ _ _ Hd). simpl.
      rewrite run_bind, (run_put_ref _ _ _ _ _ _ Hp).
      rewrite (accessor_ordinary _ _ Ho). simpl.
      rewrite (set_own_new _ _ _ Hl Hi).
      rewrite (IH ld lp o (acc ++ [(op, own_prop o op)]) (S used)); simpl.
      * rewrite list_insert_insert_eq. simpl. rewrite <- app_assoc. simpl.
        f_equal. f_equal. unfold forwarded. lia.
      * rewrite list_lookup_insert_ne by auto. exact Hd.
      * apply list_lookup_insert_eq. eapply lookup_lt_Some, Hp.
      * exact Hne.
      * exact ND'.
      * rewrite Forall_forall in F' |- *.
        intros op' Hin'. destruct (F' op' Hin') as (Hi' & Hl' & Ho').
        split; [exact Hi' |]. split; [| exact Ho'].
        rewrite lookup_snoc, Hl'.
        destruct (op =? op')%string eqn:E; [| reflexivity].
        apply String.eqb_eq in E. subst op'. contradiction.
    + rewrite decide_False by discriminate.
      now apply IH.
Qed.

Arguments MlOrig.scan_operators : simpl never.
Arguments MlOrig.acceptedOperators : simpl never.

Lemma acceptedOperators_NoDup : NoDup MlOrig.acceptedOperators.
Proof.
  apply NoDup_ListNoDup. unfold MlOrig.acceptedOperators.
  repeat (constructor; [simpl; intuition discriminate |]). constructor.
Qed.

Lemma acceptedOperators_names :
  Forall (fun op => array_index op = None /\ lookup_prop op [] = None /\
                    (op =? "__proto__")%string = false)
    MlOrig.acceptedOperators.
Proof. unfold MlOrig.acceptedOperators. repeat constructor. Qed.

Lemma run_parseUpdateData_off flag model data w :
  flag <> VBool true ->
  MlOrig.parseUpdateData flag model data w =
    (Ret (VRef (length (heap w))),
     World (heap w ++ [plain [("$set", data)]]) (events w)).
Proof.
  intros Hf. destruct w as [h ev]. unfold MlOrig.parseUpdateData.
  rewrite (strict_eq_false _ _ Hf). repeat mstep. reflexivity.
Qed.

Lemma run_parseUpdateData_on model ld o w :
  heap w !! ld = Some o ->
  MlOrig.parseUpdateData (VBool true) model (VRef ld) w =
    (Ret (VRef (length (heap w))),
     World (heap w ++
            [plain (match forwarded o MlOrig.acceptedOperators with
                    | [] => [("$set", VRef ld)]
                    | ops => ops
                    end);
             OArr (VStr <$> MlOrig.acceptedOperators)])
           (events w)).
Proof.
  intros Hd. destruct w as [h ev]. unfold MlOrig.parseUpdateData. simpl strict_eq.
  cbv iota. repeat mstep.
  rewrite (run_scan_operators MlOrig.acceptedOperators ld (length h) o [] 0);
    [| heap_lookup | heap_lookup | | apply acceptedOperators_NoDup
     | apply acceptedOperators_names ].
  2:{ simpl in Hd. apply lookup_lt_Some in Hd. lia. }
  simpl. destruct (forwarded o MlOrig.acceptedOperators) as [| p ps] eqn:E.
  + simpl. repeat mstep. reflexivity.
  + simpl. repeat mstep. reflexivity.
Qed.

(** What the sanitization does: with the flag off (anything but [true])
    the payload is wrapped as [{$set: payload}]; with the flag on, the
    allow-listed operators whose value in the payload is truthy are forwarded,
    each under its own key, in the order of the allow-list, and when none
    has a truthy value the payload is wrapped as [{$set: payload}]. *)
Theorem parseUpdateData_truthy flag model w :
  (flag <> VBool true ->
   forall data,
     MlOrig.parseUpdateData flag model data w =
       (Ret (VRef (length (heap w))),
        World (heap w ++ [plain [("$set", data)]]) (events w))) /\
  (flag = VBool true ->
   forall ld o, heap w !! ld = Some o ->
     MlOrig.parseUpdateData flag model (VRef ld) w =
       (Ret (VRef (length (heap w))),
        World (heap w ++
               [plain (match forwarded o MlOrig.acceptedOperators with
                       | [] => [("$set", VRef ld)]
                       | ops => ops
                       end);
                OArr (VStr <$> MlOrig.acceptedOperators)])
              (events w))).
Proof.
  split.
  - intros Hf data. now apply run_parseUpdateData_off.
  - intros -> ld o Hd. now apply run_parseUpdateData_on.
Qed.

Lemma parseUpdateData_truthy_witness :
  MlOrig.parseUpdateData (VBool false) "Widget" (VRef 0) (World payload_ops []) =
    (Ret (VRef 3), World (payload_ops ++ [plain [("$set", VRef 0)]]) []) /\
  MlOrig.parseUpdateData (VBool true) "Widget" (VRef 0) (World payload_ops []) =
    (Ret (VRef 3),
     World (payload_ops ++ [plain [("$inc", VRef 2); ("$set", VRef 1)];
                            OArr (VStr <$> MlOrig.acceptedOperators)]) []).
Proof.
  split.
  - apply (proj1 (parseUpdateData_truthy (VBool false) "Widget" (World payload_ops []))).
    discriminate.
  - apply (proj2 (parseUpdateData_truthy (VBool true) "Widget" (World payload_ops []))
             eq_refl 0 (plain [("name", VStr "b"); ("$set", VRef 1); ("$inc", VRef 2);
                               ("$bit", VNull)]) eq_refl).
Defined.

(** C6 fails on [parseUpdateData] (lines 729-762): line 745 says each
    accepted operator takes its place if defined, but line 747 tests the
    value for truthiness; [$inc] is defined in the payload [{$inc: 0}], yet
    it is not forwarded, and the payload is wrapped under [$set]. *)
Lemma parseUpdateData_present_not_forwarded :
  lookup_prop "$inc" [("$inc", VNum 0)] = Some (VNum 0) /\
  exists w',
    MlOrig.parseUpdateData (VBool true) "Widget" (VRef 0)
      (World [plain [("$inc", VNum 0)]] []) = (Ret (VRef 1), w') /\
    heap w' !! 1 = Some (plain [("$set", VRef 0)]) /\
    heap w' !! 1 <> Some (plain [("$inc", VNum 0)]).
Proof.
  split; [reflexivity |]. eexists. split; [reflexivity |].
  split; [reflexivity | discriminate].
Qed.

(** ** Ordering *)

Lemma match_here_no_ws f t : f <> "" -> no_ws f = true -> match_here (f ++ t)%string = None.
Proof.
  destruct f as [| c f]; [congruence |]. simpl. intros _ H.
  apply andb_prop in H as [H _]. apply negb_true_iff in H. now rewrite H.
Qed.

Lemma ws_eqb_false c r (tok : string) :
  is_ws c = true -> match tok with String a _ => is_ws a = false | EmptyString => True end ->
  (String c r =? tok)%string = false.
Proof.
  intros Hc Ht. destruct tok as [| a tok]; [reflexivity |]. simpl.
  destruct (Ascii.eqb_spec c a) as [-> | _]; [congruence | reflexivity].
Qed.

(** A run of white space and an upper-case token: the token is found. *)
Lemma match_here_token sp tok g :
  sp <> "" -> all_ws sp = true ->
  match_here tok = None ->
  (if (tok =? "ASC")%string then Some "A"
   else if (tok =? "DESC")%string then Some "DE" else None) = Some g ->
  match_here (sp ++ tok)%string = Some g.
Proof.
  intros Hne Hws Hm Hg. induction sp as [| c r IH]; [congruence |].
  simpl in Hws. apply andb_prop in Hws as [Hc Hr]. simpl. rewrite Hc.
  destruct r as [| c' r'].
  - simpl. now rewrite Hm.
  - rewrite IH; [reflexivity | discriminate | exact Hr].
Qed.

Lemma match_direction_here s g :
  match_here s = Some g -> match_direction s = Some ("", g).
Proof. destruct s; [discriminate |]. intros H. cbn [match_direction]. now rewrite H. Qed.

Lemma match_direction_token f sp tok g :
  no_ws f = true -> sp <> "" -> all_ws sp = true ->
  match_here tok = None ->
  (if (tok =? "ASC")%string then Some "A"
   else if (tok =? "DESC")%string then Some "DE" else None) = Some g ->
  match_direction (f ++ sp ++ tok)%string = Some (f, g).
Proof.
  intros Hf Hne Hws Hm Hg. induction f as [| c f IH].
  - apply match_direction_here. simpl. apply match_here_token; assumption.
  - simpl in Hf. apply andb_prop in Hf as [Hc Hf]. apply negb_true_iff in Hc.
    simpl. rewrite Hc. rewrite IH by exact Hf. reflexivity.
Qed.

Lemma match_direction_no_ws f : no_ws f = true -> match_direction f = None.
Proof.
  induction f as [| c f IH]; [reflexivity |]. simpl. intros H.
  apply andb_prop in H as [Hc Hf]. apply negb_true_iff in Hc.
  rewrite Hc, IH by exact Hf. reflexivity.
Qed.

(** A run of white space and a token that is neither [ASC] nor [DESC] and
    starts with no white space: nothing is found. *)
Lemma match_here_other sp tok :
  all_ws sp = true ->
  match_here tok = None ->
  (tok =? "ASC")%string = false -> (tok =? "DESC")%string = false ->
  match_here (sp ++ tok)%string = None.
Proof.
  intros Hws Hm Ha Hd. induction sp as [| c r IH]; [exact Hm |].
  simpl in Hws. apply andb_prop in Hws as [Hc Hr]. simpl. rewrite Hc.
  rewrite IH by exact Hr.
  destruct r as [| c' r'].
  - simpl. now rewrite Ha, Hd.
  - simpl in Hr. apply andb_prop in Hr as [Hc' _].
    change ((String c' r' ++ tok)%string) with (String c' (r' ++ tok)).
    rewrite !ws_eqb_false; auto.
Qed.

Lemma match_direction_tail tok :
  match_direction tok = None -> forall sp, all_ws sp = true ->
  (tok =? "ASC")%string = false -> (tok =? "DESC")%string = false ->
  match_direction (sp ++ tok)%string = None.
Proof.
  intros Hm sp. induction sp as [| c r IH]; intros Hws Ha Hd; [exact Hm |].
  assert (match_here tok = None) as Hh.
  { destruct tok; [reflexivity |]. cbn [match_direction] in Hm.
    now destruct (match_here (String a tok)). }
  pose proof (match_here_other (String c r) tok Hws Hh Ha Hd) as H.
  simpl in Hws. apply andb_prop in Hws as [Hc Hr].
  change ((String c r ++ tok)%string) with (String c (r ++ tok)) in *.
  cbn [match_direction]. rewrite H. rewrite IH; auto.
Qed.

Lemma match_direction_other f sp tok :
  no_ws f = true -> all_ws sp = true ->
  match_direction tok = None ->
  (tok =? "ASC")%string = false -> (tok =? "DESC")%string = false ->
  match_direction (f ++ sp ++ tok)%string = None.
Proof.
  intros Hf Hws Hm Ha Hd. induction f as [| c f IH].
  - simpl. now apply match_direction_tail.
  - simpl in Hf. apply andb_prop in Hf as [Hc Hf]. apply negb_true_iff in Hc.
    change ((String c f ++ sp ++ tok)%string) with (String c (f ++ sp ++ tok)).
    cbn [match_direction match_here]. rewrite Hc, IH by exact Hf. reflexivity.
Qed.

Lemma trim_right_no_ws f : no_ws f = true -> trim_right f = f.
Proof.
  induction f as [| c f IH]; [reflexivity |]. simpl. intros H.
  apply andb_prop in H as [Hc Hf]. apply negb_true_iff in Hc.
  now rewrite Hc, IH.
Qed.

Lemma trim_no_ws f : no_ws f = true -> trim f = f.
Proof.
  intros H. unfold trim. destruct f as [| c f]; [reflexivity |].
  pose proof H as H'. simpl in H'. apply andb_prop in H' as [Hc _].
  apply negb_true_iff in Hc. cbn [trim_left]. rewrite Hc.
  now apply trim_right_no_ws.
Qed.

Lemma trim_right_app s t :
  trim_right t <> "" -> trim_right (s ++ t)%string = (s ++ trim_right t)%string.
Proof.
  intros H. induction s as [| c s IH]; [reflexivity |]. simpl. rewrite IH.
  destruct (s ++ trim_right t)%string eqn:E.
  - destruct s; [simpl in E; congruence | discriminate].
  - simpl. now rewrite andb_false_r.
Qed.

Lemma trim_entry f t :
  f <> "" -> no_ws f = true -> trim_right t = t -> t <> "" ->
  trim (f ++ t)%string = (f ++ t)%string.
Proof.
  intros Hne Hf Ht Hn. unfold trim. destruct f as [| c f]; [congruence |].
  simpl in Hf. apply andb_prop in Hf as [Hc _]. apply negb_true_iff in Hc.
  change ((String c f ++ t)%string) with (String c (f ++ t)).
  cbn [trim_left]. rewrite Hc.
  change (String c (f ++ t)) with ((String c f ++ t)%string).
  rewrite trim_right_app; rewrite Ht; auto.
Qed.

Lemma direction_token idNames model f sp tok g :
  no_ws f = true -> sp <> "" -> all_ws sp = true ->
  match_here tok = None ->
  (if (tok =? "ASC")%string then Some "A"
   else if (tok =? "DESC")%string then Some "DE" else None) = Some g ->
  MlOrig.direction idNames model (f ++ sp ++ tok) =
    (rewrite_key idNames "_uri" model f,
     match g with "DE" => (-1)%Z | _ => 1%Z end).
Proof.
  intros Hf Hne Hws Hm Hg. unfold MlOrig.direction. cbv zeta.
  rewrite (match_direction_token f sp tok g) by assumption.
  rewrite trim_no_ws by exact Hf. reflexivity.
Qed.

Lemma direction_bare idNames model f :
  no_ws f = true ->
  MlOrig.direction idNames model f = (rewrite_key idNames "_uri" model f, 1%Z).
Proof.
  intros Hf. unfold MlOrig.direction. cbv zeta.
  rewrite match_direction_no_ws, trim_no_ws by exact Hf. reflexivity.
Qed.

Lemma direction_other idNames model f sp tok :
  f <> "" -> no_ws f = true -> all_ws sp = true ->
  no_ws tok = true -> tok <> "" ->
  (tok =? "ASC")%string = false -> (tok =? "DESC")%string = false ->
  MlOrig.direction idNames model (f ++ sp ++ tok) =
    (rewrite_key idNames "_uri" model (f ++ sp ++ tok), 1%Z).
Proof.
  intros Hne Hf Hws Ht Hn Ha Hd. unfold MlOrig.direction. cbv zeta.
  rewrite match_direction_other; auto using match_direction_no_ws.
  rewrite trim_entry; auto.
  - rewrite trim_right_app; rewrite trim_right_no_ws; auto.
  - destruct sp; [exact Hn | discriminate].
Qed.

Lemma run_order_loop idNames model lo ss : forall acc w,
  heap w !! lo = Some (plain acc) ->
  ordinary_keys idNames model ss = true ->
  for_each (VStr <$> ss) (fun e =>
    '(key, dir) ← MlOrig.order_entry idNames model e;
    put_prop (VRef lo) key (VNum dir)) w =
  (Ret tt, World (<[lo := plain (order_props idNames model ss acc)]> (heap w)) (events w)).
Proof.
  induction ss as [| s ss IH]; intros acc w H Hord.
  - simpl. rewrite list_insert_id by exact H. now destruct w.
  - cbn [ordinary_keys forallb] in Hord. apply andb_prop in Hord as [Hs Hord].
    apply negb_true_iff in Hs.
    cbn [fmap list_fmap for_each]. rewrite run_bind.
    unfold MlOrig.order_entry at 1. rewrite run_bind, run_ret.
    destruct (MlOrig.direction idNames model s) as [key dir] eqn:E. simpl in Hs.
    rewrite (run_put_ref _ _ _ _ _ _ H), (accessor_ordinary _ _ Hs).
    rewrite (IH (set_own key (VNum dir) acc)).
    + cbn [heap events]. rewrite list_insert_insert_eq. unfold order_props.
      cbn [fold_left]. now rewrite E.
    + simpl. apply list_lookup_insert_eq. eapply lookup_lt_Some, H.
    + exact Hord.
Qed.

Arguments MlOrig.order_entry : simpl never.
Arguments MlOrig.direction : simpl never.
Arguments MlOrig.order_keys : simpl never.
Arguments for_each : simpl never.
Arguments order_props : simpl never.

Lemma run_order_keys la es w :
  heap w !! la = Some (OArr es) -> MlOrig.order_keys (VRef la) w = (Ret es, w).
Proof. intros H. unfold MlOrig.order_keys. now rewrite run_bind, (run_deref _ _ _ H). Qed.

Lemma run_sort_order_list idNames model lf c ps la ss w :
  heap w !! lf = Some (OObj c ps) ->
  lookup_prop "order" ps = Some (VRef la) ->
  heap w !! la = Some (OArr (VStr <$> ss)) ->
  ordinary_keys idNames model ss = true ->
  MlOrig.sort_order idNames model (VRef lf) w =
    (Ret (VRef (length (heap w))),
     World (heap w ++ [plain (order_props idNames model ss [])]) (events w)).
Proof.
  intros Hf Ho Ha Hord. destruct w as [h ev]. simpl in Hf, Ha.
  unfold MlOrig.sort_order. repeat mstep. rewrite Ho. simpl. repeat mstep.
  rewrite Ho. simpl. repeat mstep.
  erewrite run_order_keys by heap_lookup. simpl. repeat mstep.
  erewrite run_order_loop by (heap_lookup || exact Hord). simpl. repeat mstep.
  reflexivity.
Qed.

Lemma run_sort_order_string idNames model lf c ps s w :
  heap w !! lf = Some (OObj c ps) ->
  lookup_prop "order" ps = Some (VStr s) -> s <> "" ->
  ordinary_keys idNames model (split_comma "" s) = true ->
  MlOrig.sort_order idNames model (VRef lf) w =
    (Ret (VRef (length (heap w))),
     World (heap w ++ [plain (order_props idNames model (split_comma "" s) []);
                       OArr (VStr <$> split_comma "" s)]) (events w)).
Proof.
  intros Hf Ho Hs Hord. destruct w as [h ev]. simpl in Hf.
  assert (truthy (VStr s) = true) as T.
  { simpl. destruct s; [congruence | reflexivity]. }
  unfold MlOrig.sort_order. repeat mstep. rewrite Ho. cbn [or_undefined]. rewrite T.
  repeat mstep. rewrite Ho. cbn [or_undefined]. rewrite T. repeat mstep.
  erewrite run_order_keys by heap_lookup. simpl. repeat mstep.
  erewrite run_order_loop by (heap_lookup || exact Hord). simpl. repeat mstep.
  reflexivity.
Qed.

(** An identity name that is its own trimmed form and carries no direction
    token is rewritten to the locator, ascending. *)
Lemma direction_identity idNames model i rest :
  idNames model = i :: rest -> match_direction i = None -> trim i = i ->
  MlOrig.direction idNames model i = ("_uri", 1%Z).
Proof.
  intros E Hm Ht. unfold MlOrig.direction. cbv zeta. rewrite Hm, Ht.
  unfold is_id, idName. rewrite E. simpl. now rewrite String.eqb_refl.
Qed.

Lemma run_sort_order_none idNames model lf c ps w :
  heap w !! lf = Some (OObj c ps) ->
  truthy (or_undefined (lookup_prop "order" ps)) = false ->
  idNames model = [] ->
  exists lo w',
    MlOrig.sort_order idNames model (VRef lf) w = (Ret (VRef lo), w') /\
    heap w' !! lo = Some (plain [("_uri", VNum 1)]).
Proof.
  intros Hf Ho E. destruct w as [h ev]. simpl in Hf.
  unfold MlOrig.sort_order. repeat mstep. rewrite E, Ho; simpl.
  repeat mstep. rewrite Ho. repeat mstep.
  eexists _, _. split; [reflexivity |]. simpl.
  change (h ++ [plain []; OArr []; plain [("_uri", VNum 1)]])
    with (h ++ [plain []; OArr []] ++ [plain [("_uri", VNum 1)]]).
  rewrite app_assoc. apply lookup_fresh.
Qed.

Lemma run_sort_order_default idNames model lf c ps i rest w :
  heap w !! lf = Some (OObj c ps) ->
  truthy (or_undefined (lookup_prop "order" ps)) = false ->
  idNames model = i :: rest ->
  match_direction i = None -> trim i = i ->
  ordinary_keys idNames model rest = true ->
  exists lo w',
    MlOrig.sort_order idNames model (VRef lf) w = (Ret (VRef lo), w') /\
    heap w' !! lo = Some (plain (order_props idNames model rest [("_uri", VNum 1)])).
Proof.
  intros Hf Ho E Hm Ht Hrest. destruct w as [h ev]. simpl in Hf.
  pose proof (direction_identity idNames model i rest E Hm Ht) as D.
  unfold MlOrig.sort_order. repeat mstep. rewrite E, Ho; simpl. repeat mstep.
  assert (lf < length h) as Hlt by (eapply lookup_lt_Some, Hf).
  match goal with
  | |- context [get_prop (VRef lf) "order" (World ?h' ev)] => set (h1 := h')
  end.
  assert (h1 !! lf = Some (OObj c (set_own "order" (VRef (S (length h))) ps))) as H1.
  { apply list_lookup_insert_eq. rewrite length_app. lia. }
  assert (h1 !! S (length h) = Some (OArr (VStr <$> i :: rest))) as H2.
  { unfold h1. rewrite list_lookup_insert_ne by lia. apply lookup_fresh_next. }
  assert (h1 !! length h = Some (plain [])) as H3.
  { unfold h1. rewrite list_lookup_insert_ne by lia. apply lookup_fresh. }
  assert (ordinary_keys idNames model (i :: rest) = true) as Hord.
  { unfold ordinary_keys in *. cbn [forallb]. now rewrite D, Hrest. }
  rewrite (run_get_ref lf _ "order" (World h1 ev) H1). simpl.
  rewrite lookup_set_own_eq. simpl.
  rewrite run_bind, run_ret. rewrite run_bind, (run_order_keys _ _ (World h1 ev) H2).
  rewrite run_bind,
    (run_order_loop idNames model (length h) (i :: rest) [] (World h1 ev) H3 Hord).
  rewrite run_ret. eexists _, _. split; [reflexivity |]. simpl.
  rewrite list_lookup_insert_eq by (unfold h1; rewrite length_insert, length_app; simpl; lia).
  unfold order_props. cbn [fold_left]. rewrite D. simpl.
  now rewrite set_own_empty.
Qed.

(** C4, as the code has it: with no ordering requested the sort
    specification starts with the locator ascending, [{_uri: 1}] (alone when
    the model has no or one identity field, any further identity field
    following it); an explicit ordering is taken entry after entry, and the
    direction token of an entry is recognized in upper case only: [f DESC]
    orders [f] descending, [f ASC] and [f] ascending, while [f desc] and
    [f asc] order ascending a field of that whole name. *)
Theorem sort_order_directions idNames model w :
  (forall lf c ps,
     heap w !! lf = Some (OObj c ps) ->
     truthy (or_undefined (lookup_prop "order" ps)) = false ->
     (idNames model = [] ->
      exists lo w',
        MlOrig.sort_order idNames model (VRef lf) w = (Ret (VRef lo), w') /\
        heap w' !! lo = Some (plain [("_uri", VNum 1)])) /\
     (forall i rest,
        idNames model = i :: rest ->
        match_direction i = None -> trim i = i ->
        ordinary_keys idNames model rest = true ->
        exists lo w',
          MlOrig.sort_order idNames model (VRef lf) w = (Ret (VRef lo), w') /\
          heap w' !! lo =
            Some (plain (order_props idNames model rest [("_uri", VNum 1)])))) /\
  (forall lf c ps la ss,
     heap w !! lf = Some (OObj c ps) ->
     lookup_prop "order" ps = Some (VRef la) ->
     heap w !! la = Some (OArr (VStr <$> ss)) ->
     ordinary_keys idNames model ss = true ->
     MlOrig.sort_order idNames model (VRef lf) w =
       (Ret (VRef (length (heap w))),
        World (heap w ++ [plain (order_props idNames model ss [])]) (events w))) /\
  (forall lf c ps s,
     heap w !! lf = Some (OObj c ps) ->
     lookup_prop "order" ps = Some (VStr s) -> s <> "" ->
     ordinary_keys idNames model (split_comma "" s) = true ->
     MlOrig.sort_order idNames model (VRef lf) w =
       (Ret (VRef (length (heap w))),
        World (heap w ++ [plain (order_props idNames model (split_comma "" s) []);
                          OArr (VStr <$> split_comma "" s)]) (events w))) /\
  (forall f sp,
     no_ws f = true -> sp <> "" -> all_ws sp = true ->
     MlOrig.direction idNames model (f ++ sp ++ "DESC") =
       (rewrite_key idNames "_uri" model f, (-1)%Z) /\
     MlOrig.direction idNames model (f ++ sp ++ "ASC") =
       (rewrite_key idNames "_uri" model f, 1%Z) /\
     MlOrig.direction idNames model f =
       (rewrite_key idNames "_uri" model f, 1%Z) /\
     (f <> "" ->
      MlOrig.direction idNames model (f ++ sp ++ "desc") =
        (rewrite_key idNames "_uri" model (f ++ sp ++ "desc"), 1%Z) /\
      MlOrig.direction idNames model (f ++ sp ++ "asc") =
        (rewrite_key idNames "_uri" model (f ++ sp ++ "asc"), 1%Z))).
Proof.
  split; [| split; [| split]].
  - intros lf c ps Hf Ho. split.
    + now apply (run_sort_order_none idNames model lf c ps).
    + intros i rest. now apply (run_sort_order_default idNames model lf c ps).
  - intros *. apply run_sort_order_list.
  - intros *. apply run_sort_order_string.
  - intros f sp Hf Hne Hws. split; [| split; [| split]].
    + now apply (direction_token idNames model f sp "DESC" "DE").
    + now apply (direction_token idNames model f sp "ASC" "A").
    + now apply direction_bare.
    + intros Hn. split; apply direction_other; auto; discriminate.
Qed.

Lemma sort_order_directions_witness :
  (exists lo w',
     MlOrig.sort_order (fun _ => ["id"]) "Widget" (VRef 0)
       (World [plain [("limit", VNum 10)]] []) = (Ret (VRef lo), w') /\
     heap w' !! lo = Some (plain [("_uri", VNum 1)])) /\
  (exists lo w',
     MlOrig.sort_order (fun _ => ["my id"]) "Widget" (VRef 0)
       (World [plain [("limit", VNum 10)]] []) = (Ret (VRef lo), w') /\
     heap w' !! lo = Some (plain [("_uri", VNum 1)])) /\
  (exists lo w',
     MlOrig.sort_order (fun _ => ["a"; "b"]) "Widget" (VRef 0)
       (World [plain [("limit", VNum 10)]] []) = (Ret (VRef lo), w') /\
     heap w' !! lo = Some (plain [("_uri", VNum 1); ("b", VNum 1)])) /\
  (exists lo w',
     MlOrig.sort_order (fun _ => []) "Widget" (VRef 0)
       (World [plain [("limit", VNum 10)]] []) = (Ret (VRef lo), w') /\
     heap w' !! lo = Some (plain [("_uri", VNum 1)])) /\
  MlOrig.sort_order (fun _ => ["id"]) "Widget" (VRef 0) (World filter_order_list []) =
    (Ret (VRef 2),
     World (filter_order_list ++
            [plain [("name", VNum (-1)); ("age", VNum 1); ("_uri", VNum 1)]]) []) /\
  MlOrig.direction (fun _ => ["id"]) "Widget" ("name" ++ " " ++ "DESC") =
    ("name", (-1)%Z).
Proof.
  split; [| split; [| split; [| split; [| split]]]].
  - apply (proj2 (proj1 (sort_order_directions (fun _ => ["id"]) "Widget"
                           (World [plain [("limit", VNum 10)]] []))
                    0 (Some "Object") [("limit", VNum 10)] eq_refl eq_refl)
             "id" []); reflexivity.
  - apply (proj2 (proj1 (sort_order_directions (fun _ => ["my id"]) "Widget"
                           (World [plain [("limit", VNum 10)]] []))
                    0 (Some "Object") [("limit", VNum 10)] eq_refl eq_refl)
             "my id" []); reflexivity.
  - apply (proj2 (proj1 (sort_order_directions (fun _ => ["a"; "b"]) "Widget"
                           (World [plain [("limit", VNum 10)]] []))
                    0 (Some "Object") [("limit", VNum 10)] eq_refl eq_refl)
             "a" ["b"]); reflexivity.
  - apply (proj1 (proj1 (sort_order_directions (fun _ => []) "Widget"
                           (World [plain [("limit", VNum 10)]] []))
                    0 (Some "Object") [("limit", VNum 10)] eq_refl eq_refl)).
    reflexivity.
  - apply (proj1 (proj2 (sort_order_directions (fun _ => ["id"]) "Widget"
                           (World filter_order_list [])))
             0 (Some "Object") [("order", VRef 1)] 1 ["name DESC"; "age"; "id ASC"]);
      reflexivity.
  - apply (proj2 (proj2 (proj2 (sort_order_directions (fun _ => ["id"]) "Widget"
                                  (World [] [])))) "name" " ");
      [reflexivity | discriminate | reflexivity].
Defined.

(** C4 as stated fails: the lower-case ['name desc'] is not taken as a
    direction; it orders ascending by a field named ['name desc'], where
    ['name DESC'] orders [name] descending. *)
Lemma sort_order_lower_case_suffix :
  exists w',
    MlOrig.sort_order (fun _ => ["id"]) "Widget" (VRef 0)
      (World [plain [("order", VStr "name desc")]] []) = (Ret (VRef 1), w') /\
    heap w' !! 1 = Some (plain [("name desc", VNum 1)]) /\
    heap w' !! 1 <> Some (plain [("name", VNum (-1))]).
Proof.
  eexists. split; [reflexivity |]. split; [reflexivity | discriminate].
Qed.

(** ** Completions of the document-API connector *)

Lemma completions_app es es' :
  completions (es ++ es') = completions es + completions es'.
Proof.
  induction es as [| [] es IH]; simpl; [reflexivity | exact IH | now rewrite IH].
Qed.

Lemma run_then_rejected reason f w : then_ (Rejected reason) f w = (Ret tt, w).
Proof. reflexivity. Qed.

(** C1 fails on [create] (lines 129-148): when the store rejects the write,
    nothing follows the request; the completion callback is never invoked,
    whatever it is. *)
Theorem create_rejected_never_completes model data options callback reason w :
  Ml.create true model data options callback (Rejected reason) w =
    (Ret tt,
     World (heap w ++
            [OArr [VStr model];
             plain [("extension", VStr "json"); ("directory", VStr (model ++ "/"));
                    ("content", data); ("contentType", VStr "application/json");
                    ("collections", VRef (length (heap w)))]])
           (events w ++ [Request "documents.write" [VRef (S (length (heap w)))]])) /\
  completions (events (Ml.create true model data options callback (Rejected reason) w).2) =
    completions (events w).
Proof.
  destruct w as [h ev].
  assert (Ml.create true model data options callback (Rejected reason) (World h ev) =
    (Ret tt,
     World (h ++
            [OArr [VStr model];
             plain [("extension", VStr "json"); ("directory", VStr (model ++ "/"));
                    ("content", data); ("contentType", VStr "application/json");
                    ("collections", VRef (length h))]])
           (ev ++ [Request "documents.write" [VRef (S (length h))]]))) as E.
  { unfold Ml.create, Ml.db_call. repeat mstep. reflexivity. }
  split; [exact E |]. rewrite E. simpl. rewrite completions_app. simpl. lia.
Qed.

(** The same on [destroyAll] (lines 320-349): a filter that names no
    locator issues no request and never completes. *)
Lemma destroyAll_without_locator :
  Ml.destroyAll ids any_regexp same true 1 "Widget" (VRef 0) VUndefined
    (Some complete) (Resolved VUndefined)
    (World [plain [("name", VStr "a")]] []) =
  (Ret tt, World [plain [("name", VStr "a")]; plain [("name", VStr "a")]] []).
Proof. reflexivity. Qed.

(** When the write is acknowledged, [create] completes once, with the
    locator the store assigned. *)
Lemma create_resolved_completes_once :
  exists w',
    Ml.create true "Widget" (VRef 0) VUndefined (Some complete) (Resolved (VRef 1))
      (World widget_created []) = (Ret tt, w') /\
    events w' = [Request "documents.write" [VRef 5];
                 Complete [VNull; VStr "Widget/ab12.json"]] /\
    heap w' !! 0 = Some (plain [("name", VStr "a"); ("id", VStr "Widget/ab12.json")]).
Proof. eexists. split; [cbv; reflexivity |]. split; reflexivity. Qed.

Lemma put_prop_events v k x w : events (put_prop v k x w).2 = events w.
Proof.
  destruct v; try reflexivity. unfold put_prop. rewrite run_bind. unfold deref.
  destruct (heap w !! l) as [[c ps | | |] |]; try reflexivity.
  now destruct (accessor k ps).
Qed.

(** The handler of [create] and [save] completes at most once. *)
Lemma written_completes_at_most_once data response w :
  let w' := (Ml.written data (Some complete) response w).2 in
  events w' = events w \/ exists args, events w' = events w ++ [Complete args].
Proof.
  unfold Ml.written. cbv zeta.
  repeat match goal with
  | |- context [(get_prop ?v ?k ≫= ?f) ?w0] =>
      rewrite (run_bind (get_prop v k) f w0);
      let R := fresh "R" in
      pose proof (readonly_get_prop v k w0) as R;
      destruct (get_prop v k w0) as [[? | ? |] ?]; simpl in R; subst;
      try (left; reflexivity)
  end.
  rewrite run_bind. pose proof (put_prop_events data "id" a1 w) as E.
  destruct (put_prop data "id" a1 w) as [[[] | ? |] w1]; simpl in E;
    try (left; exact E).
  rewrite run_bind. pose proof (readonly_get_prop data "id" w1) as R.
  destruct (get_prop data "id" w1) as [[? | ? |] ?]; simpl in R; subst;
    try (left; exact E).
  right. eexists. unfold call, complete. rewrite run_emit. simpl. now rewrite E.
Qed.

(** [create] (lines 129-148) never completes twice, however the write
    settles. *)
Lemma create_completes_at_most_once model data options reply w :
  completions (events (Ml.create true model data options (Some complete) reply w).2)
    <= S (completions (events w)).
Proof.
  unfold Ml.create, Ml.db_call. repeat mstep.
  set (w1 := World _ _).
  assert (completions (events w1) = completions (events w)) as E1.
  { unfold w1. cbn [events]. rewrite completions_app. cbn [completions]. apply Nat.add_0_r. }
  clearbody w1.
  destruct reply as [response | reason]; [| rewrite run_then_rejected; simpl; lia].
  unfold then_.
  pose proof (written_completes_at_most_once data response w1) as H. cbv zeta in H.
  destruct (Ml.written data (Some complete) response w1) as [[[] | e |] w2];
    cbn [fst snd events] in *; destruct H as [-> | [args ->]];
    rewrite ?completions_app; cbn [completions]; lia.
Qed.

(** ** Update-all *)

(** C2 fails on the document-API [updateAll] (lines 403-415): the filter is
    handed to [all] as if it were [{where: ...}], so the store is asked for
    the whole collection; when the answer is empty nothing follows, and the
    completion callback is never invoked. *)
Theorem updateAll_no_match_never_completes idNames regexp_ok unescape fuel :
  Ml.updateAll idNames regexp_ok unescape true fuel "Widget" (VRef 0) (VRef 1) VUndefined
    (Some complete) (Resolved (VRef 2)) (Resolved VUndefined) (World nobody []) =
  (Ret tt,
   World (nobody ++ [plain []; OArr []])
         [Request "queryCollection" [VStr "Widget"; VRef 3]]).
Proof. reflexivity. Qed.

(** When the collection holds a document, which the filter does not match,
    that document is written over with the update payload. *)
Lemma updateAll_no_match_overwrites idNames regexp_ok unescape fuel :
  exists w',
    Ml.updateAll idNames regexp_ok unescape true fuel "Widget" (VRef 0) (VRef 1) VUndefined
      (Some complete) (Resolved (VRef 2)) (Resolved (VRef 5)) (World somebody []) =
      (Ret tt, w') /\
    events w' = [Request "queryCollection" [VStr "Widget"; VRef 8];
                 Request "documents.write" [VRef 10];
                 Complete [VNull; VStr "Widget/1.json"]] /\
    heap w' !! 8 = Some (plain []) /\
    heap w' !! 10 = Some (plain [("uri", VStr "Widget/1.json"); ("content", VRef 1);
                                 ("contentType", VStr "application/json")]).
Proof. eexists. split; [cbv; reflexivity |]. repeat split. Qed.

(** The collection-command [updateAll] (lines 1111-1136) does what the
    claim says: one multi-document update without upsert, then a single
    completion with the count the store reports. *)
Lemma orig_updateAll_no_match :
  exists w',
    MlOrig.updateAll ids any_regexp (VBool false) (VRef 4) (VRef 11) 1 "Widget"
      (VRef 0) (VRef 1) VUndefined (Some complete) (VNull, VRef 2)
      (World (nobody_updated ++ widget_connector 4) []) = (Ret tt, w') /\
    events w' = [Request "queryCollection" [VStr "Widget"];
                 Request "update" [VRef 12; VRef 13; VRef 14];
                 Complete [VNull; VRef 15]] /\
    heap w' !! 12 = Some (plain [("name", VStr "nobody")]) /\
    heap w' !! 13 = Some (plain [("$set", VRef 1)]) /\
    heap w' !! 14 = Some (plain [("multi", VBool true); ("upsert", VBool false)]) /\
    heap w' !! 15 = Some (plain [("count", VNum 0)]).
Proof. eexists. split; [cbv; reflexivity |]. repeat split. Qed.

(** ** Update-attributes *)

(** C8 fails on the document-API [updateAttributes] (lines 383-394): no
    lookup is made; the payload is written at the locator, and once the
    store acknowledges the write the completion carries no error. *)
Theorem updateAttributes_writes_unseen :
  exists w',
    Ml.updateAttributes true "Widget" (VStr "Widget/x.json") (VRef 0) VUndefined
      (Some complete) (Resolved (VRef 1)) (World absent []) = (Ret tt, w') /\
    events w' = [Request "documents.write" [VRef 4];
                 Complete [VNull; VStr "Widget/x.json"]] /\
    heap w' !! 4 = Some (plain [("uri", VStr "Widget/x.json"); ("content", VRef 0);
                                ("contentType", VStr "application/json")]).
Proof. eexists. split; [cbv; reflexivity |]. repeat split. Qed.

(** The collection-command [updateAttributes] (lines 1076-1102) does what
    the claim says: a match-and-modify without upsert, and on a miss a
    single completion whose error names the model and the locator. *)
Lemma orig_updateAttributes_missing :
  exists w',
    MlOrig.updateAttributes ids (VBool false) (VRef 2) (VRef 9) "Widget"
      (VStr "Widget/x.json") (VRef 0) VUndefined (Some complete) (VNull, VRef 1)
      (World (absent_modify ++ widget_connector 2) []) = (Ret tt, w') /\
    events w' = [Request "queryCollection" [VStr "Widget"];
                 Request "findAndModify" [VRef 11; VRef 13; VRef 10; VRef 14];
                 Complete [VStr "No Widget found for uri Widget/x.json"; VNull]] /\
    heap w' !! 11 = Some (plain [("_uri", VStr "Widget/x.json")]) /\
    heap w' !! 14 = Some (plain []).
Proof. eexists. split; [cbv; reflexivity |]. repeat split. Qed.

(** ** Update-or-create *)

(** C7 fails on [updateOrCreate] (lines 771-811): the locator is read into
    [id], but the criteria are built from [uri], a name nothing binds; for
    every record the call raises before any request reaches the store, and
    the completion callback is never invoked. *)
Theorem updateOrCreate_unbound_uri idNames flag self handle model ld c ps options
    callback reply w :
  heap w !! ld = Some (OObj c ps) ->
  exists w',
    MlOrig.updateOrCreate idNames flag self handle model (VRef ld) options callback reply w =
      (Raise (ReferenceError "uri"), w') /\
    events w' = events w.
Proof.
  intros H. destruct w as [h ev]. simpl in H.
  unfold MlOrig.updateOrCreate, MlOrig.getIdValue. simpl truthy. cbv iota.
  rewrite run_bind. erewrite run_get_ref by exact H. cbv beta iota.
  rewrite run_bind. erewrite run_delete_ref by exact H. cbv beta iota.
  cbn [heap events].
  set (w1 := World (<[ld := _]> h) ev).
  assert (exists o, heap w1 !! ld = Some o) as [o Ho].
  { eexists. apply list_lookup_insert_eq. eapply lookup_lt_Some, H. }
  rewrite run_bind.
  destruct (strict_eq flag (VBool true)) eqn:F.
  - apply strict_eq_true in F. subst flag.
    rewrite (run_parseUpdateData_on model ld o w1 Ho). cbv beta iota.
    eexists. split; reflexivity.
  - assert (flag <> VBool true) as F'.
    { intros ->. discriminate. }
    rewrite (run_parseUpdateData_off flag model (VRef ld) w1 F'). cbv beta iota.
    eexists. split; reflexivity.
Qed.

Lemma updateOrCreate_unbound_uri_witness :
  exists w',
    MlOrig.updateOrCreate ids (VBool false) (VRef 4) (VRef 11) "Widget" (VRef 0) VUndefined
      (Some complete) (VNull, VRef 1) (World (widget_record ++ widget_connector 4) []) =
      (Raise (ReferenceError "uri"), w') /\
    events w' = [].
Proof.
  apply (updateOrCreate_unbound_uri ids (VBool false) (VRef 4) (VRef 11) "Widget" 0
           (Some "Object")
           [("id", VStr "Widget/1.json"); ("name", VStr "a")] VUndefined
           (Some complete) (VNull, VRef 1) (World (widget_record ++ widget_connector 4) [])).
  reflexivity.
Defined.

(** ** Completions of the collection-command connector *)

Lemma stable_ret {A} (a : A) : stable (mret a : M A).
Proof. intros h ev x [= ->] t ev'. reflexivity. Qed.

Lemma stable_get_prop v k : stable (get_prop v k).
Proof. intros h ev x H t ev'. now apply get_prop_grown with (ev := ev). Qed.

Lemma stable_bind {A B} (m : M A) (f : A -> M B) :
  readonly m -> stable m -> (forall a, stable (f a)) -> stable (m ≫= f).
Proof.
  intros Rm Sm Sf h ev x H t ev'. rewrite run_bind in H. rewrite run_bind.
  pose proof (Rm (World h ev)) as R.
  destruct (m (World h ev)) as [[a | e |] w1] eqn:E; simpl in R; subst w1;
    try discriminate.
  rewrite (Sm h ev a E t ev'). now apply (Sf a h ev).
Qed.

Lemma readonly_or_m a b : readonly a -> readonly b -> readonly (or_m a b).
Proof.
  intros Ra Rb. unfold or_m. apply readonly_bind; [exact Ra |].
  intros x. destruct (truthy x); [apply readonly_ret | exact Rb].
Qed.

Lemma stable_or_m a b : readonly a -> stable a -> stable b -> stable (or_m a b).
Proof.
  intros Ra Sa Sb. unfold or_m. apply stable_bind; [exact Ra | exact Sa |].
  intros x. destruct (truthy x); [apply stable_ret | exact Sb].
Qed.

Lemma readonly_collectionName self model : readonly (collectionName self model).
Proof.
  unfold collectionName.
  do 4 (apply readonly_bind; [apply readonly_get_prop | intros ?]).
  destruct (truthy _); [| apply readonly_ret].
  do 2 (apply readonly_bind; [apply readonly_get_prop | intros ?]).
  apply readonly_or_m; [apply readonly_get_prop | apply readonly_ret].
Qed.

Lemma stable_collectionName self model : stable (collectionName self model).
Proof.
  unfold collectionName.
  do 4 (apply stable_bind; [apply readonly_get_prop | apply stable_get_prop | intros ?]).
  destruct (truthy _); [| apply stable_ret].
  do 2 (apply stable_bind; [apply readonly_get_prop | apply stable_get_prop | intros ?]).
  apply stable_or_m; [apply readonly_get_prop | apply stable_get_prop | apply stable_ret].
Qed.

(** A connector keeps serving when the heap grows. *)
Lemma serves_grown h t self model name :
  serves h self model name -> serves (h ++ t) self model name.
Proof.
  intros H handle ev. specialize (H handle []). unfold collection in *.
  rewrite run_bind in H. rewrite run_bind.
  pose proof (readonly_get_prop self "db" (World h [])) as R.
  destruct (get_prop self "db" (World h [])) as [[db | e |] w1] eqn:E; simpl in R; subst w1;
    try discriminate.
  rewrite (get_prop_grown _ _ _ _ _ t ev E).
  destruct (truthy db); [| discriminate].
  rewrite run_bind in H. rewrite run_bind.
  pose proof (readonly_collectionName self model (World h [])) as R.
  destruct (collectionName self model (World h [])) as [[n | e |] w1] eqn:E2;
    simpl in R; subst w1; try discriminate.
  rewrite (stable_collectionName self model h [] n E2 t ev).
  rewrite run_bind, run_emit in H. rewrite run_bind, run_emit.
  rewrite run_ret in H. rewrite run_ret. simpl in *. now injection H as <-.
Qed.

Lemma serves_grows w w' self model name :
  grows w w' -> serves (heap w) self model name -> serves (heap w') self model name.
Proof. intros G H. rewrite (grows_prefix _ _ G). now apply serves_grown. Qed.

(** [execute] on a connector that serves: the collection is asked for, the
    command follows, and the handler runs on the reply. *)
Lemma run_execute self lh model name command params callback reply w :
  serves (heap w) self model name ->
  MlOrig.execute self (VRef lh) model command params callback reply w =
    callback reply.1 reply.2
      (World (heap w)
             (events w ++ [Request "queryCollection" [name]; Request command params])).
Proof.
  intros H. destruct w as [h ev]. cbn [heap events] in *. unfold MlOrig.execute.
  rewrite run_bind, (H (VRef lh) ev). cbv beta iota. unfold invoke.
  rewrite run_bind, run_emit. cbv beta iota. cbn [heap events].
  now rewrite <- app_assoc.
Qed.

Lemma buildWhere_events idNames regexp_ok locator fuel model where_ w r w1 :
  buildWhere idNames regexp_ok locator fuel model where_ w = (r, w1) ->
  events w1 = events w.
Proof.
  intros H. pose proof (buildWhere_grows idNames regexp_ok locator fuel model where_ w) as G.
  rewrite H in G. apply G.
Qed.

(** [count] (lines 1056-1068): once the filter is translated, the
    collection is asked for, then one request and one completion, which
    hands on what the store answered, error or count. *)
Lemma orig_count_completes_once idNames regexp_ok self lh name fuel model where_ options
    err n w q w1 :
  serves (heap w) self model name ->
  MlOrig.buildWhere idNames regexp_ok fuel model where_ w = (Ret q, w1) ->
  MlOrig.count idNames regexp_ok self (VRef lh) fuel model where_ options (Some complete)
    (err, n) w =
    (Ret tt,
     World (heap w1)
           (events w ++ [Request "queryCollection" [name]; Request "count" [q];
                         Complete [err; n]])).
Proof.
  intros Hs H. pose proof (buildWhere_events _ _ _ _ _ _ _ _ _ H) as E.
  pose proof (buildWhere_grows idNames regexp_ok "_uri" fuel model where_ w) as G.
  unfold MlOrig.buildWhere in H. rewrite H in G. cbn [snd] in G.
  unfold MlOrig.count, MlOrig.buildWhere. rewrite run_bind, H. cbv beta iota.
  rewrite (run_execute self lh model name) by exact (serves_grows _ _ _ _ _ G Hs).
  unfold call_guarded, complete. cbn [fst snd]. rewrite run_emit. cbn [heap events].
  now rewrite E, <- app_assoc.
Qed.

(** [destroyAll] (lines 1026-1046), the code that lines 337-348 keep as a
    comment: an error of the store is handed on, once. *)
Lemma orig_destroyAll_reports_error idNames regexp_ok self lh name fuel model where_
    options err info w q w1 :
  serves (heap w) self model name ->
  MlOrig.buildWhere idNames regexp_ok fuel model where_ w = (Ret q, w1) ->
  truthy err = true ->
  MlOrig.destroyAll idNames regexp_ok self (VRef lh) fuel model where_ options
    (Some complete) (err, info) w =
    (Ret tt,
     World (heap w1)
           (events w ++ [Request "queryCollection" [name]; Request "remove" [q];
                         Complete [err]])).
Proof.
  intros Hs H T. pose proof (buildWhere_events _ _ _ _ _ _ _ _ _ H) as E.
  pose proof (buildWhere_grows idNames regexp_ok "_uri" fuel model where_ w) as G.
  unfold MlOrig.buildWhere in H. rewrite H in G. cbn [snd] in G.
  unfold MlOrig.destroyAll, MlOrig.buildWhere. rewrite run_bind, H. cbv beta iota.
  rewrite (run_execute self lh model name) by exact (serves_grows _ _ _ _ _ G Hs).
  unfold call_guarded, complete. cbn [fst snd]. rewrite T, run_emit. cbn [heap events].
  now rewrite E, <- app_assoc.
Qed.

(** And without an error the count the store reports is handed on, once. *)
Lemma orig_destroyAll_completes_once idNames regexp_ok self lh name fuel model where_
    options err li ci pi lr o w q w1 :
  serves (heap w) self model name ->
  MlOrig.buildWhere idNames regexp_ok fuel model where_ w = (Ret q, w1) ->
  truthy err = false ->
  heap w !! li = Some (OObj ci pi) ->
  lookup_prop "result" pi = Some (VRef lr) ->
  heap w !! lr = Some o ->
  MlOrig.destroyAll idNames regexp_ok self (VRef lh) fuel model where_ options
    (Some complete) (err, VRef li) w =
    (Ret tt,
     World (heap w1 ++ [plain [("count", own_prop o "n")]])
           (events w ++ [Request "queryCollection" [name]; Request "remove" [q];
                         Complete [err; VRef (length (heap w1))]])).
Proof.
  intros Hs H T Hi Hr Ho. pose proof (buildWhere_events _ _ _ _ _ _ _ _ _ H) as E.
  pose proof (buildWhere_grows idNames regexp_ok "_uri" fuel model where_ w) as P.
  unfold MlOrig.buildWhere in H. rewrite H in P. simpl in P.
  pose proof (serves_grows _ _ _ _ _ P Hs) as Hs1.
  destruct P as (_ & _ & Hold).
  rewrite <- Hold in Hi by (eapply lookup_lt_Some, Hi).
  rewrite <- Hold in Ho by (eapply lookup_lt_Some, Ho).
  destruct w1 as [h1 ev1]. simpl in Hi, Ho, E, Hs1. subst ev1.
  unfold MlOrig.destroyAll, MlOrig.buildWhere. rewrite run_bind, H. cbv beta iota.
  rewrite (run_execute self lh model name) by exact Hs1.
  unfold call_guarded, complete. cbn [fst snd heap events]. rewrite T.
  repeat mstep. rewrite Hr. simpl. repeat mstep. reflexivity.
Qed.

(** Carried to the reads: a count whose filter is no mapping asks the store
    with the empty query, as an unfiltered count does. *)
Lemma orig_count_not_mapping idNames regexp_ok self lh name fuel model where_ options
    err n w :
  serves (heap w) self model name ->
  where_ = VNull \/ typeof where_ <> "object" ->
  MlOrig.count idNames regexp_ok self (VRef lh) (S fuel) model where_ options
    (Some complete) (err, n) w =
    (Ret tt,
     World (heap w ++ [plain []])
           (events w ++ [Request "queryCollection" [name];
                         Request "count" [VRef (length (heap w))]; Complete [err; n]])).
Proof.
  intros Hs H.
  apply (orig_count_completes_once idNames regexp_ok self lh name (S fuel) model where_
           options err n w (VRef (length (heap w)))
           (World (heap w ++ [plain []]) (events w)) Hs).
  now apply run_buildWhere_empty, not_mapping_test.
Qed.

(** And a filtered read whose [where] is no mapping asks the store with the
    empty query (shown on the reply that fails, which ends the read at once). *)
Lemma orig_all_not_mapping idNames regexp_ok self lh name fromDatabase include fuel model
    lf c ps where_ options err cursor reply' w :
  serves (heap w) self model name ->
  heap w !! lf = Some (OObj c ps) ->
  lookup_prop "where" ps = Some where_ ->
  where_ = VNull \/ typeof where_ <> "object" ->
  truthy err = true ->
  exists q rest w',
    MlOrig.all idNames regexp_ok self (VRef lh) fromDatabase include (S fuel) model
      (VRef lf) options (Some complete) (err, cursor) reply' w = (Ret tt, w') /\
    events w' = events w ++ [Request "queryCollection" [name];
                             Request "find" (VRef q :: rest); Complete [err]] /\
    heap w' !! q = Some (plain []).
Proof.
  intros Hs Hf Hw Hnm Herr. destruct w as [h ev]. simpl in Hf, Hs.
  assert (forall k, exists v, forall w0, get_prop where_ k w0 = (Ret v, w0) \/ truthy where_ = false)
    as Hget.
  { intros k. destruct where_; try (exists VUndefined; intros; now right);
      try (eexists; intros; left; reflexivity).
    destruct Hnm as [? | N]; [discriminate | now elim N]. }
  assert (forall k w0, delete_prop where_ k w0 = (Ret tt, w0) \/ truthy where_ = false) as Hdel.
  { intros k w0. destruct where_; auto.
    destruct Hnm as [? | N]; [discriminate | now elim N]. }
  assert (forall k x w0, put_prop where_ k x w0 = (Ret tt, w0) \/ truthy where_ = false) as Hput.
  { intros k x w0. destruct where_; auto.
    destruct Hnm as [? | N]; [discriminate | now elim N]. }
  unfold MlOrig.all. simpl truthy. cbv iota. repeat mstep. rewrite Hw. cbn [or_undefined].
  unfold call, complete.
  destruct (truthy where_) eqn:T.
  - destruct (Hget (key_of (MlOrig.idValue idNames model))) as [u Hu].
    rewrite run_bind. destruct (Hu (World (h ++ [plain []]) ev)) as [-> | ?]; [| congruence].
    cbv beta iota. rewrite run_bind.
    assert ((if truthy u
             then delete_prop where_ (key_of (MlOrig.idValue idNames model));;
                  put_prop where_ "_uri" u
             else mret ()) (World (h ++ [plain []]) ev) =
            (Ret tt, World (h ++ [plain []]) ev)) as ->.
    { destruct (truthy u); [| reflexivity]. rewrite run_bind.
      destruct (Hdel (key_of (MlOrig.idValue idNames model)) (World (h ++ [plain []]) ev))
        as [-> | ?]; [| congruence].
      cbv beta iota.
      destruct (Hput "_uri" u (World (h ++ [plain []]) ev)) as [-> | ?]; [| congruence].
      reflexivity. }
    cbv beta iota. unfold MlOrig.buildWhere.
    rewrite (run_buildWhere_empty idNames regexp_ok "_uri" fuel model where_ _
               (not_mapping_test _ Hnm)).
    simpl. repeat mstep.
    rewrite (run_execute self lh model name)
      by (cbn [heap]; change (h ++ [plain []; plain []]) with (h ++ [plain []; plain []]);
          apply serves_grown; exact Hs).
    cbn [fst snd]. rewrite Herr. repeat mstep.
    destruct (truthy (or_undefined (lookup_prop "fields" ps)));
      (eexists _, _, _; split; [reflexivity |]; split;
       [cbn [events]; rewrite <- ?app_assoc; reflexivity |]);
      simpl; apply lookup_fresh_next.
  - repeat mstep.
    rewrite (run_execute self lh model name) by (cbn [heap]; apply serves_grown; exact Hs).
    cbn [fst snd]. rewrite Herr. repeat mstep.
    destruct (truthy (or_undefined (lookup_prop "fields" ps)));
      (eexists _, _, _; split; [reflexivity |]; split;
       [cbn [events]; rewrite <- ?app_assoc; reflexivity |]);
      simpl; apply lookup_fresh.
Qed.

(** ** More of the filter translator *)

Lemma run_for_each_nil {A} (f : A -> M unit) w : for_each [] f w = (Ret tt, w).
Proof. reflexivity. Qed.

Lemma run_for_each_cons {A} (x : A) xs (f : A -> M unit) w :
  for_each (x :: xs) f w = (f x ;; for_each xs f) w.
Proof. reflexivity. Qed.

(** Locations of objects allocated in a row. *)
Ltac heap_eq := repeat f_equal; rewrite ?length_app; simpl; lia.

Lemma run_for_each_one {A} (x : A) (f : A -> M unit) w : for_each [x] f w = f x w.
Proof.
  rewrite run_for_each_cons, run_bind.
  destruct (f x w) as [[[] | e |] w']; reflexivity.
Qed.

Lemma lookup_prop_in k v ps : lookup_prop k ps = Some v -> (k, v) ∈ ps.
Proof.
  induction ps as [| [k' v'] t IH]; simpl; [discriminate |].
  destruct (String.eqb_spec k' k) as [-> | _].
  - intros [= ->]. left.
  - intros H. right. auto.
Qed.

Lemma lookup_prop_fst k ps : k ∈ map fst ps -> exists v, lookup_prop k ps = Some v.
Proof.
  induction ps as [| [k' v'] t IH]; simpl; [intros H; inversion H |].
  destruct (String.eqb_spec k' k) as [-> | N]; [eauto |].
  intros H. apply IH. inversion H; subst; [congruence | assumption].
Qed.

Lemma clause_primitive v w : primitive v = true -> clause v w = (Ret (VBool false, VNull, v), w).
Proof.
  intros P. apply clause_literal.
  destruct v; try discriminate; try (now left);
    right; eexists; (split; [reflexivity | discriminate]).
Qed.

Lemma run_flat_loop idNames regexp_ok locator translate model c ps lw lq ks : forall acc w,
  heap w !! lw = Some (OObj c ps) ->
  heap w !! lq = Some (plain acc) ->
  lw <> lq ->
  Forall (fun k => exists v, lookup_prop k ps = Some v /\ primitive v = true /\
                   field_name (rewrite_key idNames locator model k) = true) ks ->
  for_each ks (translate_entry idNames regexp_ok locator translate model (VRef lw) (VRef lq)) w =
    (Ret tt,
     World (<[lq := plain (flat_query idNames locator model ps ks acc)]> (heap w)) (events w)).
Proof.
  induction ks as [| k ks IH]; intros acc w Hw Hq Hne F.
  - rewrite run_for_each_nil. simpl. rewrite list_insert_id by exact Hq. now destruct w.
  - inversion F as [| ? ? (v & Hv & Hp & Hf) F']. subst.
    rewrite run_for_each_cons, run_bind. unfold translate_entry at 1.
    rewrite run_bind, (run_get_ref _ _ _ _ Hw). unfold own_prop. rewrite Hv. unfold or_undefined.
    cbv beta iota. rewrite (field_name_combinator _ Hf).
    unfold translate_field. rewrite run_bind, (clause_primitive _ _ Hp). cbv beta iota.
    assert (strict_eq v VNull = false) as E by (destruct v; try discriminate; reflexivity).
    cbn [truthy]. rewrite E.
    rewrite (run_put_ref _ _ _ _ _ _ Hq), (accessor_ordinary _ _ (field_name_ordinary _ Hf)).
    rewrite (IH (set_own (rewrite_key idNames locator model k) v acc)); simpl.
    + rewrite list_insert_insert_eq. unfold flat_query. simpl. now rewrite Hv.
    + rewrite list_lookup_insert_ne by auto. exact Hw.
    + apply list_lookup_insert_eq. eapply lookup_lt_Some, Hq.
    + exact Hne.
    + exact F'.
Qed.

(** X1: a filter whose conditions are all primitives other than [null]
    (plain equality tests) is translated key after key into a query with the
    same conditions, the identity field renamed to the locator. *)
Theorem buildWhere_flat idNames regexp_ok locator fuel model c ps lw w :
  heap w !! lw = Some (OObj c ps) ->
  Forall (fun p => primitive p.2 = true /\
                   field_name (rewrite_key idNames locator model p.1) = true) ps ->
  buildWhere idNames regexp_ok locator (S fuel) model (VRef lw) w =
    (Ret (VRef (length (heap w))),
     World (heap w ++ [plain (flat_query idNames locator model ps (map fst ps) [])])
           (events w)).
Proof.
  intros Hw F. destruct w as [h ev]. simpl in Hw. simpl heap. simpl events.
  rewrite buildWhere_S. repeat mstep.
  rewrite (run_flat_loop idNames regexp_ok locator _ model c ps lw (length h) (map fst ps) []).
  - simpl. repeat mstep. reflexivity.
  - heap_lookup.
  - heap_lookup.
  - apply lookup_lt_Some in Hw. lia.
  - apply Forall_forall. intros k Hk.
    destruct (lookup_prop_fst _ _ Hk) as [v Hv]. exists v. split; [exact Hv |].
    apply (proj1 (Forall_forall _ _) F (k, v)). now apply lookup_prop_in.
Qed.

Lemma buildWhere_flat_witness :
  MlOrig.buildWhere ids any_regexp 1 "Widget" (VRef 0) (World filter_flat []) =
    (Ret (VRef 1),
     World (filter_flat ++
            [plain [("_uri", VStr "Widget/1.json"); ("name", VStr "a"); ("age", VNum 3)]])
           []).
Proof.
  apply (buildWhere_flat ids any_regexp "_uri" 0 "Widget" (Some "Object")
           [("id", VStr "Widget/1.json"); ("name", VStr "a"); ("age", VNum 3)]
           0 (World filter_flat [])).
  - reflexivity.
  - repeat constructor.
Defined.

Lemma run_clause_object lc spec operand rest w :
  heap w !! lc = Some (plain ((spec, operand) :: rest)) ->
  lookup_prop "constructor" ((spec, operand) :: rest) = None ->
  clause (VRef lc) w =
    (Ret (VStr spec, or_undefined (lookup_prop "options" ((spec, operand) :: rest)), operand),
     w).
Proof.
  intros H C. unfold clause. cbn [truthy].
  rewrite run_bind, (run_constructor_plain _ _ _ _ H C). cbn [strict_eq].
  change ("Object" =? "Object")%string with true. cbv iota.
  rewrite run_bind, (run_get_ref _ _ _ _ H).
  rewrite run_bind, (run_keys_ref _ _ _ H).
  rewrite run_bind, (run_get_ref _ _ _ _ H). unfold plain. simpl.
  now rewrite String.eqb_refl.
Qed.

Lemma run_single_entry idNames regexp_ok locator fuel model k cond c lw w :
  heap w !! lw = Some (OObj c [(k, cond)]) ->
  is_combinator (rewrite_key idNames locator model k) = false ->
  buildWhere idNames regexp_ok locator (S fuel) model (VRef lw) w =
    (translate_field regexp_ok (VRef (length (heap w)))
       (rewrite_key idNames locator model k) cond;;
     mret (VRef (length (heap w))))
      (World (heap w ++ [plain []]) (events w)).
Proof.
  intros Hw Hk. destruct w as [h ev]. simpl in Hw. simpl heap. simpl events.
  rewrite buildWhere_S. repeat mstep. rewrite run_for_each_one.
  unfold translate_entry. repeat mstep. rewrite String.eqb_refl. simpl. rewrite Hk.
  reflexivity.
Qed.

(** X2: the clause [k: {inq: list}] becomes [k': {$in: copy}], the copy a
    new array with the elements of the list; an operand that is a primitive
    or [null] raises a [TypeError]. *)
Theorem buildWhere_inq idNames regexp_ok locator fuel model k c lw lc operand w :
  heap w !! lw = Some (OObj c [(k, VRef lc)]) ->
  heap w !! lc = Some (plain [("inq", operand)]) ->
  field_name (rewrite_key idNames locator model k) = true ->
  (forall la es, operand = VRef la -> heap w !! la = Some (OArr es) ->
     buildWhere idNames regexp_ok locator (S fuel) model (VRef lw) w =
       (Ret (VRef (length (heap w))),
        World (heap w ++
               [plain [(rewrite_key idNames locator model k, VRef (S (S (length (heap w)))))];
                OArr es;
                plain [("$in", VRef (S (length (heap w))))]])
              (events w))) /\
  (primitive operand = true \/ operand = VNull ->
     buildWhere idNames regexp_ok locator (S fuel) model (VRef lw) w =
       (Raise TypeError, World (heap w ++ [plain []]) (events w))).
Proof.
  intros Hw Hc Hf. pose proof (field_name_combinator _ Hf) as Hk.
  pose proof (field_name_ordinary _ Hf) as Hp.
  rewrite (run_single_entry _ _ _ _ _ _ _ _ _ _ Hw Hk).
  destruct w as [h ev]. simpl in Hw, Hc. simpl heap. simpl events.
  unfold translate_field.
  rewrite run_bind, run_bind, (run_clause_object lc "inq" operand []) by (heap_lookup || reflexivity).
  simpl.
  split.
  - intros la es -> Ha. repeat mstep. heap_eq.
  - intros [P | ->]; [destruct operand; try discriminate |]; reflexivity.
Qed.

Lemma buildWhere_inq_witness :
  Ml.buildWhere ids any_regexp 1 "Widget" (VRef 0) (World filter_tags []) =
    (Ret (VRef 3),
     World (filter_tags ++ [plain [("tags", VRef 5)]; OArr [VStr "a"; VStr "b"];
                            plain [("$in", VRef 4)]]) []).
Proof.
  apply (proj1 (buildWhere_inq ids any_regexp "id" 0 "Widget" "tags" (Some "Object") 0 1
                  (VRef 2) (World filter_tags []) eq_refl eq_refl eq_refl)
           2 [VStr "a"; VStr "b"] eq_refl eq_refl).
Defined.

(** X3: the clauses [k: {like: p, options: o}] and [k: {nlike: p, options: o}]
    become [k': {$regex: r}] and [k': {$not: r}], [r] the regular expression
    built from [p] and [o] ([o] being [undefined] when the clause has no
    [options]); a pattern the runtime refuses raises a [SyntaxError] and
    leaves the query empty. *)
Theorem buildWhere_like idNames regexp_ok locator fuel model k c lw lc spec pattern rest w :
  heap w !! lw = Some (OObj c [(k, VRef lc)]) ->
  heap w !! lc = Some (plain ((spec, pattern) :: rest)) ->
  lookup_prop "constructor" rest = None ->
  spec = "like" \/ spec = "nlike" ->
  field_name (rewrite_key idNames locator model k) = true ->
  buildWhere idNames regexp_ok locator (S fuel) model (VRef lw) w =
    if regexp_ok pattern (or_undefined (lookup_prop "options" rest))
    then
      (Ret (VRef (length (heap w))),
       World (heap w ++
              [plain [(rewrite_key idNames locator model k, VRef (S (S (length (heap w)))))];
               ORegExp pattern (or_undefined (lookup_prop "options" rest));
               plain [(if (spec =? "like")%string then "$regex" else "$not",
                       VRef (S (length (heap w))))]])
             (events w))
    else (Raise SyntaxError, World (heap w ++ [plain []]) (events w)).
Proof.
  intros Hw Hc Hr Hs Hf. pose proof (field_name_combinator _ Hf) as Hk.
  pose proof (field_name_ordinary _ Hf) as Hp.
  rewrite (run_single_entry _ _ _ _ _ _ _ _ _ _ Hw Hk).
  destruct w as [h ev]. simpl in Hw, Hc. simpl heap. simpl events.
  unfold translate_field.
  rewrite run_bind, run_bind, (run_clause_object lc spec pattern rest);
    [| heap_lookup | destruct Hs as [-> | ->]; exact Hr].
  unfold new_regexp.
  destruct Hs as [-> | ->]; simpl;
    destruct (regexp_ok pattern (or_undefined (lookup_prop "options" rest)));
    repeat mstep; try reflexivity; heap_eq.
Qed.

Lemma buildWhere_like_witness :
  MlOrig.buildWhere ids any_regexp 1 "Widget" (VRef 0) (World filter_name_like []) =
    (Ret (VRef 2),
     World (filter_name_like ++ [plain [("name", VRef 4)]; ORegExp (VStr "^a") (VStr "i");
                                 plain [("$regex", VRef 3)]]) []).
Proof.
  apply (buildWhere_like ids any_regexp "_uri" 0 "Widget" "name" (Some "Object") 0 1
           "like" (VStr "^a") [("options", VStr "i")] (World filter_name_like [])
           eq_refl eq_refl eq_refl (or_introl eq_refl) eq_refl).
Defined.

(** X4: any other clause [k: {op: v, ...}] is sent as [k': {$op: v}]
    ([$ne] for [neq]): the operator is the first key of the clause, and what
    the clause holds besides is dropped. *)
Theorem buildWhere_operator idNames regexp_ok locator fuel model k c lw lc spec operand rest w :
  heap w !! lw = Some (OObj c [(k, VRef lc)]) ->
  heap w !! lc = Some (plain ((spec, operand) :: rest)) ->
  lookup_prop "constructor" ((spec, operand) :: rest) = None ->
  spec <> "" -> special spec = false ->
  field_name (rewrite_key idNames locator model k) = true ->
  buildWhere idNames regexp_ok locator (S fuel) model (VRef lw) w =
    (Ret (VRef (length (heap w))),
     World (heap w ++
            [plain [(rewrite_key idNames locator model k, VRef (S (length (heap w))))];
             plain [(operator spec, operand)]])
           (events w)).
Proof.
  intros Hw Hc Hr Hne Hs Hf. pose proof (field_name_combinator _ Hf) as Hk.
  pose proof (field_name_ordinary _ Hf) as Hp.
  rewrite (run_single_entry _ _ _ _ _ _ _ _ _ _ Hw Hk).
  destruct w as [h ev]. simpl in Hw, Hc. simpl heap. simpl events.
  unfold translate_field.
  rewrite run_bind, run_bind, (run_clause_object lc spec operand rest);
    [| heap_lookup | exact Hr].
  cbv beta iota. cbn [truthy key_of].
  assert ((spec =? "")%string = false) as -> by now apply String.eqb_neq.
  unfold special in Hs. apply orb_false_elim in Hs as [Hs H4].
  apply orb_false_elim in Hs as [Hs H3]. apply orb_false_elim in Hs as [H1 H2].
  cbn [negb]. rewrite H1, H2, H3, H4. unfold operator.
  destruct (spec =? "neq")%string.
  - repeat mstep. reflexivity.
  - repeat mstep. rewrite String.eqb_refl. cbn [or_undefined].
    erewrite run_put_ref by heap_lookup.
    rewrite (accessor_ordinary (String "$" spec) [] eq_refl). repeat mstep. reflexivity.
Qed.

Lemma buildWhere_operator_witness :
  MlOrig.buildWhere ids any_regexp 1 "Widget" (VRef 0) (World filter_age_gt []) =
    (Ret (VRef 2),
     World (filter_age_gt ++ [plain [("age", VRef 3)]; plain [("$gt", VNum 18)]]) []).
Proof.
  apply (buildWhere_operator ids any_regexp "_uri" 0 "Widget" "age" (Some "Object") 0 1
           "gt" (VNum 18) [("lt", VNum 30)] (World filter_age_gt [])
           eq_refl eq_refl eq_refl).
  - discriminate.
  - reflexivity.
  - reflexivity.
Defined.

Lemma grows_trans w1 w2 w3 : grows w1 w2 -> grows w2 w3 -> grows w1 w3.
Proof.
  intros (E1 & L1 & F1) (E2 & L2 & F2). repeat split.
  - congruence.
  - lia.
  - intros l Hl. rewrite F2, F1; [reflexivity | exact Hl | lia].
Qed.

Lemma map_m_grows {A B} (f : A -> M B) (xs : list A) :
  (forall x w, grows w (f x w).2) -> forall w, grows w (map_m f xs w).2.
Proof.
  intros Hf. induction xs as [| x xs IH]; intros w; [apply grows_refl |].
  cbn [map_m]. rewrite run_bind. specialize (Hf x w).
  destruct (f x w) as [[y | e |] w1]; try exact Hf. cbn [snd] in Hf.
  rewrite run_bind. specialize (IH w1).
  destruct (map_m f xs w1) as [[ys | e |] w2]; cbn [snd] in IH |- *;
    eapply grows_trans; eauto.
Qed.

Lemma string_cons_ne c s : String c s <> s.
Proof. induction s as [| a s IH]; [discriminate |]. intros [= -> H]. auto. Qed.

Lemma delete_own_operator k v :
  delete_own k [(("$" ++ k)%string, v)] = [(("$" ++ k)%string, v)].
Proof.
  cbn [delete_own append].
  now rewrite (proj2 (String.eqb_neq _ _) (string_cons_ne _ _)).
Qed.

Arguments delete_own : simpl never.

(** X5: a combinator [and], [or] or [nor] over a list is sent as [$and],
    [$or] or [$nor] over the list of the translations of its members, in
    their order; over a primitive or [null] it is sent with its operand as
    it stands. *)
Theorem buildWhere_combinator idNames regexp_ok locator fuel model k c lw cond w :
  heap w !! lw = Some (OObj c [(k, cond)]) ->
  is_combinator (rewrite_key idNames locator model k) = true ->
  (forall la es qs w2,
     cond = VRef la -> heap w !! la = Some (OArr es) ->
     map_m (buildWhere idNames regexp_ok locator fuel model) es
       (World (heap w ++ [plain []]) (events w)) = (Ret qs, w2) ->
     buildWhere idNames regexp_ok locator (S fuel) model (VRef lw) w =
       (Ret (VRef (length (heap w))),
        World (<[length (heap w) :=
                   plain [(("$" ++ rewrite_key idNames locator model k)%string,
                           VRef (length (heap w2)))]]>
                 (heap w2 ++ [OArr qs]))
              (events w))) /\
  (primitive cond = true \/ cond = VNull ->
     buildWhere idNames regexp_ok locator (S fuel) model (VRef lw) w =
       (Ret (VRef (length (heap w))),
        World (heap w ++ [plain [(("$" ++ rewrite_key idNames locator model k)%string, cond)]])
              (events w))).
Proof.
  intros Hw Hk.
  destruct w as [h ev]. simpl in Hw. simpl heap. simpl events.
  split.
  - intros la es qs w2 -> Ha Hm.
    pose proof (map_m_grows (buildWhere idNames regexp_ok locator fuel model) es
                  (fun x w => buildWhere_grows idNames regexp_ok locator fuel model x w)
                  (World (h ++ [plain []]) ev)) as G.
    rewrite Hm in G. destruct G as (E & L & F). simpl in E, L, F.
    destruct w2 as [h2 ev2]. simpl in E, L, F. subst ev2.
    assert (h2 !! length h = Some (plain [])) as Hq.
    { rewrite F by (rewrite length_app; simpl; lia). apply lookup_fresh. }
    rewrite buildWhere_S. repeat mstep. rewrite run_for_each_one.
    unfold translate_entry. repeat mstep. rewrite String.eqb_refl. simpl. rewrite Hk.
    repeat mstep. rewrite Hm. repeat mstep.
    erewrite run_delete_ref
      by (simpl; apply list_lookup_insert_eq; rewrite length_app; simpl;
          rewrite length_app in L; simpl in L; lia).
    repeat mstep. rewrite list_insert_insert_eq. change (String "$" ?s) with ("$" ++ s)%string.
    now rewrite delete_own_operator.
  - intros Hc.
    assert (is_array cond (World (h ++ [plain []]) ev) = (Ret false, World (h ++ [plain []]) ev))
      as Harr by (destruct Hc as [P | ->]; [destruct cond; try discriminate |]; reflexivity).
    rewrite buildWhere_S. repeat mstep. rewrite run_for_each_one.
    unfold translate_entry. repeat mstep. rewrite String.eqb_refl. simpl. rewrite Hk.
    rewrite run_bind, Harr. repeat mstep.
    change (String "$" ?s) with ("$" ++ s)%string. now rewrite delete_own_operator.
Qed.

Lemma buildWhere_combinator_witness :
  Ml.buildWhere ids any_regexp 2 "Widget" (VRef 0) (World filter_or []) =
    (Ret (VRef 4),
     World (filter_or ++ [plain [("$or", VRef 7)]; plain [("name", VStr "a")];
                          plain [("age", VNum 3)]; OArr [VRef 5; VRef 6]]) []).
Proof.
  apply (proj1 (buildWhere_combinator ids any_regexp "id" 1 "Widget" "or" (Some "Object") 0
                  (VRef 1) (World filter_or []) eq_refl eq_refl)
           1 [VRef 2; VRef 3] [VRef 5; VRef 6]
           (World (filter_or ++ [plain []; plain [("name", VStr "a")];
                                 plain [("age", VNum 3)]]) [])
           eq_refl eq_refl eq_refl).
Defined.

(** ** The connection *)

Lemma run_or_m a b w x y :
  a w = (Ret x, w) -> b w = (Ret y, w) -> or_m a b w = (Ret (or_else x y), w).
Proof.
  intros Ha Hb. unfold or_m, or_else. rewrite run_bind, Ha.
  destruct (truthy x); [reflexivity | exact Hb].
Qed.

Lemma run_get_self lo o o0 k h ev :
  h !! lo = Some o0 ->
  get_prop (VRef lo) k (World (<[lo := o]> h) ev) =
    (Ret (own_prop o k), World (<[lo := o]> h) ev).
Proof.
  intros H. apply run_get_ref. simpl. apply list_lookup_insert_eq. eapply lookup_lt_Some, H.
Qed.

Lemma run_put_self lo c ps o0 k x h ev :
  h !! lo = Some o0 -> (k =? "__proto__")%string = false ->
  put_prop (VRef lo) k x (World (<[lo := OObj c ps]> h) ev) =
    (Ret tt, World (<[lo := OObj c (set_own k x ps)]> h) ev).
Proof.
  intros H Hk. erewrite run_put_ref
    by (simpl; apply list_lookup_insert_eq; eapply lookup_lt_Some, H).
  rewrite (accessor_ordinary _ _ Hk). simpl. now rewrite list_insert_insert_eq.
Qed.

Lemma run_generateConnectionObject lo c ps w :
  heap w !! lo = Some (OObj c ps) ->
  generateConnectionObject (VRef lo) w =
    (Ret (VRef (length (heap w))),
     World (<[lo := OObj c (connection_options ps)]> (heap w) ++ [connection_object ps])
           (events w)).
Proof.
  intros H. destruct w as [h ev]. simpl in H. simpl heap. simpl events.
  rewrite <- (list_insert_id h lo (OObj c ps) H) at 1.
  unfold generateConnectionObject.
  repeat first
    [ rewrite run_bind
    | erewrite run_or_m by
        first [ eapply run_get_self, H | reflexivity
              | eapply run_or_m; first [ eapply run_get_self, H | reflexivity ] ]
    | erewrite run_get_self by exact H
    | erewrite run_put_self by (exact H || reflexivity) ];
    cbv beta iota.
  rewrite run_alloc. cbn [heap events own_prop]. rewrite length_insert.
  unfold connection_options, connection_object. cbv zeta.
  repeat (rewrite lookup_set_own_eq || rewrite lookup_set_own_ne by discriminate).
  reflexivity.
Qed.

Lemma or_else_truthy a d : truthy d = true -> truthy (or_else a d) = true.
Proof. intros H. unfold or_else. now destruct (truthy a) eqn:E. Qed.

Lemma or_else_left a b : truthy a = true -> or_else a b = a.
Proof. intros H. unfold or_else. now rewrite H. Qed.

(** X6: the connection object carries [host], [port], [user], [password]
    and [authType] and nothing else; [host], [port] and [authType] fall back
    to ['127.0.0.1'] (after the [host] alias), [8000] and ['DIGEST'], so they
    are never falsy; [user] is the [username] of the options (their [user]
    does not reach it), and the database is not carried; the defaults are
    written into the options handed in. *)
Theorem generateConnectionObject_defaults lo c ps w :
  heap w !! lo = Some (OObj c ps) ->
  generateConnectionObject (VRef lo) w =
    (Ret (VRef (length (heap w))),
     World (<[lo := OObj c (connection_options ps)]> (heap w) ++ [connection_object ps])
           (events w)) /\
  own_keys (connection_object ps) = ["host"; "port"; "user"; "password"; "authType"] /\
  truthy (own_prop (connection_object ps) "host") = true /\
  truthy (own_prop (connection_object ps) "port") = true /\
  truthy (own_prop (connection_object ps) "authType") = true /\
  own_prop (connection_object ps) "user" = or_undefined (lookup_prop "username" ps) /\
  (forall k, k ∈ ["hostname"; "port"; "database"; "authType"] ->
     truthy (or_undefined (lookup_prop k (connection_options ps))) = true).
Proof.
  intros H. split; [now apply run_generateConnectionObject |].
  split; [reflexivity |].
  repeat split; try (cbn; repeat apply or_else_truthy; reflexivity).
  intros k Hk. unfold connection_options. cbv zeta.
  repeat (apply elem_of_cons in Hk as [-> | Hk]);
    [ | | | | inversion Hk ];
    repeat (rewrite lookup_set_own_eq || rewrite lookup_set_own_ne by discriminate);
    cbn [or_undefined]; repeat apply or_else_truthy; reflexivity.
Qed.

Lemma generateConnectionObject_defaults_witness :
  generateConnectionObject (VRef 0) (World settings_user []) =
    (Ret (VRef 1),
     World [plain [("host", VStr "db.example.org"); ("user", VStr "admin");
                   ("password", VStr "secret"); ("db", VStr "widgets");
                   ("hostname", VStr "db.example.org"); ("port", VNum 8000);
                   ("database", VStr "widgets"); ("authType", VStr "DIGEST")];
            plain [("host", VStr "db.example.org"); ("port", VNum 8000);
                   ("user", VUndefined); ("password", VStr "secret");
                   ("authType", VStr "DIGEST")]] []).
Proof.
  apply (generateConnectionObject_defaults 0 (Some "Object")
           [("host", VStr "db.example.org"); ("user", VStr "admin");
            ("password", VStr "secret"); ("db", VStr "widgets")]
           (World settings_user []) eq_refl).
Defined.

Lemma set_own_same k v ps : lookup_prop k ps = Some v -> set_own k v ps = ps.
Proof.
  intros H. unfold set_own. rewrite H.
  induction ps as [| [k' v'] t IH]; simpl in *; [discriminate |].
  destruct (k' =? k)%string eqn:E.
  - injection H as ->. reflexivity.
  - now rewrite IH.
Qed.

Lemma connection_options_lookup ps :
  let get k := or_undefined (lookup_prop k ps) in
  let ps' := connection_options ps in
  lookup_prop "hostname" ps' =
    Some (or_else (get "hostname") (or_else (get "host") (VStr "127.0.0.1"))) /\
  lookup_prop "port" ps' = Some (or_else (get "port") (VNum 8000)) /\
  lookup_prop "database" ps' =
    Some (or_else (get "database") (or_else (get "db") (VStr "documents"))) /\
  lookup_prop "authType" ps' = Some (or_else (get "authType") (VStr "DIGEST")) /\
  forall k, k ∉ ["hostname"; "port"; "database"; "authType"] ->
    lookup_prop k ps' = lookup_prop k ps.
Proof.
  cbv zeta. unfold connection_options. cbv zeta.
  repeat split;
    repeat (rewrite lookup_set_own_eq || rewrite lookup_set_own_ne by discriminate);
    try reflexivity.
  intros k Hk.
  rewrite !lookup_set_own_ne; [reflexivity | | | |]; intros <-; apply Hk;
    repeat constructor.
Qed.

Lemma connection_options_again ps :
  connection_options (connection_options ps) = connection_options ps /\
  connection_object (connection_options ps) = connection_object ps.
Proof.
  destruct (connection_options_lookup ps) as (H1 & H2 & H3 & H4 & H5). cbv zeta in *.
  assert (forall k, k ∈ ["host"; "db"; "username"; "password"] ->
            lookup_prop k (connection_options ps) = lookup_prop k ps) as Hk.
  { intros k Hk. apply H5. intros Hin.
    repeat (apply elem_of_cons in Hk as [-> | Hk]); try (inversion Hk; fail);
      repeat (apply elem_of_cons in Hin as [Hin | Hin]; [discriminate |]);
      inversion Hin. }
  split.
  - unfold connection_options at 1. cbv zeta. rewrite H1, H2, H3, H4. cbn [or_undefined].
    rewrite !(or_else_left (or_else _ _)) by (repeat apply or_else_truthy; reflexivity).
    rewrite (set_own_same _ _ _ H1), (set_own_same _ _ _ H2), (set_own_same _ _ _ H3).
    apply (set_own_same _ _ _ H4).
  - unfold connection_object at 1. cbv zeta. rewrite H1, H2, H4. cbn [or_undefined].
    rewrite !(or_else_left (or_else _ _)) by (repeat apply or_else_truthy; reflexivity).
    rewrite !Hk by (repeat constructor). reflexivity.
Qed.

(** X7: asking again for the connection object of the same options changes
    nothing more and gives an equal object: the defaults written by the first
    call are what the second call reads. *)
Theorem generateConnectionObject_again lo c ps w :
  heap w !! lo = Some (OObj c ps) ->
  exists conn w1,
    generateConnectionObject (VRef lo) w = (Ret (VRef (length (heap w))), w1) /\
    heap w1 !! length (heap w) = Some conn /\
    generateConnectionObject (VRef lo) w1 =
      (Ret (VRef (length (heap w1))), World (heap w1 ++ [conn]) (events w1)).
Proof.
  intros H. pose proof (lookup_lt_Some _ _ _ H) as Hlt.
  exists (connection_object ps). eexists.
  split; [exact (run_generateConnectionObject lo c ps w H) |].
  split.
  - simpl. rewrite <- (length_insert (heap w) lo (OObj c (connection_options ps))).
    apply lookup_fresh.
  - rewrite (run_generateConnectionObject lo c (connection_options ps)).
    + destruct (connection_options_again ps) as [-> ->]. cbn [heap events].
      replace (<[lo:=OObj c (connection_options ps)]>
                 (<[lo:=OObj c (connection_options ps)]> (heap w) ++ [connection_object ps]))
        with (<[lo:=OObj c (connection_options ps)]> (heap w) ++ [connection_object ps]);
        [reflexivity |].
      symmetry. apply list_insert_id. apply lookup_grown.
      now apply list_lookup_insert_eq.
    + simpl. apply lookup_grown. now apply list_lookup_insert_eq.
Qed.

Lemma generateConnectionObject_again_witness :
  exists conn w1,
    generateConnectionObject (VRef 0) (World settings_user []) = (Ret (VRef 1), w1) /\
    heap w1 !! 1 = Some conn /\
    generateConnectionObject (VRef 0) w1 =
      (Ret (VRef (length (heap w1))), World (heap w1 ++ [conn]) (events w1)).
Proof.
  apply (generateConnectionObject_again 0 (Some "Object")
           [("host", VStr "db.example.org"); ("user", VStr "admin");
            ("password", VStr "secret"); ("db", VStr "widgets")]
           (World settings_user []) eq_refl).
Defined.

Arguments or_m : simpl never.
Arguments next_tick : simpl never.

Lemma run_connect_fresh queryBuilder ls c ps lset oset callback client w :
  heap w !! ls = Some (OObj c ps) ->
  truthy (or_undefined (lookup_prop "db" ps)) = false ->
  lookup_prop "settings" ps = Some (VRef lset) ->
  heap w !! lset = Some oset ->
  connect queryBuilder (VRef ls) callback client w =
    call_guarded callback [VNull; client]
      (World (<[ls := OObj c (match queryBuilder with
                              | Some qb => set_own "qb" qb (set_own "db" client ps)
                              | None => set_own "db" client ps
                              end)]> (heap w))
             (events w ++ [Request "createDatabaseClient" [own_prop oset "connInfo"]])).
Proof.
  intros Hs Hdb Hset Ho. destruct w as [h ev]. simpl in Hs, Ho. simpl heap. simpl events.
  unfold connect. repeat mstep. rewrite Hdb. repeat mstep. rewrite Hset. simpl.
  repeat mstep.
  destruct queryBuilder as [qb |].
  - erewrite run_put_ref
      by (simpl; apply list_lookup_insert_eq; eapply lookup_lt_Some, Hs).
    repeat mstep. rewrite list_insert_insert_eq.
    erewrite run_get_ref
      by (simpl; apply list_lookup_insert_eq; eapply lookup_lt_Some, Hs).
    simpl. rewrite lookup_set_own_ne by discriminate. now rewrite lookup_set_own_eq.
  - repeat mstep.
    erewrite run_get_ref
      by (simpl; apply list_lookup_insert_eq; eapply lookup_lt_Some, Hs).
    simpl. now rewrite lookup_set_own_eq.
Qed.

Lemma run_connect_kept queryBuilder ls c ps callback client w :
  heap w !! ls = Some (OObj c ps) ->
  truthy (or_undefined (lookup_prop "db" ps)) = true ->
  connect queryBuilder (VRef ls) callback client w =
    call_guarded callback [VNull; or_undefined (lookup_prop "db" ps)]
      (World (heap w) (events w ++ [Request "process.nextTick" []])).
Proof.
  intros Hs Hdb. destruct w as [h ev]. simpl in Hs. simpl heap. simpl events.
  unfold connect, next_tick. repeat mstep. rewrite Hdb. repeat mstep. reflexivity.
Qed.

(** X8: [connect] asks the client library for a client only when the
    connector keeps none: it then stores the client (and, in the first
    listing, the query builder) on the connector and hands it to the
    callback at once; when a client is kept, nothing is created or changed,
    and the callback receives the kept client on the next tick. *)
Theorem connect_once queryBuilder ls c ps callback client w :
  heap w !! ls = Some (OObj c ps) ->
  (truthy (or_undefined (lookup_prop "db" ps)) = true ->
   connect queryBuilder (VRef ls) callback client w =
     call_guarded callback [VNull; or_undefined (lookup_prop "db" ps)]
       (World (heap w) (events w ++ [Request "process.nextTick" []]))) /\
  (truthy (or_undefined (lookup_prop "db" ps)) = false ->
   forall lset oset,
     lookup_prop "settings" ps = Some (VRef lset) ->
     heap w !! lset = Some oset ->
     connect queryBuilder (VRef ls) callback client w =
       call_guarded callback [VNull; client]
         (World (<[ls := OObj c (match queryBuilder with
                                 | Some qb => set_own "qb" qb (set_own "db" client ps)
                                 | None => set_own "db" client ps
                                 end)]> (heap w))
                (events w ++ [Request "createDatabaseClient" [own_prop oset "connInfo"]]))).
Proof.
  intros Hs. split.
  - intros Hdb. exact (run_connect_kept _ _ _ _ _ _ _ Hs Hdb).
  - intros Hdb lset oset Hset Ho. exact (run_connect_fresh _ _ _ _ _ _ _ _ _ Hs Hdb Hset Ho).
Qed.

Lemma connect_once_witness :
  connect None (VRef 0) (Some complete) (VRef 9) (World connector_new []) =
    (Ret tt,
     World (<[0 := OObj (Some "MarkLogic")
                     [("settings", VRef 1); ("_models", VRef 3); ("db", VRef 9)]]>
              connector_new)
           [Request "createDatabaseClient" [VRef 2]; Complete [VNull; VRef 9]]).
Proof.
  apply (proj2 (connect_once None 0 (Some "MarkLogic")
                  [("settings", VRef 1); ("_models", VRef 3)] (Some complete) (VRef 9)
                  (World connector_new []) eq_refl)
           eq_refl 1 (plain [("connInfo", VRef 2)]) eq_refl eq_refl).
Defined.

Lemma run_disconnect ls c ps cb w :
  heap w !! ls = Some (OObj c ps) ->
  disconnect (VRef ls) cb w =
    let ev := if truthy (or_undefined (lookup_prop "db" ps))
              then events w ++ [Request "db.close" []] else events w in
    match cb with
    | Some f => f [] (World (heap w) (ev ++ [Request "process.nextTick" []]))
    | None => (Ret tt, World (heap w) ev)
    end.
Proof.
  intros Hs. destruct w as [h ev]. simpl in Hs. simpl heap. simpl events.
  unfold disconnect, next_tick. repeat mstep.
  destruct (truthy (or_undefined (lookup_prop "db" ps))); destruct cb; repeat mstep;
    reflexivity.
Qed.

(** X9: [disconnect] closes the client but leaves it on the connector, so a
    [connect] after it creates no new client: its callback receives the
    closed one. *)
Theorem connect_after_disconnect queryBuilder ls c ps lset oset client client' w :
  heap w !! ls = Some (OObj c ps) ->
  truthy (or_undefined (lookup_prop "db" ps)) = false ->
  lookup_prop "settings" ps = Some (VRef lset) ->
  heap w !! lset = Some oset ->
  truthy client = true ->
  (connect queryBuilder (VRef ls) (Some complete) client;;
   disconnect (VRef ls) (Some complete);;
   connect queryBuilder (VRef ls) (Some complete) client') w =
    (Ret tt,
     World (<[ls := OObj c (match queryBuilder with
                            | Some qb => set_own "qb" qb (set_own "db" client ps)
                            | None => set_own "db" client ps
                            end)]> (heap w))
           (events w ++
            [Request "createDatabaseClient" [own_prop oset "connInfo"];
             Complete [VNull; client];
             Request "db.close" [];
             Request "process.nextTick" []; Complete [];
             Request "process.nextTick" []; Complete [VNull; client]])).
Proof.
  intros Hs Hdb Hset Ho Hc. pose proof (lookup_lt_Some _ _ _ Hs) as Hlt.
  set (ps' := match queryBuilder with
              | Some qb => set_own "qb" qb (set_own "db" client ps)
              | None => set_own "db" client ps
              end).
  assert (lookup_prop "db" ps' = Some client) as Hdb'.
  { unfold ps'. destruct queryBuilder.
    - rewrite lookup_set_own_ne by discriminate. apply lookup_set_own_eq.
    - apply lookup_set_own_eq. }
  rewrite run_bind, (run_connect_fresh _ _ _ _ _ _ _ _ _ Hs Hdb Hset Ho). fold ps'.
  unfold call_guarded, complete at 1. rewrite run_emit. cbn [heap events].
  rewrite run_bind, (run_disconnect ls c ps')
    by (simpl; now apply list_lookup_insert_eq).
  cbv zeta. rewrite Hdb'. cbn [or_undefined]. rewrite Hc. cbn [heap events].
  unfold complete at 1. rewrite run_emit. cbn [heap events].
  rewrite (run_connect_kept _ ls c ps')
    by (first [ simpl; now apply list_lookup_insert_eq | rewrite Hdb'; exact Hc ]).
  rewrite Hdb'. cbn [or_undefined call_guarded heap events].
  unfold complete. rewrite run_emit. cbn [heap events].
  now rewrite <- !app_assoc.
Qed.

Lemma connect_after_disconnect_witness :
  (connect None (VRef 0) (Some complete) (VRef 9);;
   disconnect (VRef 0) (Some complete);;
   connect None (VRef 0) (Some complete) (VStr "another client")) (World connector_new []) =
    (Ret tt,
     World (<[0 := OObj (Some "MarkLogic")
                     [("settings", VRef 1); ("_models", VRef 3); ("db", VRef 9)]]>
              connector_new)
           [Request "createDatabaseClient" [VRef 2]; Complete [VNull; VRef 9];
            Request "db.close" [];
            Request "process.nextTick" []; Complete [];
            Request "process.nextTick" []; Complete [VNull; VRef 9]]).
Proof.
  apply (connect_after_disconnect None 0 (Some "MarkLogic")
           [("settings", VRef 1); ("_models", VRef 3)] 1 (plain [("connInfo", VRef 2)])
           (VRef 9) (VStr "another client") (World connector_new [])
           eq_refl eq_refl eq_refl eq_refl eq_refl).
Defined.

(** X10: the collection of a model is the [collection] its [ml] settings
    name, when they name one, and the model's own name otherwise; a model
    the connector does not know raises a [TypeError]; nothing is written. *)
Theorem collectionName_configured ls c ps lm om model w :
  heap w !! ls = Some (OObj c ps) ->
  lookup_prop "_models" ps = Some (VRef lm) ->
  heap w !! lm = Some om ->
  (own_prop om model = VUndefined ->
   collectionName (VRef ls) model w = (Raise TypeError, w)) /\
  (forall lc oc lset oset,
     own_prop om model = VRef lc -> heap w !! lc = Some oc ->
     own_prop oc "settings" = VRef lset -> heap w !! lset = Some oset ->
     (truthy (own_prop oset "ml") = false ->
      collectionName (VRef ls) model w = (Ret (VStr model), w)) /\
     (forall lml oml,
        own_prop oset "ml" = VRef lml -> heap w !! lml = Some oml ->
        collectionName (VRef ls) model w =
          (Ret (or_else (own_prop oml "collection") (VStr model)), w))).
Proof.
  intros Hs Hm Hom. destruct w as [h ev]. simpl in Hs, Hom.
  split.
  - intros Hu. unfold collectionName. repeat mstep. rewrite Hm. simpl. repeat mstep.
    rewrite Hu. reflexivity.
  - intros lc oc lset oset Hc Hoc Hset Hoset. simpl in Hoc, Hoset. split.
    + intros Hml. unfold collectionName. repeat mstep. rewrite Hm. simpl. repeat mstep.
      rewrite Hc. repeat mstep. rewrite Hset. repeat mstep. now rewrite Hml.
    + intros lml oml Hml Home. simpl in Home.
      unfold collectionName. repeat mstep. rewrite Hm. simpl. repeat mstep.
      rewrite Hc. repeat mstep. rewrite Hset. repeat mstep. rewrite Hml. simpl.
      repeat mstep. rewrite Hset. repeat mstep. rewrite Hml.
      apply run_or_m; [| reflexivity]. now apply run_get_ref.
Qed.

Lemma collectionName_configured_witness :
  collectionName (VRef 0) "Widget" (World connector_new []) =
    (Ret (VStr "widgets"), World connector_new []) /\
  collectionName (VRef 0) "Gadget" (World connector_new []) =
    (Ret (VStr "Gadget"), World connector_new []) /\
  collectionName (VRef 0) "Sprocket" (World connector_new []) =
    (Raise TypeError, World connector_new []).
Proof.
  split; [| split].
  - apply (proj2 (proj2 (collectionName_configured 0 (Some "MarkLogic")
                    [("settings", VRef 1); ("_models", VRef 3)] 3
                    (plain [("Widget", VRef 4); ("Gadget", VRef 6)]) "Widget"
                    (World connector_new []) eq_refl eq_refl eq_refl)
             4 (plain [("settings", VRef 5)]) 5 (plain [("ml", VRef 8)])
             eq_refl eq_refl eq_refl eq_refl)
             8 (plain [("collection", VStr "widgets")]) eq_refl eq_refl).
  - apply (proj1 (proj2 (collectionName_configured 0 (Some "MarkLogic")
                    [("settings", VRef 1); ("_models", VRef 3)] 3
                    (plain [("Widget", VRef 4); ("Gadget", VRef 6)]) "Gadget"
                    (World connector_new []) eq_refl eq_refl eq_refl)
             6 (plain [("settings", VRef 7)]) 7 (plain [])
             eq_refl eq_refl eq_refl eq_refl) eq_refl).
  - apply (proj1 (collectionName_configured 0 (Some "MarkLogic")
                    [("settings", VRef 1); ("_models", VRef 3)] 3
                    (plain [("Widget", VRef 4); ("Gadget", VRef 6)]) "Sprocket"
                    (World connector_new []) eq_refl eq_refl eq_refl) eq_refl).
Defined.

(** X11: [collection] refuses to work without a client, whatever the model,
    known or not, and asks nothing of the store; with a client it asks, once,
    for the collection the model's [ml] settings name, or else for the one
    named as the model, and hands back what the client answers; with a
    client and a model the connector does not know it raises a [TypeError]
    and asks nothing. *)
Theorem collection_requires_client ls c ps model handle w :
  heap w !! ls = Some (OObj c ps) ->
  (truthy (or_undefined (lookup_prop "db" ps)) = false ->
   collection (VRef ls) model handle w = (Raise ConnectionError, w)) /\
  (truthy (or_undefined (lookup_prop "db" ps)) = true ->
   forall lm om,
     lookup_prop "_models" ps = Some (VRef lm) -> heap w !! lm = Some om ->
     (own_prop om model = VUndefined ->
      collection (VRef ls) model handle w = (Raise TypeError, w)) /\
     (forall lc oc lset oset,
        own_prop om model = VRef lc -> heap w !! lc = Some oc ->
        own_prop oc "settings" = VRef lset -> heap w !! lset = Some oset ->
        (truthy (own_prop oset "ml") = false ->
         collection (VRef ls) model handle w =
           (Ret handle,
            World (heap w) (events w ++ [Request "queryCollection" [VStr model]]))) /\
        (forall lml oml,
           own_prop oset "ml" = VRef lml -> heap w !! lml = Some oml ->
           collection (VRef ls) model handle w =
             (Ret handle,
              World (heap w)
                    (events w ++
                     [Request "queryCollection"
                        [or_else (own_prop oml "collection") (VStr model)]]))))).
Proof.
  intros Hs. destruct w as [h ev]. simpl in Hs. unfold collection.
  split.
  - intros Hdb. repeat mstep. now rewrite Hdb.
  - intros Hdb lm om Hm Hom. simpl in Hom. split.
    + intros Hu. repeat mstep. rewrite Hdb. unfold collectionName. repeat mstep.
      rewrite Hm. simpl. repeat mstep. rewrite Hu. reflexivity.
    + intros lc oc lset oset Hc Hoc Hset Hoset. simpl in Hoc, Hoset. split.
      * intros Hml. repeat mstep. rewrite Hdb. unfold collectionName. repeat mstep.
        rewrite Hm. simpl. repeat mstep. rewrite Hc. repeat mstep. rewrite Hset.
        repeat mstep. rewrite Hml. repeat mstep. reflexivity.
      * intros lml oml Hml Home. simpl in Home.
        repeat mstep. rewrite Hdb. unfold collectionName. repeat mstep.
        rewrite Hm. simpl. repeat mstep. rewrite Hc. repeat mstep. rewrite Hset.
        repeat mstep. rewrite Hml. simpl. repeat mstep. rewrite Hset. repeat mstep.
        rewrite Hml.
        rewrite (run_or_m _ _ (World h ev) (own_prop oml "collection") (VStr model));
          [| now apply run_get_ref | reflexivity].
        repeat mstep. reflexivity.
Qed.

Lemma collection_requires_client_witness :
  collection (VRef 0) "Widget" (VRef 10) (World connector_new []) =
    (Raise ConnectionError, World connector_new []) /\
  collection (VRef 0) "Sprocket" (VRef 10) (World connector_new []) =
    (Raise ConnectionError, World connector_new []) /\
  collection (VRef 0) "Widget" (VRef 10) (World connector_open []) =
    (Ret (VRef 10), World connector_open [Request "queryCollection" [VStr "widgets"]]) /\
  collection (VRef 0) "Gadget" (VRef 10) (World connector_open []) =
    (Ret (VRef 10), World connector_open [Request "queryCollection" [VStr "Gadget"]]) /\
  collection (VRef 0) "Sprocket" (VRef 10) (World connector_open []) =
    (Raise TypeError, World connector_open []).
Proof.
  split; [| split; [| split; [| split]]].
  - apply (proj1 (collection_requires_client 0 (Some "MarkLogic")
                    [("settings", VRef 1); ("_models", VRef 3)] "Widget" (VRef 10)
                    (World connector_new []) eq_refl) eq_refl).
  - apply (proj1 (collection_requires_client 0 (Some "MarkLogic")
                    [("settings", VRef 1); ("_models", VRef 3)] "Sprocket" (VRef 10)
                    (World connector_new []) eq_refl) eq_refl).
  - apply (proj2 (proj2 (proj2 (collection_requires_client 0 (Some "MarkLogic")
                    [("settings", VRef 1); ("_models", VRef 3); ("db", VRef 9)] "Widget"
                    (VRef 10) (World connector_open []) eq_refl) eq_refl
             3 (plain [("Widget", VRef 4); ("Gadget", VRef 6)]) eq_refl eq_refl)
             4 (plain [("settings", VRef 5)]) 5 (plain [("ml", VRef 8)])
             eq_refl eq_refl eq_refl eq_refl)
             8 (plain [("collection", VStr "widgets")]) eq_refl eq_refl).
  - apply (proj1 (proj2 (proj2 (collection_requires_client 0 (Some "MarkLogic")
                    [("settings", VRef 1); ("_models", VRef 3); ("db", VRef 9)] "Gadget"
                    (VRef 10) (World connector_open []) eq_refl) eq_refl
             3 (plain [("Widget", VRef 4); ("Gadget", VRef 6)]) eq_refl eq_refl)
             6 (plain [("settings", VRef 7)]) 7 (plain [])
             eq_refl eq_refl eq_refl eq_refl) eq_refl).
  - apply (proj1 (proj2 (collection_requires_client 0 (Some "MarkLogic")
                    [("settings", VRef 1); ("_models", VRef 3); ("db", VRef 9)] "Sprocket"
                    (VRef 10) (World connector_open []) eq_refl) eq_refl
             3 (plain [("Widget", VRef 4); ("Gadget", VRef 6)]) eq_refl eq_refl) eq_refl).
Defined.

(** ** Reads of the document-API connector *)

Lemma document_identify d d' h :
  document_at h d' -> document_at (identify d h) d'.
Proof.
  unfold document_at, identify.
  intros ((ce & pe & He & Hu & Hc) & (cc & pc & Hcc)).
  destruct (h !! content d) as [[c ps | | |] |] eqn:E; eauto 10.
  assert (content d < length h) as Hlt by (eapply lookup_lt_Some, E).
  split.
  - destruct (decide (entry d' = content d)) as [Heq | Hne].
    + rewrite Heq in *. rewrite E in He. injection He as <- <-.
      exists c, (set_own "id" (uri d) ps). split; [now apply list_lookup_insert_eq |].
      now rewrite !lookup_set_own_ne by discriminate.
    + exists ce, pe. now rewrite list_lookup_insert_ne by auto.
  - destruct (decide (content d' = content d)) as [Heq | Hne].
    + rewrite Heq. eexists _, _. now apply list_lookup_insert_eq.
    + exists cc, pc. now rewrite list_lookup_insert_ne by auto.
Qed.

Lemma identify_length d h : length (identify d h) = length h.
Proof.
  unfold identify. destruct (h !! content d) as [[c ps | | |] |]; try reflexivity.
  apply length_insert.
Qed.

Lemma run_identify_loop docs : forall hh acc ev,
  documents hh docs ->
  for_each ((fun d => VRef (entry d)) <$> docs) (fun entry =>
    content ← get_prop entry "content";
    uri ← get_prop entry "uri";
    put_prop content "id" uri;;
    content ← get_prop entry "content";
    push (VRef (length hh)) content) (World (hh ++ [OArr acc]) ev) =
  (Ret tt,
   World (identified docs hh ++ [OArr (acc ++ ((fun d => VRef (content d)) <$> docs))]) ev).
Proof.
  induction docs as [| d docs IH]; intros hh acc ev Hd.
  - cbn [fmap list_fmap]. rewrite run_for_each_nil. simpl. now rewrite app_nil_r.
  - apply Forall_cons in Hd as [Hd Hds].
    pose proof (document_identify d d hh Hd) as Hd'.
    destruct Hd as ((ce & pe & He & Hu & Hc) & (cc & pc & Hcc)).
    destruct Hd' as ((ce' & pe' & He' & Hu' & Hc') & _).
    assert (content d < length hh) as Hlt by (eapply lookup_lt_Some, Hcc).
    cbn [fmap list_fmap]. rewrite run_for_each_cons, run_bind.
    repeat mstep. rewrite Hc. cbn [or_undefined]. repeat mstep. rewrite Hu.
    rewrite insert_app_l by exact Hlt.
    assert (identify d hh = <[content d := OObj cc (set_own "id" (uri d) pc)]> hh) as Hid
      by (unfold identify; now rewrite Hcc).
    rewrite <- Hid.
    erewrite run_get_ref by (simpl; apply lookup_grown; exact He').
    cbn [own_prop]. rewrite Hc'. cbn [or_undefined]. repeat mstep.
    erewrite run_push
      by (simpl; rewrite <- (identify_length d hh); apply lookup_fresh).
    cbn [heap events]. rewrite <- (identify_length d hh), insert_fresh.
    rewrite (IH (identify d hh) (acc ++ [VRef (content d)]) ev).
    + cbn [identified fold_left]. now rewrite <- app_assoc.
    + eapply Forall_impl; [exact Hds |]. intros d'. apply document_identify.
Qed.

Lemma identify_other d h l : l <> content d -> identify d h !! l = h !! l.
Proof.
  intros N. unfold identify. destruct (h !! content d) as [[c ps | | |] |]; try reflexivity.
  now apply list_lookup_insert_ne.
Qed.

Lemma identified_other docs : forall h l,
  l ∉ content <$> docs -> identified docs h !! l = h !! l.
Proof.
  induction docs as [| d docs IH]; intros h l Hl; [reflexivity |].
  cbn [identified fold_left]. cbn [fmap list_fmap] in Hl.
  apply not_elem_of_cons in Hl as [Hne Hl].
  change (fold_left (fun h d => identify d h) docs (identify d h))
    with (identified docs (identify d h)).
  rewrite IH by exact Hl. now apply identify_other.
Qed.

Lemma identified_content docs : forall h d c ps,
  NoDup (content <$> docs) -> d ∈ docs ->
  h !! content d = Some (OObj c ps) ->
  identified docs h !! content d = Some (OObj c (set_own "id" (uri d) ps)).
Proof.
  induction docs as [| d0 docs IH]; intros h d c ps ND Hin Hc; [inversion Hin |].
  cbn [fmap list_fmap] in ND. apply NoDup_cons in ND as [Hnot ND].
  cbn [identified fold_left].
  change (fold_left (fun h d => identify d h) docs (identify d0 h))
    with (identified docs (identify d0 h)).
  apply elem_of_cons in Hin as [-> | Hin].
  - rewrite identified_other by exact Hnot. unfold identify. rewrite Hc.
    apply list_lookup_insert_eq. eapply lookup_lt_Some, Hc.
  - apply IH; [exact ND | exact Hin |].
    rewrite identify_other; [exact Hc |].
    intros E. apply Hnot. rewrite <- E. now apply list_elem_of_fmap_2.
Qed.

(** X12: the handler of [all] hands the callback a new list of the
    contents of the response, in the order of the response, after writing
    on each content the locator of its entry as [id] (over an [id] the
    content may carry); when the contents are distinct objects, each ends
    with the locator of its own entry. *)
Theorem processResponse_identifies callback lc docs w :
  heap w !! lc = Some (OArr ((fun d => VRef (entry d)) <$> docs)) ->
  documents (heap w) docs ->
  Ml.processResponse callback (VRef lc) w =
    call callback [VNull; VRef (length (heap w))]
      (World (identified docs (heap w) ++ [OArr ((fun d => VRef (content d)) <$> docs)])
             (events w)) /\
  (NoDup (content <$> docs) ->
   forall d c ps, d ∈ docs -> heap w !! content d = Some (OObj c ps) ->
     identified docs (heap w) !! content d = Some (OObj c (set_own "id" (uri d) ps))).
Proof.
  intros Hc Hd. split.
  - destruct w as [h ev]. simpl in Hc, Hd. simpl heap. simpl events.
    unfold Ml.processResponse. repeat mstep.
    rewrite (run_identify_loop docs h [] ev Hd). repeat mstep. reflexivity.
  - intros ND d c ps Hin Hcd. now apply identified_content.
Qed.

Lemma processResponse_identifies_witness :
  Ml.processResponse (Some complete) (VRef 0) (World response_two []) =
    (Ret tt,
     World [OArr [VRef 1; VRef 3];
            plain [("uri", VStr "Widget/1.json"); ("content", VRef 2)];
            plain [("name", VStr "a"); ("id", VStr "Widget/1.json")];
            plain [("uri", VStr "Widget/2.json"); ("content", VRef 4)];
            plain [("name", VStr "b"); ("id", VStr "Widget/2.json")];
            OArr [VRef 2; VRef 4]]
           [Complete [VNull; VRef 5]]).
Proof.
  apply (proj1 (processResponse_identifies (Some complete) 0
                  [Document 1 (VStr "Widget/1.json") 2; Document 3 (VStr "Widget/2.json") 4]
                  (World response_two []) eq_refl
                  ltac:(repeat constructor; cbn; eauto 10))).
Defined.

Arguments Ml.processResponse : simpl never.
Arguments then_ : simpl never.

(** X13: a filter whose [where] names the identity with a truthy value is
    answered by reading that one document: the locator is taken out of the
    caller's [where], put back unescaped as [_uri], and once the rewritten
    [where] is translated the store is asked for the document at that
    locator and for nothing else, whatever else the filter holds. *)
Theorem all_by_identity idNames regexp_ok unescape fuel model lf c ps (lw : nat) cw pw
    options callback reply q w w2 :
  let idn := key_of (Ml.idValue idNames model) in
  let u := unescape (or_undefined (lookup_prop idn pw)) in
  heap w !! lf = Some (OObj c ps) ->
  lookup_prop "where" ps = Some (VRef lw) ->
  heap w !! lw = Some (OObj cw pw) ->
  truthy (or_undefined (lookup_prop idn pw)) = true ->
  truthy u = true ->
  Ml.buildWhere idNames regexp_ok fuel model (VRef lw)
    (World (<[lw := OObj cw (set_own "_uri" u (delete_own idn pw))]> (heap w ++ [plain []]))
           (events w)) = (Ret q, w2) ->
  Ml.all idNames regexp_ok unescape true fuel model (VRef lf) options callback reply w =
    then_ reply (Ml.processResponse callback)
      (World (heap w2) (events w ++ [Request "documents.read" [u]])) /\
  heap w2 !! lw = Some (OObj cw (set_own "_uri" u (delete_own idn pw))).
Proof.
  intros idn u Hf Hw Hlw Hid Hu Hb.
  unfold Ml.buildWhere in Hb.
  match type of Hb with
  | buildWhere _ _ _ _ _ _ ?w1 = _ =>
      pose proof (buildWhere_grows idNames regexp_ok "id" fuel model (VRef lw) w1) as G
  end.
  rewrite Hb in G. destruct G as (E & L & F).
  destruct w as [h ev]. destruct w2 as [h2 ev2]. cbn [heap events fst snd] in *. subst ev2.
  assert (lf < length h) as Hlf by (eapply lookup_lt_Some, Hf).
  assert (lw < length h) as Hllw by (eapply lookup_lt_Some, Hlw).
  rewrite length_insert, length_app in L, F. cbn [length] in L, F.
  assert (h2 !! lw = Some (OObj cw (set_own "_uri" u (delete_own idn pw)))) as Hw2.
  { rewrite F by lia. apply list_lookup_insert_eq. rewrite length_app. lia. }
  split; [| exact Hw2].
  assert (exists o, h2 !! lf = Some o) as [o Ho].
  { apply lookup_lt_is_Some_2. lia. }
  unfold Ml.all, Ml.db_call. cbn [truthy]. repeat mstep. rewrite Hw. cbn [or_undefined truthy].
  repeat mstep. fold idn. rewrite Hid. repeat mstep.
  erewrite run_put_ref
    by (simpl; apply list_lookup_insert_eq; rewrite length_app; lia).
  rewrite (accessor_ordinary "_uri" _ eq_refl). cbn [heap events].
  rewrite list_insert_insert_eq. fold u. unfold Ml.buildWhere.
  rewrite Hb. repeat mstep. rewrite lookup_set_own_eq. cbn [or_undefined]. rewrite Hu.
  repeat mstep. reflexivity.
Qed.

Lemma all_by_identity_witness :
  Ml.all ids any_regexp same true 1 "Widget" (VRef 0) VUndefined (Some complete)
    (Rejected VNull) (World filter_by_id []) =
    (Ret tt,
     World [plain [("where", VRef 1)];
            plain [("name", VStr "a"); ("_uri", VStr "Widget%2F1.json")];
            plain [];
            plain [("name", VStr "a"); ("_uri", VStr "Widget%2F1.json")]]
           [Request "documents.read" [VStr "Widget%2F1.json"]]).
Proof.
  apply (proj1 (all_by_identity ids any_regexp same 1 "Widget" 0 (Some "Object")
                  [("where", VRef 1)] 1 (Some "Object")
                  [("id", VStr "Widget%2F1.json"); ("name", VStr "a")] VUndefined
                  (Some complete) (Rejected VNull) (VRef 3) (World filter_by_id [])
                  (World [plain [("where", VRef 1)];
                          plain [("name", VStr "a"); ("_uri", VStr "Widget%2F1.json")];
                          plain [];
                          plain [("name", VStr "a"); ("_uri", VStr "Widget%2F1.json")]] [])
                  eq_refl eq_refl eq_refl eq_refl eq_refl eq_refl)).
Defined.

(** X14: without an identity to look up, [all] asks the store for the
    collection of the model: with the translated filter when no field
    selection is given (the empty query when there is no filter at all), and
    without any filter when one is given.  The filter and its [where] are
    objects that answer to [fields], to the identity name and to [_uri] with
    their own properties only. *)
Theorem all_by_query idNames regexp_ok unescape fuel model options callback reply w :
  (forall filter, truthy filter = false ->
     Ml.all idNames regexp_ok unescape true fuel model filter options callback reply w =
       then_ reply (Ml.processResponse callback)
         (World (heap w ++ [plain []; plain []])
                (events w ++ [Request "queryCollection"
                                [VStr model; VRef (S (length (heap w)))]]))) /\
  (forall lf c ps lw cw pw q w2,
     heap w !! lf = Some (OObj c ps) ->
     lookup_prop "where" ps = Some (VRef lw) ->
     heap w !! lw = Some (OObj cw pw) ->
     truthy (or_undefined (lookup_prop (key_of (Ml.idValue idNames model)) pw)) = false ->
     truthy (or_undefined (lookup_prop "_uri" pw)) = false ->
     inherited cw pw (key_of (Ml.idValue idNames model)) = false ->
     inherited cw pw "_uri" = false ->
     inherited c ps "fields" = false ->
     Ml.buildWhere idNames regexp_ok fuel model (VRef lw)
       (World (heap w ++ [plain []]) (events w)) = (Ret q, w2) ->
     Ml.all idNames regexp_ok unescape true fuel model (VRef lf) options callback reply w =
       then_ reply (Ml.processResponse callback)
         (World (heap w2)
                (events w ++
                 [Request "queryCollection"
                    (if truthy (or_undefined (lookup_prop "fields" ps))
                     then [VStr model] else [VStr model; q])]))).
Proof.
  destruct w as [h ev]. cbn [heap events]. split.
  - intros filter Hf. unfold Ml.all, Ml.db_call. rewrite Hf. repeat mstep. reflexivity.
  - intros lf c ps lw cw pw q [h2 ev2] Hf Hw Hlw Hid Huri _ _ _ Hb.
    unfold Ml.buildWhere in Hb.
    pose proof (buildWhere_grows idNames regexp_ok "id" fuel model (VRef lw)
                  (World (h ++ [plain []]) ev)) as G.
    rewrite Hb in G. destruct G as (E & L & F). cbn [heap events fst snd] in *. subst ev2.
    assert (lf < length h) as Hlf by (eapply lookup_lt_Some, Hf).
    assert (lw < length h) as Hllw by (eapply lookup_lt_Some, Hlw).
    rewrite length_app in L, F. cbn [length] in L, F.
    assert (h2 !! lw = Some (OObj cw pw)) as Hw2.
    { rewrite F by lia. now apply lookup_grown. }
    assert (h2 !! lf = Some (OObj c ps)) as Hf2.
    { rewrite F by lia. now apply lookup_grown. }
    unfold Ml.all, Ml.db_call. cbn [truthy]. repeat mstep. rewrite Hw.
    cbn [or_undefined truthy]. repeat mstep. rewrite Hid. repeat mstep.
    unfold Ml.buildWhere. rewrite Hb. repeat mstep. rewrite Huri.
    destruct (truthy (or_undefined (lookup_prop "fields" ps))); repeat mstep; reflexivity.
Qed.

Lemma all_by_query_witness :
  Ml.all ids any_regexp same true 1 "Widget" VUndefined VUndefined (Some complete)
    (Resolved (VRef 0)) (World [OArr []] []) =
    (Ret tt,
     World [OArr []; plain []; plain []; OArr []]
           [Request "queryCollection" [VStr "Widget"; VRef 2]; Complete [VNull; VRef 3]]) /\
  Ml.all ids any_regexp same true 1 "Widget" (VRef 0) VUndefined (Some complete)
    (Resolved (VRef 3)) (World filter_by_name []) =
    (Ret tt,
     World (filter_by_name ++ [plain []; plain [("name", VStr "a")]; OArr []])
           [Request "queryCollection" [VStr "Widget"]; Complete [VNull; VRef 6]]).
Proof.
  split.
  - apply (proj1 (all_by_query ids any_regexp same 1 "Widget" VUndefined (Some complete)
                    (Resolved (VRef 0)) (World [OArr []] [])) VUndefined eq_refl).
  - apply (proj2 (all_by_query ids any_regexp same 1 "Widget" VUndefined (Some complete)
                    (Resolved (VRef 3)) (World filter_by_name []))
             0 (Some "Object") [("where", VRef 1); ("fields", VRef 2)] 1 (Some "Object")
             [("name", VStr "a")] (VRef 5)
             (World (filter_by_name ++ [plain []; plain [("name", VStr "a")]]) [])
             eq_refl eq_refl eq_refl eq_refl eq_refl eq_refl eq_refl eq_refl eq_refl).
Defined.

(** ** Counting, removing and saving in the document-API connector *)

Lemma not_mapping_id where_ w :
  where_ = VNull \/ typeof where_ <> "object" ->
  (if truthy where_ then get_prop where_ "id" else mret where_) w = (Ret VUndefined, w) \/
  truthy where_ = false.
Proof.
  intros [-> | H]; [now right |].
  destruct where_; try (now elim H); try (now right);
    match goal with
    | |- (if ?b then _ else _) _ = _ \/ _ => destruct b eqn:T
    end; try (now right); left; reflexivity.
Qed.

(** X15: [count] reads the document at [filter.id] (unescaped) when the
    filter carries a truthy [id], and otherwise queries the collection with
    the translated filter (the empty query when the filter is no mapping);
    either way the callback receives the length of what the store
    answers. *)
Theorem count_by_locator_or_query idNames regexp_ok unescape fuel model filter options
    callback reply w :
  (filter = VNull \/ typeof filter <> "object" ->
   Ml.count idNames regexp_ok unescape true (S fuel) model filter options callback reply w =
     then_ reply (fun response => n ← get_prop response "length"; call callback [VNull; n])
       (World (heap w ++ [plain []])
              (events w ++ [Request "queryCollection" [VStr model; VRef (length (heap w))]]))) /\
  (forall lf o q w1,
     filter = VRef lf -> heap w !! lf = Some o ->
     Ml.buildWhere idNames regexp_ok fuel model filter w = (Ret q, w1) ->
     Ml.count idNames regexp_ok unescape true fuel model filter options callback reply w =
       then_ reply (fun response => n ← get_prop response "length"; call callback [VNull; n])
         (World (heap w1)
                (events w ++
                 [if truthy (own_prop o "id")
                  then Request "documents.read" [unescape (own_prop o "id")]
                  else Request "queryCollection" [VStr model; q]]))).
Proof.
  split.
  - intros Hnm. unfold Ml.count, Ml.buildWhere, Ml.db_call.
    rewrite run_bind, (run_buildWhere_empty _ _ _ _ _ _ _ (not_mapping_test _ Hnm)).
    cbv beta iota.
    assert (exists id, (if truthy filter then get_prop filter "id" else mret filter)
                         (World (heap w ++ [plain []]) (events w)) =
                       (Ret id, World (heap w ++ [plain []]) (events w)) /\
                       truthy id = false) as (id & Hget & Hid).
    { destruct (not_mapping_id filter (World (heap w ++ [plain []]) (events w)) Hnm)
        as [-> | Hf]; [eexists; split; reflexivity |].
      rewrite Hf. eexists; split; [reflexivity | exact Hf]. }
    rewrite run_bind, Hget. cbv beta iota. rewrite Hid. repeat mstep. reflexivity.
  - intros lf o q [h1 ev1] -> Ho Hb.
    pose proof (buildWhere_grows idNames regexp_ok "id" fuel model (VRef lf) w) as G.
    unfold Ml.buildWhere in Hb. rewrite Hb in G. destruct G as (E & L & F).
    cbn [heap events fst snd] in *. subst ev1.
    assert (h1 !! lf = Some o) as Ho1 by (rewrite F; [exact Ho | eapply lookup_lt_Some, Ho]).
    unfold Ml.count, Ml.buildWhere, Ml.db_call. rewrite run_bind, Hb. cbn [truthy].
    repeat mstep. destruct (truthy (own_prop o "id")); repeat mstep; reflexivity.
Qed.

Lemma count_by_locator_or_query_witness :
  Ml.count ids any_regexp same true 1 "Widget" (VRef 0) VUndefined (Some complete)
    (Resolved (VRef 1)) (World filter_located []) =
    (Ret tt,
     World (filter_located ++ [plain [("id", VStr "Widget%2F1.json")]])
           [Request "documents.read" [VStr "Widget%2F1.json"]; Complete [VNull; VNum 1]]).
Proof.
  apply (proj2 (count_by_locator_or_query ids any_regexp same 1 "Widget" (VRef 0) VUndefined
                  (Some complete) (Resolved (VRef 1)) (World filter_located []))
           0 (plain [("id", VStr "Widget%2F1.json")]) (VRef 3)
           (World (filter_located ++ [plain [("id", VStr "Widget%2F1.json")]]) [])
           eq_refl eq_refl eq_refl).
Defined.

(** X16: [destroyAll] removes only by locator: when the translated filter
    carries no truthy [id] (so for every filter that is no mapping, the
    absent one too) nothing is asked of the store and the callback is never
    invoked; with one, the store is asked to remove the document at that
    locator (unescaped): when it answers, the callback receives a new
    [{count: n}], [n] the number of locators the answer lists, and when it
    rejects, nothing follows the request. *)
Theorem destroyAll_by_locator idNames regexp_ok unescape fuel model where_ options w :
  (where_ = VNull \/ typeof where_ <> "object" ->
   forall callback reply,
     Ml.destroyAll idNames regexp_ok unescape true (S fuel) model where_ options callback
       reply w =
       (Ret tt, World (heap w ++ [plain []]) (events w))) /\
  (forall lq oq w1,
     Ml.buildWhere idNames regexp_ok fuel model where_ w = (Ret (VRef lq), w1) ->
     heap w1 !! lq = Some oq ->
     (truthy (own_prop oq "id") = false ->
      forall callback reply,
        Ml.destroyAll idNames regexp_ok unescape true fuel model where_ options callback
          reply w =
          (Ret tt, World (heap w1) (events w))) /\
     (truthy (own_prop oq "id") = true ->
      (forall callback reason,
         Ml.destroyAll idNames regexp_ok unescape true fuel model where_ options callback
           (Rejected reason) w =
           (Ret tt,
            World (heap w1)
                  (events w ++ [Request "documents.remove" [unescape (own_prop oq "id")]]))) /\
      (forall lr or lu es,
         heap w !! lr = Some or -> own_prop or "uris" = VRef lu ->
         heap w !! lu = Some (OArr es) ->
         Ml.destroyAll idNames regexp_ok unescape true fuel model where_ options
           (Some complete) (Resolved (VRef lr)) w =
           (Ret tt,
            World (heap w1 ++ [plain [("count", VNum (Z.of_nat (length es)))]])
                  (events w ++ [Request "documents.remove" [unescape (own_prop oq "id")];
                                Complete [VNull; VRef (length (heap w1))]]))))).
Proof.
  split.
  - intros Hnm callback reply. unfold Ml.destroyAll, Ml.buildWhere.
    rewrite run_bind, (run_buildWhere_empty _ _ _ _ _ _ _ (not_mapping_test _ Hnm)).
    destruct w as [h ev]. repeat mstep. reflexivity.
  - intros lq oq [h1 ev1] Hb Ho.
    pose proof (buildWhere_events _ _ _ _ _ _ _ _ _ Hb) as E.
    pose proof (buildWhere_grows idNames regexp_ok "id" fuel model where_ w) as G.
    unfold Ml.buildWhere in Hb. rewrite Hb in G. destruct G as (_ & _ & F).
    cbn [heap events fst snd] in *. subst ev1. split.
    + intros Hid callback reply. unfold Ml.destroyAll, Ml.buildWhere, Ml.db_call.
      rewrite run_bind, Hb. repeat mstep. rewrite Hid. reflexivity.
    + intros Hid. split.
      * intros callback reason. unfold Ml.destroyAll, Ml.buildWhere, Ml.db_call.
        rewrite run_bind, Hb. repeat mstep. rewrite Hid. repeat mstep. reflexivity.
      * intros lr or lu es Hr Hu Hlu.
        assert (h1 !! lr = Some or) as Hr1.
        { rewrite F by (eapply lookup_lt_Some, Hr). exact Hr. }
        assert (h1 !! lu = Some (OArr es)) as Hu1.
        { rewrite F by (eapply lookup_lt_Some, Hlu). exact Hlu. }
        unfold Ml.destroyAll, Ml.buildWhere, Ml.db_call.
        rewrite run_bind, Hb. repeat mstep. rewrite Hid. repeat mstep.
        unfold then_, call_guarded, complete. repeat mstep. rewrite Hu. repeat mstep.
        unfold index_value. simpl. repeat mstep. reflexivity.
Qed.

Lemma destroyAll_by_locator_witness :
  Ml.destroyAll ids any_regexp same true 1 "Widget" VUndefined VUndefined (Some complete)
    (Resolved VUndefined) (World [] []) = (Ret tt, World [plain []] []) /\
  Ml.destroyAll ids any_regexp same true 1 "Widget" (VRef 0) VUndefined (Some complete)
    (Resolved (VRef 1)) (World filter_removed []) =
    (Ret tt,
     World (filter_removed ++
            [plain [("id", VStr "Widget%2F1.json")]; plain [("count", VNum 1)]])
           [Request "documents.remove" [VStr "Widget%2F1.json"]; Complete [VNull; VRef 4]]).
Proof.
  split.
  - apply (proj1 (destroyAll_by_locator ids any_regexp same 0 "Widget" VUndefined VUndefined
                    (World [] []))). right. discriminate.
  - apply (proj2 (proj2 (proj2 (destroyAll_by_locator ids any_regexp same 1 "Widget" (VRef 0)
                                  VUndefined (World filter_removed []))
                           3 (plain [("id", VStr "Widget%2F1.json")])
                           (World (filter_removed ++ [plain [("id", VStr "Widget%2F1.json")]]) [])
                           eq_refl eq_refl) eq_refl)
             1 (plain [("uris", VRef 2)]) 2 [VStr "Widget/1.json"] eq_refl eq_refl eq_refl).
Defined.

(** X17: [save] writes the record at the locator it carries as [id]; when
    the store acknowledges the write, the locator the store reports is
    stored on the record as [id] and handed to the callback, once; when the
    store rejects it, nothing follows the request. *)
Theorem save_stores_locator model ld c ps options w :
  heap w !! ld = Some (OObj c ps) ->
  let doc := plain [("uri", or_undefined (lookup_prop "id" ps)); ("content", VRef ld);
                    ("contentType", VStr "application/json")] in
  (forall callback reason,
     Ml.save true model (VRef ld) options callback (Rejected reason) w =
       (Ret tt,
        World (heap w ++ [doc])
              (events w ++ [Request "documents.write" [VRef (length (heap w))]]))) /\
  (forall lr or ldocs odocs ldoc odoc,
     heap w !! lr = Some or -> own_prop or "documents" = VRef ldocs ->
     heap w !! ldocs = Some odocs -> own_prop odocs "0" = VRef ldoc ->
     heap w !! ldoc = Some odoc ->
     Ml.save true model (VRef ld) options (Some complete) (Resolved (VRef lr)) w =
       (Ret tt,
        World (<[ld := OObj c (set_own "id" (own_prop odoc "uri") ps)]> (heap w ++ [doc]))
              (events w ++ [Request "documents.write" [VRef (length (heap w))];
                            Complete [VNull; own_prop odoc "uri"]]))).
Proof.
  intros Hd doc. destruct w as [h ev]. cbn [heap events] in *. split.
  - intros callback reason. unfold Ml.save, Ml.db_call. repeat mstep. reflexivity.
  - intros lr or ldocs odocs ldoc odoc Hr Hdocs Hodocs Hdoc Hodoc.
    unfold Ml.save, Ml.db_call. repeat mstep. unfold then_, Ml.written.
    repeat mstep. rewrite Hdocs. repeat mstep. rewrite Hdoc. repeat mstep.
    erewrite run_get_ref
      by (simpl; apply list_lookup_insert_eq; rewrite length_app;
          apply lookup_lt_Some in Hd; lia).
    cbn [own_prop]. rewrite lookup_set_own_eq. unfold call, complete. repeat mstep.
    reflexivity.
Qed.

Lemma save_stores_locator_witness :
  Ml.save true "Widget" (VRef 0) VUndefined (Some complete) (Resolved (VRef 1))
    (World widget_saved []) =
    (Ret tt,
     World (widget_saved ++ [plain [("uri", VStr "Widget/1.json"); ("content", VRef 0);
                                    ("contentType", VStr "application/json")]])
           [Request "documents.write" [VRef 4]; Complete [VNull; VStr "Widget/1.json"]]).
Proof.
  apply (proj2 (save_stores_locator "Widget" 0 (Some "Object")
                  [("id", VStr "Widget/1.json"); ("name", VStr "b")] VUndefined
                  (World widget_saved []) eq_refl)
           1 (plain [("documents", VRef 2)]) 2 (OArr [VRef 3]) 3
           (plain [("uri", VStr "Widget/1.json")]) eq_refl eq_refl eq_refl eq_refl eq_refl).
Defined.

(** ** The collection-command connector *)

Lemma existsb_keys k ps :
  existsb (String.eqb k) (map fst ps) =
    match lookup_prop k ps with Some _ => true | None => false end.
Proof.
  induction ps as [| [k' v] t IH]; [reflexivity |]. simpl.
  rewrite (String.eqb_sym k k'). destruct (k' =? k)%string; [reflexivity | exact IH].
Qed.

(** X18: [idIncluded] decides whether a read hands back the identity named
    [s]: yes without a field selection; for a list, when the list holds the
    name; for a mapping that answers to [s] with an own property or not at
    all, by the identity's own entry when it has one, and otherwise by the
    first entry, a selection by exclusion keeping the identity and a
    selection by inclusion dropping it. *)
Theorem idIncluded_decides fields s w :
  (truthy fields = false -> MlOrig.idIncluded fields (VStr s) w = (Ret true, w)) /\
  (forall l es, fields = VRef l -> heap w !! l = Some (OArr es) ->
     MlOrig.idIncluded fields (VStr s) w = (Ret (existsb (strict_eq (VStr s)) es), w)) /\
  (forall l c ps, fields = VRef l -> heap w !! l = Some (OObj c ps) ->
     inherited c ps s = false ->
     MlOrig.idIncluded fields (VStr s) w = (Ret (id_included s ps), w)).
Proof.
  split; [| split].
  - intros H. unfold MlOrig.idIncluded. now rewrite H.
  - intros l es -> H. unfold MlOrig.idIncluded. cbn [truthy negb]. repeat mstep. reflexivity.
  - intros l c ps -> H _. unfold MlOrig.idIncluded, id_included. cbn [truthy negb to_string].
    repeat mstep.
    destruct (lookup_prop s ps) as [v |] eqn:E; cbn [or_undefined].
    + destruct (truthy v) eqn:T; [reflexivity |]. repeat mstep.
      now rewrite existsb_keys, E.
    + cbn [truthy]. repeat mstep. rewrite existsb_keys, E.
      destruct ps as [| [k v] t]; [reflexivity |]. cbn [map fst].
      repeat mstep. now rewrite String.eqb_refl.
Qed.

Lemma idIncluded_decides_witness :
  MlOrig.idIncluded (VRef 0) (VStr "id") (World fields_selected []) =
    (Ret false, World fields_selected []) /\
  MlOrig.idIncluded (VRef 1) (VStr "id") (World fields_selected []) =
    (Ret true, World fields_selected []) /\
  MlOrig.idIncluded (VRef 2) (VStr "id") (World fields_selected []) =
    (Ret true, World fields_selected []) /\
  MlOrig.idIncluded (VRef 3) (VStr "id") (World fields_selected []) =
    (Ret true, World fields_selected []) /\
  MlOrig.idIncluded VUndefined (VStr "id") (World fields_selected []) =
    (Ret true, World fields_selected []).
Proof.
  split; [| split; [| split; [| split]]].
  - apply (proj2 (proj2 (idIncluded_decides (VRef 0) "id" (World fields_selected [])))
             0 (Some "Object") [("name", VBool true)] eq_refl eq_refl eq_refl).
  - apply (proj2 (proj2 (idIncluded_decides (VRef 1) "id" (World fields_selected [])))
             1 (Some "Object") [("name", VBool false)] eq_refl eq_refl eq_refl).
  - apply (proj2 (proj2 (idIncluded_decides (VRef 2) "id" (World fields_selected [])))
             2 (Some "Object") [("name", VBool true); ("id", VBool true)]
             eq_refl eq_refl eq_refl).
  - apply (proj1 (proj2 (idIncluded_decides (VRef 3) "id" (World fields_selected [])))
             3 [VStr "name"; VStr "id"] eq_refl eq_refl).
  - apply (proj1 (idIncluded_decides VUndefined "id" (World fields_selected [])) eq_refl).
Defined.

(** ** Writes of the collection-command connector *)

Arguments to_string : simpl never.
Arguments MlOrig.execute : simpl never.
Arguments collection : simpl never.

(** Without a client [execute] raises before anything is asked. *)
Lemma run_execute_unconnected ls c ps handle model command params callback reply w :
  heap w !! ls = Some (OObj c ps) ->
  truthy (or_undefined (lookup_prop "db" ps)) = false ->
  MlOrig.execute (VRef ls) handle model command params callback reply w =
    (Raise ConnectionError, w).
Proof.
  intros H Hdb. unfold MlOrig.execute, collection. rewrite run_bind, run_bind.
  rewrite (run_get_ref _ _ _ _ H). cbn [own_prop]. now rewrite Hdb.
Qed.





(** X21: [exists] asks for the collection of the model, then for the one
    record at the locator, and answers with a boolean, once: [true] exactly
    when the store reports no error and hands back something truthy; an
    error is passed on, with [false]; a connector without a client raises
    before anything is asked. *)
Theorem exists_answers self (lh : nat) model uri options err data w :
  (forall name, serves (heap w) self model name ->
     MlOrig.exists_ self (VRef lh) model uri options (Some complete) (err, data) w =
       (Ret tt,
        World (heap w ++ [plain [("_uri", uri)]])
              (events w ++ [Request "queryCollection" [name];
                            Request "findOne" [VRef (length (heap w))];
                            Complete [err; VBool (negb (truthy err) && truthy data)]]))) /\
  (forall ls c ps, self = VRef ls -> heap w !! ls = Some (OObj c ps) ->
     truthy (or_undefined (lookup_prop "db" ps)) = false ->
     MlOrig.exists_ self (VRef lh) model uri options (Some complete) (err, data) w =
       (Raise ConnectionError, World (heap w ++ [plain [("_uri", uri)]]) (events w))).
Proof.
  destruct w as [h ev]. cbn [heap events]. split.
  - intros name Hs. unfold MlOrig.exists_. repeat mstep.
    rewrite (run_execute self lh model name) by (cbn [heap]; now apply serves_grown).
    unfold call, complete. cbn [fst snd heap events]. rewrite run_emit.
    cbn [heap events]. now rewrite <- app_assoc.
  - intros ls c ps -> Hl Hdb. unfold MlOrig.exists_. repeat mstep.
    now rewrite (run_execute_unconnected ls c ps) by (heap_lookup || exact Hdb).
Qed.

Lemma exists_answers_witness :
  MlOrig.exists_ (VRef 1) (VRef 8) "Widget" (VStr "Widget/1.json") VUndefined
    (Some complete) (VNull, VRef 0) (World (widget_found ++ widget_connector 1) []) =
    (Ret tt,
     World (widget_found ++ widget_connector 1 ++ [plain [("_uri", VStr "Widget/1.json")]])
           [Request "queryCollection" [VStr "Widget"]; Request "findOne" [VRef 9];
            Complete [VNull; VBool true]]) /\
  MlOrig.exists_ (VRef 0) (VRef 9) "Widget" (VStr "Widget/1.json") VUndefined
    (Some complete) (VNull, VUndefined) (World connector_new []) =
    (Raise ConnectionError,
     World (connector_new ++ [plain [("_uri", VStr "Widget/1.json")]]) []).
Proof.
  split.
  - apply (proj1 (exists_answers (VRef 1) 8 "Widget" (VStr "Widget/1.json") VUndefined
                    VNull (VRef 0) (World (widget_found ++ widget_connector 1) []))
             (VStr "Widget") (fun _ _ => eq_refl)).
  - apply (proj2 (exists_answers (VRef 0) 9 "Widget" (VStr "Widget/1.json") VUndefined
                    VNull VUndefined (World connector_new []))
             0 (Some "MarkLogic") [("settings", VRef 1); ("_models", VRef 3)]
             eq_refl eq_refl eq_refl).
Defined.

(** X22: [find] asks for the collection of the model, then for the one
    record at the locator, and hands what comes back to the conversion
    [fromDatabase]; when that returns, its result goes to the callback with
    the store's error, once, a converted record having lost its [_uri]
    unless [_uri] is the model's identity name; when it raises, the callback
    is not invoked. *)
Theorem find_converts idNames self (lh : nat) name fromDatabase model uri options
    err data w :
  serves (heap w) self model name ->
  let w1 := World (heap w ++ [plain [("_uri", uri)]])
                  (events w ++ [Request "queryCollection" [name];
                                Request "findOne" [VRef (length (heap w))]]) in
  (forall d w2, fromDatabase model data w1 = (Ret d, w2) ->
     (truthy d = false ->
      MlOrig.find idNames self (VRef lh) fromDatabase model uri options (Some complete)
        (err, data) w =
        (Ret tt, World (heap w2) (events w2 ++ [Complete [err; d]]))) /\
     (forall l c ps, d = VRef l -> heap w2 !! l = Some (OObj c ps) ->
        MlOrig.find idNames self (VRef lh) fromDatabase model uri options (Some complete)
          (err, data) w =
          (Ret tt,
           World (if (key_of (MlOrig.idValue idNames model) =? "_uri")%string then heap w2
                  else <[l := OObj c (delete_own "_uri" ps)]> (heap w2))
                 (events w2 ++ [Complete [err; d]])))) /\
  (forall e w2, fromDatabase model data w1 = (Raise e, w2) ->
     MlOrig.find idNames self (VRef lh) fromDatabase model uri options (Some complete)
       (err, data) w = (Raise e, w2)).
Proof.
  intros Hs w1. destruct w as [h ev]. cbn [heap events] in *. subst w1.
  assert (forall cb, MlOrig.find idNames self (VRef lh) fromDatabase model uri options cb
            (err, data) (World h ev) =
          (d ← fromDatabase model data;
           (if truthy d && negb (key_of (MlOrig.idValue idNames model) =? "_uri")%string
            then delete_prop d "_uri" else mret tt);;
           call_guarded cb [err; d])
            (World (h ++ [plain [("_uri", uri)]])
                   (ev ++ [Request "queryCollection" [name];
                           Request "findOne" [VRef (length h)]]))) as Hrun.
  { intros cb. unfold MlOrig.find. repeat mstep.
    rewrite (run_execute self lh model name) by (cbn [heap]; now apply serves_grown).
    reflexivity. }
  split.
  - intros d [h2 ev2] Hfd. cbn [heap events]. split.
    + intros Hd. rewrite Hrun, run_bind, Hfd. cbv beta iota. rewrite Hd.
      unfold call_guarded, complete. repeat mstep. reflexivity.
    + intros l c ps -> Hl. rewrite Hrun, run_bind, Hfd. cbv beta iota. cbn [truthy andb].
      unfold call_guarded, complete.
      destruct (key_of (MlOrig.idValue idNames model) =? "_uri")%string; repeat mstep;
        reflexivity.
  - intros e w2 Hfd. now rewrite Hrun, run_bind, Hfd.
Qed.

Lemma find_converts_witness :
  MlOrig.find ids (VRef 1) (VRef 8) as_stored "Widget" (VStr "Widget/1.json") VUndefined
    (Some complete) (VNull, VRef 0) (World (widget_found ++ widget_connector 1) []) =
    (Ret tt,
     World (<[0 := plain [("name", VStr "a")]]>
              (widget_found ++ widget_connector 1 ++ [plain [("_uri", VStr "Widget/1.json")]]))
           [Request "queryCollection" [VStr "Widget"]; Request "findOne" [VRef 9];
            Complete [VNull; VRef 0]]) /\
  MlOrig.find ids (VRef 1) (VRef 8) not_defined "Widget" (VStr "Widget/1.json") VUndefined
    (Some complete) (VNull, VRef 0) (World (widget_found ++ widget_connector 1) []) =
    (Raise TypeError,
     World (widget_found ++ widget_connector 1 ++ [plain [("_uri", VStr "Widget/1.json")]])
           [Request "queryCollection" [VStr "Widget"]; Request "findOne" [VRef 9]]).
Proof.
  split.
  - apply (proj2 (proj1 (find_converts ids (VRef 1) 8 (VStr "Widget") as_stored "Widget"
                    (VStr "Widget/1.json") VUndefined VNull (VRef 0)
                    (World (widget_found ++ widget_connector 1) []) (fun _ _ => eq_refl))
             (VRef 0) _ eq_refl)
             0 (Some "Object") [("_uri", VStr "Widget/1.json"); ("name", VStr "a")]
             eq_refl eq_refl).
  - apply (proj2 (find_converts ids (VRef 1) 8 (VStr "Widget") not_defined "Widget"
                    (VStr "Widget/1.json") VUndefined VNull (VRef 0)
                    (World (widget_found ++ widget_connector 1) []) (fun _ _ => eq_refl))
             TypeError _ eq_refl).
Defined.

(** X23: [destroy] asks for the collection of the model, then to remove the
    record at the locator, and hands on, once, the store's error and the
    operations its answer lists (the answer itself when it is falsy); a
    connector without a client raises before anything is asked. *)
Theorem destroy_reports self (lh : nat) model uri options err result w :
  (forall name, serves (heap w) self model name ->
     let asked := events w ++ [Request "queryCollection" [name];
                               Request "remove" [VRef (length (heap w))]] in
     (truthy result = false ->
      MlOrig.destroy self (VRef lh) model uri options (Some complete) (err, result) w =
        (Ret tt,
         World (heap w ++ [plain [("_uri", uri)]]) (asked ++ [Complete [err; result]]))) /\
     (forall lr or, result = VRef lr -> heap w !! lr = Some or ->
        MlOrig.destroy self (VRef lh) model uri options (Some complete) (err, result) w =
          (Ret tt,
           World (heap w ++ [plain [("_uri", uri)]])
                 (asked ++ [Complete [err; own_prop or "ops"]])))) /\
  (forall ls c ps, self = VRef ls -> heap w !! ls = Some (OObj c ps) ->
     truthy (or_undefined (lookup_prop "db" ps)) = false ->
     MlOrig.destroy self (VRef lh) model uri options (Some complete) (err, result) w =
       (Raise ConnectionError, World (heap w ++ [plain [("_uri", uri)]]) (events w))).
Proof.
  destruct w as [h ev]. cbn [heap events]. split.
  - intros name Hs. split.
    + intros Hr. unfold MlOrig.destroy. repeat mstep.
      rewrite (run_execute self lh model name) by (cbn [heap]; now apply serves_grown).
      unfold call_guarded, complete. cbn [fst snd heap events]. rewrite Hr.
      repeat mstep. reflexivity.
    + intros lr or -> Hr. unfold MlOrig.destroy. repeat mstep.
      rewrite (run_execute self lh model name) by (cbn [heap]; now apply serves_grown).
      unfold call_guarded, complete. cbn [fst snd heap events truthy].
      repeat mstep. reflexivity.
  - intros ls c ps -> Hl Hdb. unfold MlOrig.destroy. repeat mstep.
    now rewrite (run_execute_unconnected ls c ps) by (heap_lookup || exact Hdb).
Qed.

Lemma destroy_reports_witness :
  MlOrig.destroy (VRef 2) (VRef 9) "Widget" (VStr "Widget/1.json") VUndefined
    (Some complete) (VNull, VRef 0) (World (widget_removed ++ widget_connector 2) []) =
    (Ret tt,
     World (widget_removed ++ widget_connector 2 ++ [plain [("_uri", VStr "Widget/1.json")]])
           [Request "queryCollection" [VStr "Widget"]; Request "remove" [VRef 10];
            Complete [VNull; VRef 1]]) /\
  MlOrig.destroy (VRef 0) (VRef 9) "Widget" (VStr "Widget/1.json") VUndefined
    (Some complete) (VNull, VUndefined) (World connector_new []) =
    (Raise ConnectionError,
     World (connector_new ++ [plain [("_uri", VStr "Widget/1.json")]]) []).
Proof.
  split.
  - apply (proj2 (proj1 (destroy_reports (VRef 2) 9 "Widget" (VStr "Widget/1.json")
                    VUndefined VNull (VRef 0)
                    (World (widget_removed ++ widget_connector 2) []))
             (VStr "Widget") (fun _ _ => eq_refl))
             0 (plain [("ops", VRef 1)]) eq_refl eq_refl).
  - apply (proj2 (destroy_reports (VRef 0) 9 "Widget" (VStr "Widget/1.json") VUndefined
                    VNull VUndefined (World connector_new []))
             0 (Some "MarkLogic") [("settings", VRef 1); ("_models", VRef 3)]
             eq_refl eq_refl eq_refl).
Defined.

(** ** Reads of the collection-command connector *)

(** One record of a listing up to its conversion: the locator moves from
    [_uri] to the identity name. *)
Lemma run_restore_step idNames (fromDatabase : string -> value -> M value) model i :
  idNames model = [i] -> (i =? "__proto__")%string = false ->
  forall (l : nat) h t ev c ps, h !! l = Some (OObj c ps) ->
  (inc ← MlOrig.idIncluded VUndefined (MlOrig.idValue idNames model);
   (if inc : bool then
      u ← get_prop (VRef l) "_uri";
      MlOrig.setIdValue idNames model (VRef l) u
    else mret tt);;
   (if truthy VUndefined || negb (key_of (MlOrig.idValue idNames model) =? "_uri")%string
    then delete_prop (VRef l) "_uri" else mret tt);;
   fromDatabase model (VRef l)) (World (h ++ t) ev) =
  fromDatabase model (VRef l) (World (restore i l h ++ t) ev).
Proof.
  intros Hid Hi l h t ev c ps Hl. pose proof (lookup_lt_Some _ _ _ Hl) as Hlt.
  unfold MlOrig.idIncluded, MlOrig.setIdValue, MlOrig.idValue, idName. rewrite Hid.
  cbn [head fmap option_fmap option_map or_undefined key_of truthy orb negb].
  repeat mstep. rewrite insert_app_l by exact Hlt.
  unfold restore, restored_record. rewrite Hl. cbv zeta.
  destruct (i =? "_uri")%string; cbn [negb].
  - repeat mstep. reflexivity.
  - erewrite run_delete_ref
      by (simpl; apply lookup_grown; now apply list_lookup_insert_eq).
    repeat mstep. rewrite insert_app_l by (rewrite length_insert; exact Hlt).
    rewrite list_insert_insert_eq. reflexivity.
Qed.

Arguments MlOrig.sort_order : simpl never.
Arguments MlOrig.idIncluded : simpl never.
Arguments MlOrig.setIdValue : simpl never.
Arguments map_m : simpl never.

Lemma lookup_at (h t : list object) k : (h ++ t) !! (length h + k) = t !! k.
Proof. rewrite lookup_app_r by lia. f_equal. lia. Qed.

Lemma insert_at (h t : list object) k o : <[length h + k := o]> (h ++ t) = h ++ <[k := o]> t.
Proof. rewrite insert_app_r_alt by lia. do 2 f_equal. lia. Qed.

Lemma run_sort_order_fresh idNames model i h q ev :
  idNames model = [i] -> match_direction i = None -> trim i = i ->
  MlOrig.sort_order idNames model (VRef (length h)) (World (h ++ [plain []; q]) ev) =
    (Ret (VRef (length h + 2)),
     World (h ++ [plain [("order", VRef (length h + 3))]; q;
                  plain [("_uri", VNum 1)]; OArr [VStr i]]) ev).
Proof.
  intros Hid Hm Ht.
  pose proof (direction_identity idNames model i [] Hid Hm Ht) as D.
  assert (ordinary_keys idNames model [i] = true) as Hord.
  { unfold ordinary_keys. cbn [forallb]. now rewrite D. }
  unfold MlOrig.sort_order. rewrite Hid.
  repeat mstep. rewrite !length_app. cbn [length].
  erewrite run_order_keys by (simpl; rewrite (lookup_at h _ 3); reflexivity).
  rewrite run_bind.
  rewrite (run_order_loop idNames model (length h + 2) [i] [])
    by (first [ simpl; rewrite (lookup_at h _ 2); reflexivity | exact Hord ]).
  repeat mstep. rewrite insert_at. unfold order_props. cbn [fold_left]. rewrite D.
  cbn [fst snd]. rewrite set_own_empty. reflexivity.
Qed.

(** X24: an unfiltered [all] (no filter at all) on a model with one
    identity field asks for the collection, asks it to find with the empty
    query, sorts the cursor by [_uri] ascending, sets no limit, skips
    nothing and lists it; an empty listing goes to the callback as a new
    empty list, without an error; of a listing with records the first has
    its locator moved from [_uri] to the identity name and is handed to the
    conversion [fromDatabase], and when that raises, the callback is not
    invoked. *)
Theorem orig_all_unfiltered idNames regexp_ok self (lh lcur : nat) name fromDatabase include
    fuel model i options filter err err' (ldata : nat) w :
  truthy filter = false ->
  serves (heap w) self model name ->
  idNames model = [i] -> match_direction i = None -> trim i = i ->
  (i =? "__proto__")%string = false ->
  truthy err = false -> truthy err' = false ->
  let n := length (heap w) in
  let asked := events w ++ [Request "queryCollection" [name];
                            Request "find" [VRef (n + 1)];
                            Request "cursor.sort" [VRef (n + 2)];
                            Request "cursor.toArray" []] in
  let sent := [plain [("order", VRef (n + 3))]; plain [];
               plain [("_uri", VNum 1)]; OArr [VStr i]] in
  (heap w !! ldata = Some (OArr []) ->
   MlOrig.all idNames regexp_ok self (VRef lh) fromDatabase include fuel model filter
     options (Some complete) (err, VRef lcur) (err', VRef ldata) w =
     (Ret tt,
      World (heap w ++ sent ++ [OArr []]) (asked ++ [Complete [VNull; VRef (n + 4)]]))) /\
  (forall (l : nat) rest c ps e,
     heap w !! ldata = Some (OArr (VRef l :: rest)) ->
     heap w !! l = Some (OObj c ps) ->
     (forall w0, fromDatabase model (VRef l) w0 = (Raise e, w0)) ->
     MlOrig.all idNames regexp_ok self (VRef lh) fromDatabase include fuel model filter
       options (Some complete) (err, VRef lcur) (err', VRef ldata) w =
       (Raise e, World (restore i l (heap w) ++ sent) asked)).
Proof.
  intros Hf Hs Hid Hm Ht Hp Herr Herr' n asked sent.
  destruct w as [h ev]. cbn [heap events] in *. subst n asked sent.
  assert (forall data,
    MlOrig.all idNames regexp_ok self (VRef lh) fromDatabase include fuel model filter
      options (Some complete) (err, VRef lcur) (err', data) (World h ev) =
    (os ← array_elems data;
     objs ← map_m (fun o =>
       inc ← MlOrig.idIncluded VUndefined (MlOrig.idValue idNames model);
       (if inc : bool then
          u ← get_prop o "_uri";
          MlOrig.setIdValue idNames model o u
        else mret tt);;
       (if truthy VUndefined || negb (key_of (MlOrig.idValue idNames model) =? "_uri")%string
        then delete_prop o "_uri" else mret tt);;
       fromDatabase model o) os;
     objs ← alloc (OArr objs);
     inc ← get_prop (VRef (length h)) "include";
     if truthy inc then include objs inc options (Some complete)
     else call (Some complete) [VNull; objs])
      (World (h ++ [plain [("order", VRef (length h + 3))]; plain [];
                    plain [("_uri", VNum 1)]; OArr [VStr i]])
             (ev ++ [Request "queryCollection" [name];
                     Request "find" [VRef (length h + 1)];
                     Request "cursor.sort" [VRef (length h + 2)];
                     Request "cursor.toArray" []]))) as Hrun.
  { intros data. unfold MlOrig.all. rewrite Hf. repeat mstep.
    rewrite (run_execute self lh model name)
      by (cbn [heap]; change (h ++ [plain []; plain []]) with (h ++ [plain []; plain []]);
          now apply serves_grown).
    cbn [fst snd heap events]. rewrite Herr.
    rewrite run_bind, (run_sort_order_fresh idNames model i h (plain []) _ Hid Hm Ht).
    cbv beta iota. repeat mstep. rewrite Herr'.
    replace (S (length h)) with (length h + 1) by lia. reflexivity. }
  split.
  - intros Hdata. rewrite Hrun. rewrite run_bind.
    erewrite run_array_elems by (simpl; apply lookup_grown; exact Hdata).
    cbv beta iota. unfold map_m. repeat mstep. unfold call, complete. repeat mstep.
    reflexivity.
  - intros l rest c ps e Hdata Hl Hfd. rewrite Hrun. rewrite run_bind.
    erewrite run_array_elems by (simpl; apply lookup_grown; exact Hdata).
    cbv beta iota. rewrite run_bind. unfold map_m at 1. fold (@map_m value value).
    rewrite run_bind.
    rewrite (run_restore_step idNames fromDatabase model i Hid Hp l h _ _ c ps Hl).
    now rewrite Hfd.
Qed.

Lemma orig_all_unfiltered_witness :
  MlOrig.all ids any_regexp (VRef 3) (VRef 10) not_defined (fun _ _ _ _ => mret tt) 1
    "Widget" VUndefined VUndefined (Some complete) (VNull, VRef 10) (VNull, VRef 11)
    (World (widgets_stored ++ widget_connector 3 ++ [OArr []]) []) =
    (Ret tt,
     World (widgets_stored ++ widget_connector 3 ++
            [OArr []; plain [("order", VRef 15)]; plain []; plain [("_uri", VNum 1)];
             OArr [VStr "id"]; OArr []])
           [Request "queryCollection" [VStr "Widget"]; Request "find" [VRef 13];
            Request "cursor.sort" [VRef 14]; Request "cursor.toArray" [];
            Complete [VNull; VRef 16]]) /\
  MlOrig.all ids any_regexp (VRef 3) (VRef 10) not_defined (fun _ _ _ _ => mret tt) 1
    "Widget" VUndefined VUndefined (Some complete) (VNull, VRef 10) (VNull, VRef 0)
    (World (widgets_stored ++ widget_connector 3 ++ [OArr []]) []) =
    (Raise TypeError,
     World (<[1 := plain [("name", VStr "a"); ("id", VStr "Widget/1.json")]]>
              (widgets_stored ++ widget_connector 3 ++ [OArr []]) ++
            [plain [("order", VRef 15)]; plain []; plain [("_uri", VNum 1)];
             OArr [VStr "id"]])
           [Request "queryCollection" [VStr "Widget"]; Request "find" [VRef 13];
            Request "cursor.sort" [VRef 14]; Request "cursor.toArray" []]).
Proof.
  split.
  - apply (proj1 (orig_all_unfiltered ids any_regexp (VRef 3) 10 10 (VStr "Widget")
                    not_defined (fun _ _ _ _ => mret tt) 1 "Widget" "id" VUndefined
                    VUndefined VNull VNull 11
                    (World (widgets_stored ++ widget_connector 3 ++ [OArr []]) [])
                    eq_refl (fun _ _ => eq_refl) eq_refl eq_refl eq_refl eq_refl eq_refl
                    eq_refl) eq_refl).
  - apply (proj2 (orig_all_unfiltered ids any_regexp (VRef 3) 10 10 (VStr "Widget")
                    not_defined (fun _ _ _ _ => mret tt) 1 "Widget" "id" VUndefined
                    VUndefined VNull VNull 0
                    (World (widgets_stored ++ widget_connector 3 ++ [OArr []]) [])
                    eq_refl (fun _ _ => eq_refl) eq_refl eq_refl eq_refl eq_refl eq_refl
                    eq_refl)
             1 [VRef 2] (Some "Object") [("_uri", VStr "Widget/1.json"); ("name", VStr "a")]
             TypeError eq_refl eq_refl (fun _ => eq_refl)).
Defined.

(** X25: a read with an explicit ordering asks for the collection, asks it
    to find, and then asks the cursor, in this order, to sort, to limit when
    the filter carries a truthy [limit], to skip by [skip] when that is
    truthy and otherwise by [offset] when that is truthy, and to list; the
    field selection, when given, goes to the store with the query; an error
    of the listing is handed on alone; where the store reports no error and
    hands back no cursor, sorting raises a [TypeError] and the callback is
    not invoked. *)
Theorem orig_all_pages idNames regexp_ok self (lh : nat) name fromDatabase include fuel model
    (lf : nat) c ps la ss options err err' data w :
  heap w !! lf = Some (OObj c ps) ->
  serves (heap w) self model name ->
  truthy (or_undefined (lookup_prop "where" ps)) = false ->
  lookup_prop "order" ps = Some (VRef la) ->
  heap w !! la = Some (OArr (VStr <$> ss)) ->
  ordinary_keys idNames model ss = true ->
  truthy err = false ->
  let get k := or_undefined (lookup_prop k ps) in
  let found := events w ++
               [Request "queryCollection" [name];
                Request "find" (VRef (length (heap w)) ::
                                if truthy (get "fields") then [get "fields"] else [])] in
  (forall lcur : nat, truthy err' = true ->
   MlOrig.all idNames regexp_ok self (VRef lh) fromDatabase include fuel model (VRef lf)
     options (Some complete) (err, VRef lcur) (err', data) w =
     (Ret tt,
      World (heap w ++ [plain []; plain (order_props idNames model ss [])])
            (found ++ [Request "cursor.sort" [VRef (S (length (heap w)))]] ++
             (if truthy (get "limit") then [Request "cursor.limit" [get "limit"]] else []) ++
             (if truthy (get "skip") then [Request "cursor.skip" [get "skip"]]
              else if truthy (get "offset") then [Request "cursor.skip" [get "offset"]]
                   else []) ++
             [Request "cursor.toArray" []; Complete [err']]))) /\
  (forall cursor, cursor = VUndefined \/ cursor = VNull ->
   MlOrig.all idNames regexp_ok self (VRef lh) fromDatabase include fuel model (VRef lf)
     options (Some complete) (err, cursor) (err', data) w =
     (Raise TypeError,
      World (heap w ++ [plain []; plain (order_props idNames model ss [])]) found)).
Proof.
  intros Hf Hs Hw Ho Ha Hord Herr get found.
  destruct w as [h ev]. cbn [heap events] in *. subst found get. cbv beta.
  assert (forall t, serves (heap (World (h ++ t) ev)) self model name) as Hs'
    by (intros t; cbn [heap]; now apply serves_grown).
  split.
  - intros lcur Herr'. unfold MlOrig.all. cbn [truthy].
    repeat mstep. rewrite Hw. repeat mstep.
    rewrite (run_execute self lh model name) by apply Hs'.
    unfold call, complete. cbn [fst snd heap events]. rewrite Herr.
    destruct (truthy (or_undefined (lookup_prop "fields" ps))) eqn:Tf;
      (rewrite run_bind;
       rewrite (run_sort_order_list idNames model lf c ps la ss)
         by (first [ exact Ho | exact Hord | simpl; apply lookup_grown; assumption ]);
       repeat mstep;
       destruct (truthy (or_undefined (lookup_prop "limit" ps))) eqn:Tl;
       destruct (truthy (or_undefined (lookup_prop "skip" ps))) eqn:Ts;
       destruct (truthy (or_undefined (lookup_prop "offset" ps))) eqn:To;
       repeat mstep; rewrite ?Ts, ?To; repeat mstep; rewrite ?To; repeat mstep;
       rewrite Herr'; repeat mstep; rewrite <- ?app_assoc; reflexivity).
  - intros cursor Hc. unfold MlOrig.all. cbn [truthy].
    repeat mstep. rewrite Hw. repeat mstep.
    rewrite (run_execute self lh model name) by apply Hs'.
    cbn [fst snd heap events]. rewrite Herr.
    destruct (truthy (or_undefined (lookup_prop "fields" ps))) eqn:Tf;
      (rewrite run_bind;
       rewrite (run_sort_order_list idNames model lf c ps la ss)
         by (first [ exact Ho | exact Hord | simpl; apply lookup_grown; assumption ]);
       destruct Hc as [-> | ->]; repeat mstep; rewrite <- ?app_assoc; reflexivity).
Qed.

Lemma orig_all_pages_witness :
  MlOrig.all ids any_regexp (VRef 2) (VRef 9) not_defined (fun _ _ _ _ => mret tt) 1
    "Widget" (VRef 0) VUndefined (Some complete) (VNull, VRef 9)
    (VStr "cursor is closed", VUndefined) (World (filter_paged ++ widget_connector 2) []) =
    (Ret tt,
     World (filter_paged ++ widget_connector 2 ++ [plain []; plain [("name", VNum (-1))]])
           [Request "queryCollection" [VStr "Widget"]; Request "find" [VRef 10];
            Request "cursor.sort" [VRef 11];
            Request "cursor.limit" [VNum 10]; Request "cursor.skip" [VNum 20];
            Request "cursor.toArray" []; Complete [VStr "cursor is closed"]]) /\
  MlOrig.all ids any_regexp (VRef 2) (VRef 9) not_defined (fun _ _ _ _ => mret tt) 1
    "Widget" (VRef 0) VUndefined (Some complete) (VNull, VUndefined)
    (VNull, VUndefined) (World (filter_paged ++ widget_connector 2) []) =
    (Raise TypeError,
     World (filter_paged ++ widget_connector 2 ++ [plain []; plain [("name", VNum (-1))]])
           [Request "queryCollection" [VStr "Widget"]; Request "find" [VRef 10]]).
Proof.
  split.
  - apply (proj1 (orig_all_pages ids any_regexp (VRef 2) 9 (VStr "Widget") not_defined
             (fun _ _ _ _ => mret tt) 1 "Widget" 0 (Some "Object")
             [("order", VRef 1); ("limit", VNum 10); ("skip", VNum 20); ("offset", VNum 5)]
             1 ["name DESC"] VUndefined VNull (VStr "cursor is closed") VUndefined
             (World (filter_paged ++ widget_connector 2) [])
             eq_refl (fun _ _ => eq_refl) eq_refl eq_refl eq_refl eq_refl eq_refl)
             9 eq_refl).
  - apply (proj2 (orig_all_pages ids any_regexp (VRef 2) 9 (VStr "Widget") not_defined
             (fun _ _ _ _ => mret tt) 1 "Widget" 0 (Some "Object")
             [("order", VRef 1); ("limit", VNum 10); ("skip", VNum 20); ("offset", VNum 5)]
             1 ["name DESC"] VUndefined VNull VNull VUndefined
             (World (filter_paged ++ widget_connector 2) [])
             eq_refl (fun _ _ => eq_refl) eq_refl eq_refl eq_refl eq_refl eq_refl)
             VUndefined (or_introl eq_refl)).
Defined.

(** ** Updates of the collection-command connector *)

Arguments MlOrig.parseUpdateData : simpl never.
Arguments MlOrig.not_found : simpl never.

(** X26: [updateAll] takes the identity out of the caller's payload, in
    place, asks for the collection of the model and asks it for one update
    of every match of the translated filter, never an insert ([multi] and
    no [upsert]), with the payload under [$set] (extended operators off);
    the callback receives the store's error alone, or else the number of
    matches the store reports under [count].  The payload is no part of the
    connector: the connector serves with the identity off the payload. *)
Theorem orig_updateAll_counts idNames regexp_ok flag self (lh : nat) name fuel model where_
    (ld : nat) c ps options q w w1 :
  MlOrig.buildWhere idNames regexp_ok fuel model where_ w = (Ret q, w1) ->
  heap w !! ld = Some (OObj c ps) ->
  flag <> VBool true ->
  let idn := key_of (MlOrig.idValue idNames model) in
  serves (<[ld := OObj c (delete_own idn ps)]> (heap w)) self model name ->
  let sent := <[ld := OObj c (delete_own idn ps)]> (heap w1) ++
              [plain [("$set", VRef ld)];
               plain [("multi", VBool true); ("upsert", VBool false)]] in
  let asked := events w ++
               [Request "queryCollection" [name];
                Request "update" [q; VRef (length (heap w1)); VRef (S (length (heap w1)))]] in
  (forall err info, truthy err = true ->
     MlOrig.updateAll idNames regexp_ok flag self (VRef lh) fuel model where_ (VRef ld)
       options (Some complete) (err, info) w =
       (Ret tt, World sent (asked ++ [Complete [err]]))) /\
  (forall err (li lr : nat) oi or,
     truthy err = false ->
     heap w !! li = Some oi -> own_prop oi "result" = VRef lr -> heap w !! lr = Some or ->
     li <> ld -> lr <> ld ->
     MlOrig.updateAll idNames regexp_ok flag self (VRef lh) fuel model where_ (VRef ld)
       options (Some complete) (err, VRef li) w =
       (Ret tt,
        World (sent ++ [plain [("count", own_prop or "n")]])
              (asked ++ [Complete [err; VRef (S (S (length (heap w1))))]]))).
Proof.
  intros Hb Hd Hflag idn Hs sent asked.
  pose proof (buildWhere_grows idNames regexp_ok "_uri" fuel model where_ w) as G.
  unfold MlOrig.buildWhere in Hb. rewrite Hb in G.
  pose proof (grows_prefix _ _ G) as Hpre. destruct G as (E & L & F).
  destruct w as [h ev]. destruct w1 as [h1 ev1]. cbn [heap events fst snd] in *. subst ev1.
  assert (forall (l : nat) o, h !! l = Some o -> h1 !! l = Some o) as Hold.
  { intros l o Hl. rewrite F; [exact Hl | eapply lookup_lt_Some, Hl]. }
  pose proof (Hold _ _ Hd) as Hd1. pose proof (lookup_lt_Some _ _ _ Hd) as Hlt.
  assert (serves sent self model name) as Hs1.
  { unfold sent. apply serves_grown. rewrite Hpre.
    rewrite insert_app_l by exact Hlt. now apply serves_grown. }
  assert (forall cb reply,
    MlOrig.updateAll idNames regexp_ok flag self (VRef lh) fuel model where_ (VRef ld)
      options cb reply (World h ev) =
    (let '(err, info) := reply in
     if truthy err then call_guarded cb [err]
     else
       r ← get_prop info "result";
       n ← (if truthy r then get_prop r "n" else mret VUndefined);
       c ← alloc (plain [("count", n)]);
       call_guarded cb [err; c]) (World sent asked)) as Hrun.
  { intros cb [err info]. unfold MlOrig.updateAll, MlOrig.buildWhere.
    rewrite run_bind, Hb. cbv beta iota. fold idn.
    rewrite run_bind. erewrite run_delete_ref by exact Hd1. cbv beta iota.
    rewrite run_bind, (run_parseUpdateData_off flag model (VRef ld) _ Hflag).
    cbn [heap events fst snd]. repeat mstep. rewrite length_insert.
    rewrite (run_execute self lh model name) by (cbn [heap]; exact Hs1).
    reflexivity. }
  split.
  - intros err info Herr. rewrite Hrun. rewrite Herr. unfold call_guarded, complete.
    now rewrite run_emit.
  - intros err li lr oi or Herr Hi Hr Hor N1 N2. rewrite Hrun. rewrite Herr.
    assert (sent !! li = Some oi) as Hi'.
    { unfold sent. apply lookup_grown. rewrite list_lookup_insert_ne by auto. auto. }
    assert (sent !! lr = Some or) as Hr'.
    { unfold sent. apply lookup_grown. rewrite list_lookup_insert_ne by auto. auto. }
    assert (length sent = S (S (length h1))) as Hlen.
    { unfold sent. rewrite length_app, length_insert. simpl. lia. }
    unfold call_guarded, complete.
    rewrite run_bind, (run_get_ref li oi "result" (World sent asked) Hi').
    cbv beta iota. rewrite Hr. cbn [truthy].
    rewrite run_bind, (run_get_ref lr or "n" (World sent asked) Hr'). cbv beta iota.
    rewrite run_bind, run_alloc. cbv beta iota. rewrite run_emit. cbn [heap events].
    now rewrite Hlen.
Qed.

Lemma orig_updateAll_counts_witness :
  MlOrig.updateAll ids any_regexp (VBool false) (VRef 4) (VRef 11) 1 "Widget" (VRef 0)
    (VRef 1) VUndefined (Some complete) (VNull, VRef 2)
    (World (widgets_updated ++ widget_connector 4) []) =
    (Ret tt,
     World (<[1 := plain [("color", VStr "red")]]> (widgets_updated ++ widget_connector 4) ++
            [plain [("name", VStr "a")]; plain [("$set", VRef 1)];
             plain [("multi", VBool true); ("upsert", VBool false)];
             plain [("count", VNum 2)]])
           [Request "queryCollection" [VStr "Widget"];
            Request "update" [VRef 12; VRef 13; VRef 14]; Complete [VNull; VRef 15]]).
Proof.
  apply (proj2 (orig_updateAll_counts ids any_regexp (VBool false) (VRef 4) 11 (VStr "Widget")
                  1 "Widget" (VRef 0) 1
                  (Some "Object") [("id", VStr "Widget/9.json"); ("color", VStr "red")]
                  VUndefined (VRef 12) (World (widgets_updated ++ widget_connector 4) [])
                  (World (widgets_updated ++ widget_connector 4 ++ [plain [("name", VStr "a")]])
                         [])
                  eq_refl eq_refl ltac:(discriminate) (fun _ _ => eq_refl))
           VNull 2 3 (plain [("result", VRef 3)]) (plain [("ok", VNum 1); ("n", VNum 2)])
           eq_refl eq_refl eq_refl eq_refl ltac:(discriminate) ltac:(discriminate)).
Defined.

(** X27: [updateAttributes] asks for the collection of the model and asks
    it to modify the one record at the locator, without upsert (empty
    options) and with the payload under [$set] (extended operators off);
    when the store hands back a record, it is given the locator under the
    identity name, loses [_uri], and goes to the callback with the store's
    error as it is; when it reports no error and hands back no record (no
    answer, or an answer whose [value] is falsy), the callback receives the
    error ['No <model> found for uri <locator>']. *)
Theorem orig_updateAttributes_result idNames flag self (lh : nat) name model uri data
    options w :
  flag <> VBool true ->
  serves (heap w) self model name ->
  let idn := key_of (MlOrig.idValue idNames model) in
  let n := length (heap w) in
  let sent := [plain [("$set", data)]; plain [("_uri", uri)];
               OArr [VStr "_uri"; VStr "asc"]; OArr [VRef (n + 2)]; plain []] in
  let asked := events w ++
               [Request "queryCollection" [name];
                Request "findAndModify" [VRef (n + 1); VRef (n + 3); VRef n; VRef (n + 4)]] in
  (forall err result s,
     truthy err = false -> truthy result = false ->
     (forall w0, to_string uri w0 = (Ret s, w0)) ->
     MlOrig.updateAttributes idNames flag self (VRef lh) model uri data options
       (Some complete) (err, result) w =
       (Ret tt,
        World (heap w ++ sent)
              (asked ++ [Complete [VStr ("No " ++ model ++ " found for uri " ++ s);
                                   result]]))) /\
  (forall err (lr : nat) or s,
     truthy err = false ->
     heap w !! lr = Some or -> truthy (own_prop or "value") = false ->
     (forall w0, to_string uri w0 = (Ret s, w0)) ->
     MlOrig.updateAttributes idNames flag self (VRef lh) model uri data options
       (Some complete) (err, VRef lr) w =
       (Ret tt,
        World (heap w ++ sent)
              (asked ++ [Complete [VStr ("No " ++ model ++ " found for uri " ++ s);
                                   own_prop or "value"]]))) /\
  (forall err (lr lo : nat) or co po,
     heap w !! lr = Some or -> own_prop or "value" = VRef lo ->
     heap w !! lo = Some (OObj co po) ->
     (idn =? "__proto__")%string = false ->
     MlOrig.updateAttributes idNames flag self (VRef lh) model uri data options
       (Some complete) (err, VRef lr) w =
       (Ret tt,
        World (<[lo := OObj co (located_record idn uri po)]> (heap w) ++ sent)
              (asked ++ [Complete [err; VRef lo]]))).
Proof.
  intros Hflag Hs idn n sent asked. destruct w as [h ev]. cbn [heap events] in *.
  assert (forall cb reply,
    MlOrig.updateAttributes idNames flag self (VRef lh) model uri data options cb reply
      (World h ev) =
    (let '(err, result) := reply in
     object ← (if truthy result then get_prop result "value" else mret result);
     err ← (if negb (truthy err) && negb (truthy object)
            then MlOrig.not_found model uri else mret err);
     MlOrig.setIdValue idNames model object uri;;
     (if truthy object && negb (idn =? "_uri")%string
      then delete_prop object "_uri" else mret tt);;
     call_guarded cb [err; object]) (World (h ++ sent) asked)) as Hrun.
  { intros cb [err result]. unfold MlOrig.updateAttributes.
    rewrite run_bind, (run_parseUpdateData_off flag model data _ Hflag).
    cbn [heap events fst snd]. repeat mstep. fold idn.
    rewrite (run_execute self lh model name) by (cbn [heap]; now apply serves_grown).
    unfold sent, asked, n. cbn [fst snd heap events]. rewrite ?length_app. cbn [length].
    rewrite <- ?app_assoc, ?Nat.add_1_r.
    replace (length h + 2) with (S (S (length h))) by lia.
    replace (length h + 3) with (S (S (S (length h)))) by lia.
    replace (length h + 4) with (S (S (S (S (length h))))) by lia.
    reflexivity. }
  split; [| split].
  - intros err result s Herr Hres Hs'. rewrite Hrun. rewrite Hres. repeat mstep.
    rewrite Herr, Hres. cbn [negb andb]. unfold MlOrig.not_found.
    rewrite run_bind, Hs'. unfold MlOrig.setIdValue. rewrite Hres.
    unfold call_guarded, complete. repeat mstep. reflexivity.
  - intros err lr or s Herr Hr Hv Hs'. rewrite Hrun. cbn [truthy].
    repeat mstep. rewrite Herr, Hv. cbn [negb andb]. unfold MlOrig.not_found.
    rewrite run_bind, Hs'. unfold MlOrig.setIdValue. rewrite Hv.
    unfold call_guarded, complete. repeat mstep. reflexivity.
  - intros err lr lo or co po Hr Hv Ho Hp. rewrite Hrun. cbn [truthy].
    pose proof (lookup_lt_Some _ _ _ Ho) as Hlt.
    repeat mstep. rewrite Hv. cbn [truthy negb andb]. rewrite andb_false_r.
    unfold MlOrig.setIdValue. cbn [truthy]. fold idn. repeat mstep.
    rewrite insert_app_l by exact Hlt. unfold located_record. cbv zeta.
    destruct (idn =? "_uri")%string; cbn [negb].
    + unfold call_guarded, complete. repeat mstep. reflexivity.
    + erewrite run_delete_ref
        by (simpl; apply lookup_grown; now apply list_lookup_insert_eq).
      unfold call_guarded, complete. repeat mstep.
      rewrite insert_app_l by (rewrite length_insert; exact Hlt).
      rewrite list_insert_insert_eq. reflexivity.
Qed.

Lemma orig_updateAttributes_result_witness :
  MlOrig.updateAttributes ids (VBool false) (VRef 3) (VRef 10) "Widget"
    (VStr "Widget/1.json") (VRef 0) VUndefined (Some complete) (VNull, VRef 1)
    (World (widget_modified ++ widget_connector 3) []) =
    (Ret tt,
     World (<[2 := plain [("name", VStr "a"); ("color", VStr "red");
                          ("id", VStr "Widget/1.json")]]>
              (widget_modified ++ widget_connector 3) ++
            [plain [("$set", VRef 0)]; plain [("_uri", VStr "Widget/1.json")];
             OArr [VStr "_uri"; VStr "asc"]; OArr [VRef 13]; plain []])
           [Request "queryCollection" [VStr "Widget"];
            Request "findAndModify" [VRef 12; VRef 14; VRef 11; VRef 15];
            Complete [VNull; VRef 2]]) /\
  MlOrig.updateAttributes ids (VBool false) (VRef 2) (VRef 9) "Widget" (VNum 7) (VRef 0)
    VUndefined (Some complete) (VNull, VRef 1)
    (World (absent_modify ++ widget_connector 2) []) =
    (Ret tt,
     World (absent_modify ++ widget_connector 2 ++
            [plain [("$set", VRef 0)]; plain [("_uri", VNum 7)];
             OArr [VStr "_uri"; VStr "asc"]; OArr [VRef 12]; plain []])
           [Request "queryCollection" [VStr "Widget"];
            Request "findAndModify" [VRef 11; VRef 13; VRef 10; VRef 14];
            Complete [VStr "No Widget found for uri 7"; VNull]]).
Proof.
  split.
  - apply (proj2 (proj2 (orig_updateAttributes_result ids (VBool false) (VRef 3) 10
                    (VStr "Widget") "Widget" (VStr "Widget/1.json") (VRef 0) VUndefined
                    (World (widget_modified ++ widget_connector 3) [])
                    ltac:(discriminate) (fun _ _ => eq_refl)))
             VNull 1 2 (plain [("value", VRef 2)]) (Some "Object")
             [("_uri", VStr "Widget/1.json"); ("name", VStr "a"); ("color", VStr "red")]
             eq_refl eq_refl eq_refl eq_refl).
  - apply (proj1 (proj2 (orig_updateAttributes_result ids (VBool false) (VRef 2) 9
                    (VStr "Widget") "Widget" (VNum 7) (VRef 0) VUndefined
                    (World (absent_modify ++ widget_connector 2) [])
                    ltac:(discriminate) (fun _ _ => eq_refl)))
             VNull 1 (plain [("value", VNull)]) "7" eq_refl eq_refl eq_refl
             (fun _ => eq_refl)).
Defined.

(** ** The indexes of a model *)

Arguments MlOrig.named_index : simpl never.
Arguments MlOrig.property_entry : simpl never.
Arguments MlOrig.property_index : simpl never.
Arguments enumerate : simpl never.

Lemma run_enumerate_ref l o w :
  heap w !! l = Some o -> enumerate (VRef l) w = (Ret (own_keys o), w).
Proof. intros H. unfold enumerate. now apply run_keys_ref. Qed.

Lemma run_or_m_truthy a b w x :
  a w = (Ret x, w) -> truthy x = true -> or_m a b w = (Ret x, w).
Proof. intros Ha Hx. unfold or_m. now rewrite run_bind, Ha, Hx. Qed.

Lemma run_or_m_falsy a b w x :
  a w = (Ret x, w) -> truthy x = false -> or_m a b w = b w.
Proof. intros Ha Hx. unfold or_m. now rewrite run_bind, Ha, Hx. Qed.

(** X28: an index the model's settings declare by its keys alone (an
    ordinary object without a truthy [keys] of its own, no array) is asked
    of the store as [{keys: declaration, options: {name: n}}], [n] the name
    it is declared under; for settings given as a list that name is the
    position in the list; the declaration is not written to. *)
Theorem indexList_wraps (ls lm lc lset lix li : nat) os om oc oset oix ci pi model name w :
  heap w !! ls = Some os -> own_prop os "_models" = VRef lm ->
  heap w !! lm = Some om -> own_prop om model = VRef lc ->
  heap w !! lc = Some oc -> own_prop oc "settings" = VRef lset ->
  heap w !! lset = Some oset -> own_prop oset "indexes" = VRef lix ->
  heap w !! lix = Some oix -> own_keys oix = [name] -> own_prop oix name = VRef li ->
  heap w !! li = Some (OObj ci pi) ->
  truthy (or_undefined (lookup_prop "keys" pi)) = false ->
  own_prop oc "properties" = VUndefined ->
  MlOrig.indexList (VRef ls) model w =
    (Ret (VRef (length (heap w))),
     World (heap w ++
            [OArr [VRef (length (heap w) + 4)]; plain []; plain [];
             plain [("name", VStr name)];
             plain [("keys", VRef li); ("options", VRef (length (heap w) + 3))]])
           (events w)).
Proof.
  intros Hs Hm Hom Hc Hoc Hset Hoset Hix Hoix Hk Hv Hoi Hkeys Hprops.
  destruct w as [h ev]. cbn [heap events] in *.
  unfold MlOrig.indexList. repeat mstep. rewrite Hm. repeat mstep. rewrite Hc.
  repeat mstep. rewrite Hset. repeat mstep.
  rewrite (run_or_m_truthy _ _ _ (VRef lix))
    by (first [ erewrite run_get_ref by eassumption; now rewrite Hix | reflexivity ]).
  repeat mstep. erewrite run_enumerate_ref by heap_lookup. rewrite Hk.
  rewrite run_bind, run_for_each_one. unfold MlOrig.named_index.
  repeat mstep. rewrite Hv. repeat mstep. rewrite Hkeys. repeat mstep.
  rewrite Hm. repeat mstep. rewrite Hc. repeat mstep. rewrite Hprops.
  unfold enumerate. repeat mstep. rewrite !length_app. reflexivity.
Qed.

Lemma indexList_wraps_witness :
  MlOrig.indexList (VRef 0) "Widget" (World connector_indexed []) =
    (Ret (VRef 7),
     World (connector_indexed ++
            [OArr [VRef 11]; plain []; plain []; plain [("name", VStr "by_name")];
             plain [("keys", VRef 5); ("options", VRef 10)]]) []).
Proof.
  apply (indexList_wraps 0 1 2 3 4 5
           (OObj (Some "MarkLogic") [("_models", VRef 1)])
           (plain [("Widget", VRef 2)])
           (plain [("settings", VRef 3)])
           (plain [("indexes", VRef 4)])
           (plain [("by_name", VRef 5)])
           (Some "Object") [("name", VNum 1)]
           "Widget" "by_name" (World connector_indexed [])); reflexivity.
Defined.

(** X29: an index the settings declare with [keys] (and no options) is
    asked of the store as the declaration itself: the declaration object of
    the model's settings is written to, getting an [options] object that
    names the index by the name it is declared under. *)
Theorem indexList_names (ls lm lc lset lix li : nat) os om oc oset oix ci pi model name w :
  heap w !! ls = Some os -> own_prop os "_models" = VRef lm ->
  heap w !! lm = Some om -> own_prop om model = VRef lc ->
  heap w !! lc = Some oc -> own_prop oc "settings" = VRef lset ->
  heap w !! lset = Some oset -> own_prop oset "indexes" = VRef lix ->
  heap w !! lix = Some oix -> own_keys oix = [name] -> own_prop oix name = VRef li ->
  heap w !! li = Some (OObj ci pi) ->
  truthy (or_undefined (lookup_prop "keys" pi)) = true ->
  truthy (or_undefined (lookup_prop "options" pi)) = false ->
  own_prop oc "properties" = VUndefined ->
  li <> ls -> li <> lm -> li <> lc ->
  MlOrig.indexList (VRef ls) model w =
    (Ret (VRef (length (heap w))),
     World (<[li := OObj ci (set_own "options" (VRef (length (heap w) + 3)) pi)]> (heap w) ++
            [OArr [VRef li]; plain []; plain []; plain [("name", VStr name)]])
           (events w)).
Proof.
  intros Hs Hm Hom Hc Hoc Hset Hoset Hix Hoix Hk Hv Hoi Hkeys Hopts Hprops N1 N2 N3.
  destruct w as [h ev]. cbn [heap events] in *.
  pose proof (lookup_lt_Some _ _ _ Hoi) as Hlt.
  unfold MlOrig.indexList. repeat mstep. rewrite Hm. repeat mstep. rewrite Hc.
  repeat mstep. rewrite Hset. repeat mstep.
  rewrite (run_or_m_truthy _ _ _ (VRef lix))
    by (first [ erewrite run_get_ref by eassumption; now rewrite Hix | reflexivity ]).
  repeat mstep. erewrite run_enumerate_ref by heap_lookup. rewrite Hk.
  rewrite run_bind, run_for_each_one. unfold MlOrig.named_index.
  repeat mstep. rewrite Hv. repeat mstep. rewrite Hkeys. repeat mstep.
  erewrite (run_or_m_falsy _ _ _ (or_undefined (lookup_prop "options" pi)))
    by (first [ erewrite run_get_ref by heap_lookup; reflexivity | exact Hopts ]).
  repeat mstep. rewrite !length_app. cbn [length].
  erewrite (run_or_m_falsy _ _ _ VUndefined)
    by (first [ erewrite run_get_ref by (simpl; rewrite (lookup_at h _ 3); reflexivity);
                reflexivity
              | reflexivity ]).
  rewrite run_ret. cbv beta iota. rewrite run_bind.
  erewrite run_put_ref by (simpl; rewrite (lookup_at h _ 3); reflexivity).
  rewrite (accessor_ordinary "name" _ eq_refl). cbn [heap events]. rewrite insert_at.
  cbn [list_insert insert]. rewrite set_own_empty.
  rewrite run_bind. erewrite run_put_ref by (simpl; apply lookup_grown; exact Hoi).
  rewrite (accessor_ordinary "options" _ eq_refl). cbn [heap events].
  rewrite insert_app_l by exact Hlt. rewrite run_ret.
  set (h1 := <[li := OObj ci (set_own "options" (VRef (length h + 3)) pi)]> h).
  assert (length h1 = length h) as Hlen by apply length_insert.
  assert (forall (l : nat) o, l <> li -> h !! l = Some o -> h1 !! l = Some o) as Hold.
  { intros l o Hne Hl. unfold h1. now rewrite list_lookup_insert_ne by auto. }
  rewrite <- Hlen at 1 2. repeat mstep.
  erewrite run_get_ref by (simpl; apply lookup_grown, Hold; [auto | exact Hs]).
  rewrite Hm. repeat mstep.
  erewrite run_get_ref by (simpl; apply lookup_grown, Hold; [auto | exact Hom]).
  rewrite Hc. repeat mstep.
  erewrite run_get_ref by (simpl; apply lookup_grown, Hold; [auto | exact Hoc]).
  rewrite Hprops. unfold enumerate. repeat mstep. rewrite ?Hlen. reflexivity.
Qed.

Lemma indexList_names_witness :
  MlOrig.indexList (VRef 0) "Widget" (World connector_keyed []) =
    (Ret (VRef 8),
     World (<[5 := plain [("keys", VRef 6); ("options", VRef 11)]]> connector_keyed ++
            [OArr [VRef 5]; plain []; plain []; plain [("name", VStr "by_name")]]) []).
Proof.
  apply (indexList_names 0 1 2 3 4 5
           (OObj (Some "MarkLogic") [("_models", VRef 1)])
           (plain [("Widget", VRef 2)])
           (plain [("settings", VRef 3)])
           (plain [("indexes", VRef 4)])
           (plain [("by_name", VRef 5)])
           (Some "Object") [("keys", VRef 6)]
           "Widget" "by_name" (World connector_keyed []));
    first [ reflexivity | discriminate ].
Defined.

(** X30: a property declared with an [index] gets an ascending index on
    that property alone, built in the background: declared by a truthy
    primitive, with fresh options [{background: true}], and [unique] when
    the property says so; declared by an object (without a [mongodb]
    entry), with that very object as its options, which is written to when
    it says nothing about [background]. *)
Theorem indexList_property (ls lm lc lset lp lpp : nat) os om oc oset op opp model p w :
  heap w !! ls = Some os -> own_prop os "_models" = VRef lm ->
  heap w !! lm = Some om -> own_prop om model = VRef lc ->
  heap w !! lc = Some oc -> own_prop oc "settings" = VRef lset ->
  heap w !! lset = Some oset -> truthy (own_prop oset "indexes") = false ->
  own_prop oc "properties" = VRef lp ->
  heap w !! lp = Some op -> own_keys op = [p] -> own_prop op p = VRef lpp ->
  heap w !! lpp = Some opp ->
  (p =? "__proto__")%string = false ->
  let n := length (heap w) in
  (truthy (own_prop opp "index") = true ->
   (typeof (own_prop opp "index") =? "object")%string = false ->
   MlOrig.indexList (VRef ls) model w =
     (Ret (VRef (n + 1)),
      World (heap w ++
             [OArr []; OArr [VRef (n + 6)]; plain []; plain [];
              plain [(p, VNum 1)];
              plain (("background", VBool true) ::
                     if truthy (own_prop opp "unique") then [("unique", VBool true)]
                     else []);
              plain [("keys", VRef (n + 4)); ("options", VRef (n + 5))]])
            (events w))) /\
  (forall (lix : nat) cix pix,
     own_prop opp "index" = VRef lix -> heap w !! lix = Some (OObj cix pix) ->
     (typeof (or_undefined (lookup_prop "mongodb" pix)) =? "object")%string = false ->
     MlOrig.indexList (VRef ls) model w =
       (Ret (VRef (n + 1)),
        World (<[lix := OObj cix
                          (if strict_eq (or_undefined (lookup_prop "background" pix)) VUndefined
                           then set_own "background" (VBool true) pix else pix)]> (heap w) ++
               [OArr []; OArr [VRef (n + 5)]; plain []; plain [];
                plain [(p, VNum 1)];
                plain [("keys", VRef (n + 4)); ("options", VRef lix)]])
              (events w))).
Proof.
  intros Hs Hm Hom Hc Hoc Hset Hoset Hix Hprops Hop Hk Hv Hopp Hp n.
  destruct w as [h ev]. cbn [heap events] in *. subst n.
  assert (forall t ev0,
    MlOrig.property_index (VRef lp) p (World (h ++ t) ev0) =
      (Ret (own_prop opp "index"), World (h ++ t) ev0)) as Hpi.
  { intros t ev0. unfold MlOrig.property_index. repeat mstep. rewrite Hv. repeat mstep.
    reflexivity. }
  assert (MlOrig.indexList (VRef ls) model (World h ev) =
          (MlOrig.property_entry (VRef lp) (VRef (length h + 1)) p;;
           mret (VRef (length h + 1)))
            (World (h ++ [OArr []; OArr []; plain []; plain []]) ev)) as Hrun.
  { unfold MlOrig.indexList. repeat mstep. rewrite Hm. repeat mstep. rewrite Hc.
    repeat mstep. rewrite Hset. repeat mstep.
    erewrite (run_or_m_falsy _ _ _ (own_prop oset "indexes"))
      by (first [ erewrite run_get_ref by eassumption; reflexivity | exact Hix ]).
    repeat mstep. unfold enumerate at 1. repeat mstep.
    rewrite Hm. repeat mstep. rewrite Hc. repeat mstep. rewrite Hprops.
    erewrite run_enumerate_ref by heap_lookup. rewrite Hk.
    rewrite run_bind, run_for_each_one. rewrite Nat.add_1_r. reflexivity. }
  rewrite Hrun. unfold MlOrig.property_entry. clear Hrun.
  rewrite run_bind, run_bind, Hpi. cbv beta iota.
  split.
  - intros Ht Hty. rewrite Ht. rewrite run_bind, run_alloc. cbn [heap events].
    rewrite <- app_assoc. cbn [app]. rewrite !length_app. cbn [length].
    rewrite run_bind.
    erewrite run_put_ref by (simpl; rewrite (lookup_at h _ 4); reflexivity).
    rewrite (accessor_ordinary p _ Hp). cbn [heap events]. rewrite insert_at.
    cbn [list_insert insert]. rewrite set_own_empty.
    rewrite run_bind, Hpi. cbv beta iota. rewrite Hty.
    rewrite run_bind, run_bind, run_alloc. cbn [heap events].
    rewrite <- app_assoc. cbn [app]. rewrite !length_app. cbn [length].
    rewrite run_bind. erewrite run_get_ref by (simpl; apply lookup_grown; exact Hop).
    rewrite Hv. cbv beta iota.
    rewrite run_bind. erewrite run_get_ref by (simpl; apply lookup_grown; exact Hopp).
    cbv beta iota. rewrite run_bind.
    destruct (truthy (own_prop opp "unique")).
    + erewrite run_put_ref by (simpl; rewrite (lookup_at h _ 5); reflexivity).
      rewrite (accessor_ordinary "unique" _ eq_refl). cbn [heap events]. rewrite insert_at.
      cbn [list_insert insert]. rewrite run_ret.
      rewrite run_bind, run_alloc. cbn [heap events].
      rewrite <- app_assoc. cbn [app]. rewrite !length_app. cbn [length].
      erewrite run_push by (simpl; rewrite (lookup_at h _ 1); reflexivity).
      cbn [heap events]. rewrite insert_at. cbn [list_insert insert]. rewrite run_ret.
      reflexivity.
    + rewrite run_ret, run_ret.
      rewrite run_bind, run_alloc. cbn [heap events].
      rewrite <- app_assoc. cbn [app]. rewrite !length_app. cbn [length].
      erewrite run_push by (simpl; rewrite (lookup_at h _ 1); reflexivity).
      cbn [heap events]. rewrite insert_at. cbn [list_insert insert]. rewrite run_ret.
      reflexivity.
  - intros lix cix pix Hi Holix Hmongo. rewrite Hi. cbn [truthy].
    pose proof (lookup_lt_Some _ _ _ Holix) as Hlt.
    rewrite run_bind, run_alloc. cbn [heap events].
    rewrite <- app_assoc. cbn [app]. rewrite !length_app. cbn [length].
    rewrite run_bind.
    erewrite run_put_ref by (simpl; rewrite (lookup_at h _ 4); reflexivity).
    rewrite (accessor_ordinary p _ Hp). cbn [heap events]. rewrite insert_at.
    cbn [list_insert insert]. rewrite set_own_empty.
    rewrite run_bind, Hpi, Hi. cbv beta iota. cbn [typeof].
    change ("object" =? "object")%string with true. cbv iota.
    rewrite run_bind, run_bind, Hpi, Hi. cbv beta iota.
    rewrite run_bind. erewrite run_get_ref by (simpl; apply lookup_grown; exact Holix).
    cbn [own_prop]. cbv beta iota. rewrite Hmongo.
    rewrite run_bind, Hpi, Hi. cbv beta iota.
    rewrite run_bind. erewrite run_get_ref by (simpl; apply lookup_grown; exact Holix).
    cbn [own_prop]. cbv beta iota. rewrite run_bind.
    destruct (strict_eq (or_undefined (lookup_prop "background" pix)) VUndefined).
    + erewrite run_put_ref by (simpl; apply lookup_grown; exact Holix).
      rewrite (accessor_ordinary "background" _ eq_refl). cbn [heap events].
      rewrite insert_app_l by exact Hlt. rewrite run_ret.
      rewrite run_bind, run_alloc. cbn [heap events].
      rewrite <- app_assoc. cbn [app]. rewrite !length_app, length_insert. cbn [length].
      set (h1 := <[lix := _]> h).
      assert (length h1 = length h) as Hlen by apply length_insert.
      rewrite <- Hlen.
      erewrite run_push by (simpl; rewrite (lookup_at h1 _ 1); reflexivity).
      cbn [heap events]. rewrite insert_at. cbn [list_insert insert]. rewrite run_ret.
      reflexivity.
    + rewrite run_ret, run_ret. rewrite list_insert_id by exact Holix.
      rewrite run_bind, run_alloc. cbn [heap events].
      rewrite <- app_assoc. cbn [app]. rewrite !length_app. cbn [length].
      erewrite run_push by (simpl; rewrite (lookup_at h _ 1); reflexivity).
      cbn [heap events]. rewrite insert_at. cbn [list_insert insert]. rewrite run_ret.
      reflexivity.
Qed.

Lemma indexList_property_witness :
  MlOrig.indexList (VRef 0) "Widget" (World connector_property []) =
    (Ret (VRef 8),
     World (<[6 := plain [("unique", VBool true); ("background", VBool true)]]>
              connector_property ++
            [OArr []; OArr [VRef 12]; plain []; plain []; plain [("email", VNum 1)];
             plain [("keys", VRef 11); ("options", VRef 6)]]) []).
Proof.
  apply (proj2 (indexList_property 0 1 2 3 4 5
                  (OObj (Some "MarkLogic") [("_models", VRef 1)])
                  (plain [("Widget", VRef 2)])
                  (plain [("settings", VRef 3); ("properties", VRef 4)])
                  (plain [])
                  (plain [("email", VRef 5)])
                  (plain [("type", VStr "string"); ("index", VRef 6)])
                  "Widget" "email" (World connector_property [])
                  eq_refl eq_refl eq_refl eq_refl eq_refl eq_refl eq_refl eq_refl eq_refl
                  eq_refl eq_refl eq_refl eq_refl eq_refl)
           6 (Some "Object") [("unique", VBool true)] eq_refl eq_refl eq_refl).
Defined.
